(** * UGC Flow: the workflow engine, the generation service and the storage mapping

    A shallow embedding of [App.tsx] (the workflow handlers), of
    [services/geminiService.ts] (the calls to the generation capability and the
    parsing of its responses), of [lib/supabase.ts] (the persona mapping) and of
    [types.ts], followed by the properties of the specification.

    Conventions.
    - A value of TypeScript type [any] is a [Value]; a field that the code fills
      from such a value is a [Value] too, whatever [types.ts] declares for it.
    - A JavaScript object used as a dictionary is a [gmap string _].
    - Everything that the program does not compute itself is read from an
      environment [Env]: the runtime's [JSON.parse], [Number::toString] and
      [Date.now], the remote image fetch, and the generation capability.
    - An asynchronous function is a computation [M A] over a [World] that
      records every request sent to the capability and every console line;
      a rejected promise is the result [Throw]. *)

From Stdlib Require Import Floats.PrimFloat Floats.SpecFloat Floats.FloatOps Ascii String ZArith Uint63.
From stdpp Require Import gmap strings list pretty.

Set Warnings "-register-all".
Open Scope string_scope.
Open Scope list_scope.

(** ** JavaScript values *)

Inductive Value : Type :=
| VUndefined
| VNull
| VBool (b : bool)
| VNum (x : float)
| VStr (s : string)
| VArr (l : list Value)
| VObj (m : list (string * Value)).

(** ToBoolean. *)
Definition truthy (v : Value) : bool :=
  match v with
  | VUndefined | VNull => false
  | VBool b => b
  | VNum x => negb (PrimFloat.eqb x 0%float || negb (PrimFloat.eqb x x))
  | VStr s => negb (String.eqb s "")
  | VArr _ | VObj _ => true
  end.

(** [a || b] on values. *)
Definition js_or (a b : Value) : Value := if truthy a then a else b.

(** ToBoolean of a string, for the fields that are strings by construction. *)
Definition nonempty (s : string) : bool := negb (String.eqb s "").

(** ** lib/supabase.ts *)

(** The argument of [mapPersonaToDb] and the result of [mapPersonaFromDb]:
    the eight properties the functions read or write, [VUndefined] when the
    object has no such property. *)
Module PersonaAny.
Record t : Type := mk {
  id : Value;
  name : Value;
  location : Value;
  country : Value;
  niche : Value;
  bio : Value;
  avatarUrl : Value;
  refImages : Value
}.
End PersonaAny.

(** A row of the [personas] table. *)
Module DbRow.
Record t : Type := mk {
  id : Value;
  name : Value;
  location : Value;
  country : Value;
  niche : Value;
  bio : Value;
  avatar_url : Value;
  ref_images : Value
}.
End DbRow.

Definition mapPersonaFromDb (row : DbRow.t) : PersonaAny.t :=
  {| PersonaAny.id := DbRow.id row;
     PersonaAny.name := DbRow.name row;
     PersonaAny.location := DbRow.location row;
     PersonaAny.country := DbRow.country row;
     PersonaAny.niche := js_or (DbRow.niche row) (VArr []);
     PersonaAny.bio := DbRow.bio row;
     PersonaAny.avatarUrl := DbRow.avatar_url row;
     PersonaAny.refImages := js_or (DbRow.ref_images row) (VArr []) |}.

Definition mapPersonaToDb (persona : PersonaAny.t) : DbRow.t :=
  {| DbRow.id := PersonaAny.id persona;
     DbRow.name := PersonaAny.name persona;
     DbRow.location := PersonaAny.location persona;
     DbRow.country := PersonaAny.country persona;
     DbRow.niche := js_or (PersonaAny.niche persona) (VArr []);
     DbRow.bio := PersonaAny.bio persona;
     DbRow.avatar_url := js_or (PersonaAny.avatarUrl persona) VNull;
     DbRow.ref_images := js_or (PersonaAny.refImages persona) (VArr []) |}.

(** ** types.ts *)

Module Persona.
Record t : Type := mk {
  id : string;
  name : string;
  location : string;
  country : string;
  niche : list string;
  bio : string;
  avatarUrl : string;
  refImages : list string
}.
End Persona.

(** [title] and [description] are copied from the parsed response, which has
    type [any]. *)
Module GeneratedIdea.
Record t : Type := mk {
  id : string;
  personaId : string;
  title : Value;
  description : Value;
  selected : bool
}.
End GeneratedIdea.

Module RefinementRequirement.
Record t : Type := mk {
  id : string;
  question : Value;
  suggestion : Value;
  userResponse : Value;
  referenceImage : option string
}.
End RefinementRequirement.

Module GeneratedImage.
Record t : Type := mk {
  id : string;
  ideaId : string;
  imageUrl : string;
  prompt : string
}.
End GeneratedImage.

Module Step.
Inductive t : Type :=
| dashboard | selection | ideation | refinement | generation | editing | captions | complete.
End Step.

Inductive Mode : Type := manual | auto.

Inductive Quality : Type := Q1K | Q2K | Q4K.

(** [captions] holds whatever [JSON.parse] returned for the caption call. *)
Record WorkflowState : Type := mkState {
  step : Step.t;
  selectedPersonaIds : list string;
  mode : option Mode;
  manualActivityInput : string;
  generatedIdeas : gmap string (list GeneratedIdea.t);
  selectedIdeaIds : gmap string string;
  refinementData : gmap string (list RefinementRequirement.t);
  generatedImages : gmap string (list GeneratedImage.t);
  captions : gmap string Value
}.

#[export] Instance Step_eq_dec : EqDecision Step.t.
Proof. solve_decision. Defined.

#[export] Instance Mode_eq_dec : EqDecision Mode.
Proof. solve_decision. Defined.

(** ** The generation capability: requests and responses *)

Inductive Part : Type :=
| PText (text : string)
| PInline (mimeType data : string).

Inductive Contents : Type :=
| CString (prompt : string)
| CParts (parts : list Part).

Inductive Schema : Type :=
| TString (description : option string)
| TArray (items : Schema)
| TObject (properties : list (string * Schema)) (required : list string).

Inductive Tool : Type := googleSearch.

Record ImageConfig : Type := mkImageConfig {
  imageSize : option Quality;
  aspectRatio : string
}.

Record Config : Type := mkConfig {
  responseMimeType : option string;
  responseSchema : option Schema;
  systemInstruction : option string;
  tools : list Tool;
  imageConfig : option ImageConfig
}.

Record Request : Type := mkRequest {
  model : string;
  contents : Contents;
  config : Config
}.

(** A part of the first candidate: [inlineData] is [None] for a part without
    image content, and [Some d] for one with it, [d] being its [data] field
    ([None] when the field is missing). *)
Record ResponsePart : Type := mkResponsePart {
  inlineData : option (option string)
}.

(** [text] is [response.text] ([None] for undefined); [candidateParts] is
    [response.candidates?.[0]?.content?.parts || []]. *)
Record Response : Type := mkResponse {
  text : option string;
  candidateParts : list ResponsePart
}.

(** ** The environment and the world *)

Inductive Exn : Type :=
| CapabilityError
| SyntaxError
| TypeError
| Error (msg : string).

Inductive Res (A : Type) : Type :=
| Ok (a : A)
| Throw (e : Exn).
Arguments Ok {A} a.
Arguments Throw {A} e.

(** What the program reads from outside.
    - [JSON_parse s] is [None] when [JSON.parse(s)] throws a SyntaxError.
    - [Date_now n] is the value of the [n]-th read of the clock.
    - [fetch_dataUrl n url] is the data URL that [FileReader.readAsDataURL]
      yields for the blob fetched from [url] by the [n]-th fetch, [None] when
      the fetch fails.
    - [invoke n req] is the outcome of the [n]-th call to
      [ai.models.generateContent], made with request [req]: [None] when the
      promise is rejected. *)
Record Env : Type := mkEnv {
  JSON_parse : string -> option Value;
  Number_toString : float -> string;
  Date_now : nat -> Z;
  fetch_dataUrl : nat -> string -> option string;
  invoke : nat -> Request -> option Response
}.

(** What the program has done to the outside so far. *)
Record World : Type := mkWorld {
  calls : list Request;
  clock : nat;
  fetches : nat;
  console : list string
}.

Definition world0 : World :=
  {| calls := []; clock := 0; fetches := 0; console := [] |}.

Definition M (A : Type) : Type := World -> Res A * World.

Definition ret {A} (a : A) : M A := fun w => (Ok a, w).

Definition throw {A} (e : Exn) : M A := fun w => (Throw e, w).

Definition bind {A B} (m : M A) (k : A -> M B) : M B :=
  fun w => match m w with
           | (Ok a, w') => k a w'
           | (Throw e, w') => (Throw e, w')
           end.

(** [try { m } catch (e) { h e }]. *)
Definition try_catch {A} (m : M A) (h : Exn -> M A) : M A :=
  fun w => match m w with
           | (Ok a, w') => (Ok a, w')
           | (Throw e, w') => h e w'
           end.

Notation "x <- m ;; k" := (bind m (fun x => k))
  (at level 62, m at next level, right associativity).
Notation "m ;;; k" := (bind m (fun _ => k))
  (at level 62, right associativity).

(** [console.error] and [console.warn]. *)
Definition console_log (msg : string) : M unit :=
  fun w => (Ok tt, {| calls := calls w; clock := clock w; fetches := fetches w;
                      console := console w ++ [msg] |}).

(** [for (const x of l) { body }], threading the variables the body assigns. *)
Fixpoint for_of {A St} (l : list A) (body : A -> St -> M St) (s : St) : M St :=
  match l with
  | [] => ret s
  | x :: l' => s' <- body x s ;; for_of l' body s'
  end.

(** [for (let i = start; i < start + n; i++) { body }]. *)
Fixpoint for_range {St} (start n : nat) (body : nat -> St -> M St) (s : St) : M St :=
  match n with
  | O => ret s
  | S n' => s' <- body start s ;; for_range (S start) n' body s'
  end.

(** [l.map((x, i) => f x i)] for a callback with effects, left to right. *)
Fixpoint map_indexed {A B} (i : nat) (f : A -> nat -> M B) (l : list A) : M (list B) :=
  match l with
  | [] => ret []
  | x :: l' => y <- f x i ;; ys <- map_indexed (S i) f l' ;; ret (y :: ys)
  end.

(** ** Strings *)

(** The double quote, which a string literal cannot hold. *)
Definition dq : string := String (Ascii.ascii_of_nat 34) "".

(** The line feed. *)
Definition nl : string := String (Ascii.ascii_of_nat 10) "".

(** [l.join(sep)] on strings. *)
Definition join (sep : string) (l : list string) : string := String.concat sep l.

(** A template literal written over several source lines. *)
Definition lines (l : list string) : string := join nl l.

(** [s.split(c)] for a one-character separator. *)
Fixpoint split_on (c : Ascii.ascii) (s : string) : list string :=
  match s with
  | EmptyString => [""]
  | String a s' =>
      if Ascii.eqb a c then "" :: split_on c s'
      else match split_on c s' with
           | [] => [String a ""]
           | x :: xs => String a x :: xs
           end
  end.

(** [s.split(',')[1]]: [None] is undefined. *)
Definition split_comma_1 (s : string) : option string := split_on ","%char s !! 1.

(** [s.startsWith(p)]. *)
Definition startsWith (p s : string) : bool := String.prefix p s.

(** The suffix of [s] that begins at the first [c]. *)
Fixpoint from_first (c : Ascii.ascii) (s : string) : option string :=
  match s with
  | EmptyString => None
  | String a s' => if Ascii.eqb a c then Some s else from_first c s'
  end.

(** The prefix of [s] that ends at the last [c]. *)
Fixpoint upto_last (c : Ascii.ascii) (s : string) : option string :=
  match s with
  | EmptyString => None
  | String a s' =>
      match upto_last c s' with
      | Some p => Some (String a p)
      | None => if Ascii.eqb a c then Some (String a "") else None
      end
  end.

(** [text.match(/\[[\s\S]*\]/)]: the leftmost match starts at the first
    opening bracket that has a closing bracket after it, and the star, which
    is greedy and matches every character, line ends included, runs to the
    last closing bracket of the text. The result is [jsonMatch[0]]; [None] is
    no match. *)
Definition match_array (text : string) : option string :=
  match from_first "["%char text with
  | Some (String _ rest) =>
      match upto_last "]"%char rest with
      | Some p => Some (String "["%char p)
      | None => None
      end
  | _ => None
  end.

(** ** services/geminiService.ts *)

Module PartialPersona.
Record t : Type := mk {
  id : option string;
  name : option string;
  location : option string;
  country : option string;
  niche : option (list string);
  bio : option string;
  avatarUrl : option string;
  refImages : option (list string)
}.
End PartialPersona.

(** What [enhancePersonaProfile] resolves to: the parsed response, or its
    argument when the response does not parse. *)
Inductive Enhanced : Type :=
| Parsed (v : Value)
| Unchanged (currentProfile : PartialPersona.t).

(** [response.text || fallback]. *)
Definition text_or (response : Response) (fallback : string) : string :=
  match text response with
  | Some s => if nonempty s then s else fallback
  | None => fallback
  end.

(** [o || fallback] for an optional string. *)
Definition str_or (o : option string) (fallback : string) : string :=
  match o with
  | Some s => if nonempty s then s else fallback
  | None => fallback
  end.

(** An optional string in a condition. *)
Definition truthy_str (o : option string) : bool :=
  match o with
  | Some s => nonempty s
  | None => false
  end.

(** An association list read as an object. *)
Fixpoint assoc (k : string) (m : list (string * Value)) : Value :=
  match m with
  | [] => VUndefined
  | (k', v) :: m' => if String.eqb k k' then v else assoc k m'
  end.

(** [r.k] for a key [k] that no prototype defines ([title], [description],
    [question], [suggestion]): a TypeError on [null] and [undefined],
    [undefined] on the other values that are no objects. *)
Definition get_prop (r : Value) (k : string) : M Value :=
  match r with
  | VUndefined | VNull => throw TypeError
  | VObj m => ret (assoc k m)
  | _ => ret VUndefined
  end.

Definition schema_ideas : Schema :=
  TArray (TObject [("title", TString None); ("description", TString None)]
                  ["title"; "description"]).

Definition schema_requirements : Schema :=
  TArray (TObject
    [("question", TString (Some "The specific question asking for an image or detail"));
     ("suggestion", TString (Some "An AI-generated default answer"))]
    ["question"; "suggestion"]).

Definition schema_caption : Schema :=
  TObject [("caption", TString None); ("hashtags", TArray (TString None))]
          ["caption"; "hashtags"].

Definition schema_persona : Schema :=
  TObject [("name", TString None); ("location", TString None); ("country", TString None);
           ("niche", TArray (TString None)); ("bio", TString None)]
          ["name"; "location"; "country"; "niche"; "bio"].

Definition quality_string (q : Quality) : string :=
  match q with Q1K => "1K" | Q2K => "2K" | Q4K => "4K" end.

Section Service.
Context (env : Env).

(** The string a template literal puts in place of a value. *)
Fixpoint js_toString (v : Value) : string :=
  match v with
  | VUndefined => "undefined"
  | VNull => "null"
  | VBool true => "true"
  | VBool false => "false"
  | VNum x => Number_toString env x
  | VStr s => s
  | VArr l =>
      join "," (List.map (fun e => match e with
                                   | VUndefined | VNull => ""
                                   | _ => js_toString e
                                   end) l)
  | VObj _ => "[object Object]"
  end.

(** [await ai.models.generateContent(req)]. *)
Definition generateContent (req : Request) : M Response :=
  fun w =>
    let w' := {| calls := calls w ++ [req]; clock := clock w;
                 fetches := fetches w; console := console w |} in
    match invoke env (length (calls w)) req with
    | Some response => (Ok response, w')
    | None => (Throw CapabilityError, w')
    end.

(** [Date.now()]. *)
Definition now : M Z :=
  fun w => (Ok (Date_now env (clock w)),
            {| calls := calls w; clock := S (clock w);
               fetches := fetches w; console := console w |}).

(** [JSON.parse(s)]. *)
Definition parse (s : string) : M Value :=
  match JSON_parse env s with
  | Some v => ret v
  | None => throw SyntaxError
  end.

(** [raw.map(f)]: a TypeError when [raw] is no array. *)
Definition array_map {B} (raw : Value) (f : Value -> nat -> M B) : M (list B) :=
  match raw with
  | VArr l => map_indexed 0 f l
  | _ => throw TypeError
  end.

(** [None] stands for [null] and for [undefined]. *)
Definition urlToBase64 (url : string) : M (option string) :=
  fun w =>
    let w' := {| calls := calls w; clock := clock w;
                 fetches := S (fetches w); console := console w |} in
    match fetch_dataUrl env (fetches w) url with
    | Some base64String => (Ok (split_comma_1 base64String), w')
    | None => (console_log "Failed to fetch image for AI generation:" ;;; ret None) w'
    end.

(** [if (b64) parts.push({ inlineData: { mimeType, data: b64 } })]. *)
Definition push_inline (mime : string) (b64 : option string) (parts : list Part) : list Part :=
  if truthy_str b64 then parts ++ [PInline mime (default "" b64)] else parts.

Definition enhance_prompt (currentProfile : PartialPersona.t) : string :=
  lines [
    "";
    "    You are an expert Casting Director and Social Media Strategist.";
    "    ";
    "    Task: Create or refine a realistic influencer persona profile based on the provided images and any existing text.";
    "    ";
    "    INSTRUCTIONS:";
    "    1. VISUAL ANALYSIS: Analyze the uploaded images (Avatar and Reference images) to determine visual style, ethnicity, age, vibe, and likely location.";
    "    2. TEXT ANALYSIS (CRITICAL):";
    "       - Read the " +:+ dq +:+ "Current Inputs" +:+ dq +:+ " below carefully.";
    "       - If the user has typed ANYTHING (e.g., specific descriptors like " +:+ dq +:+ "gay" +:+ dq +:+ ", " +:+ dq +:+ "minimalist" +:+ dq +:+ ", " +:+ dq +:+ "goth" +:+ dq +:+ ", " +:+ dq +:+ "tech founder" +:+ dq +:+ "), YOU MUST RESPECT THIS CONTEXT.";
    "       - Use these existing keywords to shape the entire persona.";
    "       - Example: If 'Bio' mentions " +:+ dq +:+ "Gay lifestyle" +:+ dq +:+ ", ensure the generated Niche, Location, and Name align perfectly with that specific demographic and culture.";
    "       - If inputs are empty, invent suitable details based solely on the images.";
    "       ";
    "    3. GENERATION GOALS:";
    "       - Name: Realistic, matching the ethnicity/vibe/identity.";
    "       - Location: A specific City and Country. If one is provided, keep it or refine the formatting.";
    "       - Niche: List 3-5 specific niches (e.g. 'Streetwear', 'Interior Design').";
    "       - Bio: A compelling, short bio (max 2 sentences). Preserve the core meaning of any existing bio text, just make it punchier and more professional.";
    "";
    "    Current Inputs:";
    "    Name: " +:+ str_or (PartialPersona.name currentProfile) "Unknown";
    "    Location: " +:+ str_or (PartialPersona.location currentProfile) "Unknown";
    "    Niche: " +:+ str_or (join ", " <$> PartialPersona.niche currentProfile) "Unknown";
    "    Bio: " +:+ str_or (PartialPersona.bio currentProfile) "Unknown";
    "  " ].

Definition enhancePersonaProfile (currentProfile : PartialPersona.t) : M Enhanced :=
  let prompt := enhance_prompt currentProfile in
  let parts := [PText prompt] in
  parts <- (match PartialPersona.avatarUrl currentProfile with
            | Some url =>
                if nonempty url
                then b64 <- urlToBase64 url ;; ret (push_inline "image/jpeg" b64 parts)
                else ret parts
            | None => ret parts
            end) ;;
  parts <- (match PartialPersona.refImages currentProfile with
            | Some imgs =>
                for_of imgs (fun imgUrl parts =>
                  b64 <- urlToBase64 imgUrl ;; ret (push_inline "image/jpeg" b64 parts)) parts
            | None => ret parts
            end) ;;
  response <- generateContent
    {| model := "gemini-3-pro-preview";
       contents := CParts parts;
       config := {| responseMimeType := Some "application/json";
                    responseSchema := Some schema_persona;
                    systemInstruction := Some "You are a creative AI assistant. Analyze visual cues to build personas.";
                    tools := [];
                    imageConfig := None |} |} ;;
  try_catch
    (v <- parse (text_or response "{}") ;; ret (Parsed v))
    (fun e => console_log "Failed to parse persona enhancement" ;;; ret (Unchanged currentProfile)).

Definition manual_prompt (persona : Persona.t) (activity : string) (feedback : option string) : string :=
  lines [
    "";
    "    You are a creative director for an Instagram influencer.";
    "    Persona: " +:+ Persona.name persona;
    "    Location: " +:+ Persona.location persona +:+ ", " +:+ Persona.country persona;
    "    Bio: " +:+ Persona.bio persona;
    "    ";
    "    Task: Generate 3 distinct Instagram post variants for the activity: " +:+ dq +:+ activity +:+ dq +:+ ".";
    "    ";
    "    CRITICAL CONSTRAINT: Every variant MUST be explicitly bound to a specific, real-world location, street, landmark, or venue within " +:+ Persona.location persona +:+ ", " +:+ Persona.country persona +:+ ".";
    "    ";
    "    " +:+ (if truthy_str feedback
               then "Refine based on this feedback: " +:+ default "" feedback
               else "");
    "  " ].

Definition manual_request (persona : Persona.t) (activity : string) (feedback : option string) : Request :=
  {| model := "gemini-3-pro-preview";
     contents := CString (manual_prompt persona activity feedback);
     config := {| responseMimeType := Some "application/json";
                  responseSchema := Some schema_ideas;
                  systemInstruction := Some "You are an expert UGC strategist. Output valid JSON.";
                  tools := [];
                  imageConfig := None |} |}.

(** The derived id [`${parent}-${tag}-${Date.now()}-${i}`]. *)
Definition derived_id (parent tag : string) (t : Z) (i : nat) : string :=
  parent +:+ "-" +:+ tag +:+ "-" +:+ pretty t +:+ "-" +:+ pretty i.

Definition generateManualVariants (persona : Persona.t) (activity : string)
    (feedback : option string) : M (list GeneratedIdea.t) :=
  response <- generateContent (manual_request persona activity feedback) ;;
  raw <- parse (text_or response "[]") ;;
  array_map raw (fun r i =>
    t <- now ;;
    title <- get_prop r "title" ;;
    description <- get_prop r "description" ;;
    ret {| GeneratedIdea.id := derived_id (Persona.id persona) "idea" t i;
           GeneratedIdea.personaId := Persona.id persona;
           GeneratedIdea.title := title;
           GeneratedIdea.description := description;
           GeneratedIdea.selected := false |}).

Definition auto_prompt (persona : Persona.t) : string :=
  lines [
    "";
    "    Task: Find REAL-TIME Instagram trends and generate post ideas.";
    "    ";
    "    1. Use Google Search to find the latest trending topics, aesthetics, and viral challenges specifically for the niche: " +:+ dq +:+ join ", " (Persona.niche persona) +:+ dq +:+ ".";
    "    2. Based on the search results, create 3 high-engagement post ideas for: " +:+ Persona.name persona +:+ ".";
    "    3. Location context: " +:+ Persona.location persona +:+ ", " +:+ Persona.country persona +:+ ".";
    "    ";
    "    OUTPUT FORMAT:";
    "    You must return a valid JSON array. Do not include markdown formatting like ```json.";
    "    Example: [{" +:+ dq +:+ "title" +:+ dq +:+ ": " +:+ dq +:+ "..." +:+ dq +:+ ", " +:+ dq +:+ "description" +:+ dq +:+ ": " +:+ dq +:+ "..." +:+ dq +:+ "}]";
    "    ";
    "    CRITICAL: Every idea must be tied to a real location in " +:+ Persona.location persona +:+ " found via search or known geography.";
    "  " ].

Definition auto_request (persona : Persona.t) : Request :=
  {| model := "gemini-3-pro-preview";
     contents := CString (auto_prompt persona);
     config := {| responseMimeType := None;
                  responseSchema := None;
                  systemInstruction := None;
                  tools := [googleSearch];
                  imageConfig := None |} |}.

(** The [try] block of [generateAutoTrends] with its [catch]: the value of
    [raw] after it. *)
Definition extract_trends (response : Response) : M Value :=
  try_catch
    (let text := text_or response "" in
     match match_array text with
     | Some jsonMatch => parse jsonMatch
     | None =>
         console_log "Could not parse JSON from trend response, using fallback." ;;;
         ret (VArr [])
     end)
    (fun e => console_log "Failed to parse trend JSON" ;;; ret (VArr [])).

Definition generateAutoTrends (persona : Persona.t) : M (list GeneratedIdea.t) :=
  response <- generateContent (auto_request persona) ;;
  raw <- extract_trends response ;;
  array_map raw (fun r i =>
    t <- now ;;
    title <- get_prop r "title" ;;
    description <- get_prop r "description" ;;
    ret {| GeneratedIdea.id := derived_id (Persona.id persona) "trend" t i;
           GeneratedIdea.personaId := Persona.id persona;
           GeneratedIdea.title := js_or title (VStr "Trending Idea");
           GeneratedIdea.description := js_or description (VStr "Description unavailable");
           GeneratedIdea.selected := false |}).

Definition requirements_prompt (idea : GeneratedIdea.t) (persona : Persona.t) : string :=
  lines [
    "";
    "    Analyze this Instagram post idea to determine what specific visual details are needed to generate a high-quality, accurate image.";
    "    Idea: " +:+ js_toString (GeneratedIdea.title idea) +:+ " - " +:+ js_toString (GeneratedIdea.description idea);
    "    Persona: " +:+ Persona.name persona +:+ " in " +:+ Persona.location persona +:+ ".";
    "    ";
    "    Identify 2-3 missing details, specifically asking for reference images of locations mentioned or specific styling details.";
    "    For each requirement, provide a helpful suggestion/default value that the AI would make up if the user doesn't provide it.";
    "  " ].

Definition requirements_request (idea : GeneratedIdea.t) (persona : Persona.t) : Request :=
  {| model := "gemini-3-pro-preview";
     contents := CString (requirements_prompt idea persona);
     config := {| responseMimeType := Some "application/json";
                  responseSchema := Some schema_requirements;
                  systemInstruction := None;
                  tools := [];
                  imageConfig := None |} |}.

Definition analyzeIdeaRequirements (idea : GeneratedIdea.t) (persona : Persona.t)
    : M (list RefinementRequirement.t) :=
  response <- generateContent (requirements_request idea persona) ;;
  raw <- parse (text_or response "[]") ;;
  array_map raw (fun r i =>
    question <- get_prop r "question" ;;
    suggestion <- get_prop r "suggestion" ;;
    ret {| RefinementRequirement.id := GeneratedIdea.id idea +:+ "-req-" +:+ pretty i;
           RefinementRequirement.question := question;
           RefinementRequirement.suggestion := suggestion;
           RefinementRequirement.userResponse := VStr "";
           RefinementRequirement.referenceImage := None |}).

Definition image_prompt (persona : Persona.t) (idea : GeneratedIdea.t)
    (requirements : list RefinementRequirement.t) : string :=
  fold_left
    (fun fullPrompt req =>
       fullPrompt +:+ " Detail: "
         +:+ js_toString (js_or (RefinementRequirement.userResponse req)
                                (RefinementRequirement.suggestion req))
         +:+ ".")
    requirements
    (lines [
       "Photorealistic Instagram photo of " +:+ Persona.name persona +:+ ", a " +:+ Persona.bio persona +:+ ". ";
       "  Location: " +:+ Persona.location persona +:+ ", " +:+ Persona.country persona +:+ ".";
       "  Action: " +:+ js_toString (GeneratedIdea.description idea) +:+ ".";
       "  " ]).

Definition image_request (parts : list Part) (quality : Quality) : Request :=
  {| model := "gemini-3-pro-image-preview";
     contents := CParts parts;
     config := {| responseMimeType := None;
                  responseSchema := None;
                  systemInstruction := None;
                  tools := [];
                  imageConfig := Some {| imageSize := Some quality; aspectRatio := "4:5" |} |} |}.

(** The parts of an image request: the prompt, the persona's reference
    images, then the reference images of the requirements. *)
Definition image_parts (persona : Persona.t) (fullPrompt : string)
    (requirements : list RefinementRequirement.t) : M (list Part) :=
  parts <- for_of (Persona.refImages persona) (fun imgUrl parts =>
             if startsWith "http" imgUrl
             then base64 <- urlToBase64 imgUrl ;; ret (push_inline "image/jpeg" base64 parts)
             else ret (parts ++ [PInline "image/jpeg" imgUrl]))
           [PText fullPrompt] ;;
  ret (fold_left (fun parts req =>
                    push_inline "image/jpeg" (RefinementRequirement.referenceImage req) parts)
                 requirements parts).

(** The string a template literal puts in place of [part.inlineData.data]. *)
Definition data_string (data : option string) : string := default "undefined" data.

(** The inner loop of [generateUGCImages]: one image per part with image
    content. *)
Definition collect_images (idea : GeneratedIdea.t) (fullPrompt : string) (i : nat)
    (response : Response) (results : list GeneratedImage.t) : M (list GeneratedImage.t) :=
  for_of (candidateParts response) (fun part results =>
    match inlineData part with
    | Some data =>
        t <- now ;;
        ret (results ++ [ {| GeneratedImage.id := derived_id (GeneratedIdea.id idea) "img" t i;
                             GeneratedImage.ideaId := GeneratedIdea.id idea;
                             GeneratedImage.imageUrl := "data:image/png;base64," +:+ data_string data;
                             GeneratedImage.prompt := fullPrompt |} ])
    | None => ret results
    end) results.

(** In the [try] block nothing can throw once the response is there, so the
    [catch] finds [results] as the iteration found it. *)
Definition generateUGCImages (persona : Persona.t) (idea : GeneratedIdea.t)
    (requirements : list RefinementRequirement.t) (count : nat) (quality : Quality)
    : M (list GeneratedImage.t) :=
  let fullPrompt := image_prompt persona idea requirements in
  parts <- image_parts persona fullPrompt requirements ;;
  for_range 0 count (fun i results =>
    try_catch
      (response <- generateContent (image_request parts quality) ;;
       collect_images idea fullPrompt i response results)
      (fun e => console_log "Image generation error" ;;; ret results)) [].

Definition edit_request (parts : list Part) : Request :=
  {| model := "gemini-3-pro-image-preview";
     contents := CParts parts;
     config := {| responseMimeType := None;
                  responseSchema := None;
                  systemInstruction := None;
                  tools := [];
                  imageConfig := Some {| imageSize := None; aspectRatio := "4:5" |} |} |}.

(** The first part with image content: the loop of [editImageWithChat]
    returns from it. *)
Fixpoint first_inline (parts : list ResponsePart) : option (option string) :=
  match parts with
  | [] => None
  | part :: parts' =>
      match inlineData part with
      | Some data => Some data
      | None => first_inline parts'
      end
  end.

Definition editImageWithChat (image : GeneratedImage.t) (instruction : string)
    (referenceImage : option string) : M GeneratedImage.t :=
  let base64Data := split_comma_1 (GeneratedImage.imageUrl image) in
  if negb (truthy_str base64Data) then throw (Error "Invalid image data") else
  let parts := [PInline "image/png" (default "" base64Data);
                PText ("Edit this image. Instruction: " +:+ instruction)] in
  let parts := push_inline "image/png" referenceImage parts in
  response <- generateContent (edit_request parts) ;;
  match first_inline (candidateParts response) with
  | Some data =>
      ret {| GeneratedImage.id := GeneratedImage.id image;
             GeneratedImage.ideaId := GeneratedImage.ideaId image;
             GeneratedImage.imageUrl := "data:image/png;base64," +:+ data_string data;
             GeneratedImage.prompt := GeneratedImage.prompt image |}
  | None => throw (Error "No image returned from edit")
  end.

Definition caption_prompt (persona : Persona.t) (idea : GeneratedIdea.t) : string :=
  lines [
    "";
    "    Step 3: Caption Writer. Write a scroll-stopping Instagram caption for a post about: " +:+ js_toString (GeneratedIdea.title idea) +:+ " - " +:+ js_toString (GeneratedIdea.description idea) +:+ ".";
    "    Tone: Human, organic, matching persona: " +:+ Persona.name persona +:+ " (" +:+ Persona.bio persona +:+ ").";
    "    Strategy: Use curiosity, controversy, or inspiration.";
    "    ";
    "    Step 4: Hashtag Booster. Create a mix of low, mid, and high-competition tags specifically for " +:+ join ", " (Persona.niche persona) +:+ " and location " +:+ Persona.location persona +:+ ".";
    "  " ].

Definition caption_request (persona : Persona.t) (idea : GeneratedIdea.t) : Request :=
  {| model := "gemini-3-pro-preview";
     contents := CString (caption_prompt persona idea);
     config := {| responseMimeType := Some "application/json";
                  responseSchema := Some schema_caption;
                  systemInstruction := None;
                  tools := [];
                  imageConfig := None |} |}.

Definition caption_fallback : string :=
  "{" +:+ dq +:+ "caption" +:+ dq +:+ ":" +:+ dq +:+ dq +:+ ", "
      +:+ dq +:+ "hashtags" +:+ dq +:+ ":[]}".

Definition generateCaptionStrategy (persona : Persona.t) (idea : GeneratedIdea.t) : M Value :=
  response <- generateContent (caption_request persona idea) ;;
  parse (text_or response caption_fallback).

End Service.

(** ** App.tsx: the component state *)

(** The state hooks of [App] that the workflow handlers read or write. The
    transient hooks of the persona editor are left out; what the editor holds
    when a handler runs is an argument of that handler. *)
Record App : Type := mkApp {
  personas : list Persona.t;
  loading : bool;
  loadingMsg : string;
  error : option string;
  dbConnected : bool;
  state : WorkflowState;
  genCount : nat;
  genQuality : Quality;
  editInputs : gmap string string
}.

Definition initial_state : WorkflowState :=
  {| step := Step.dashboard;
     selectedPersonaIds := [];
     mode := None;
     manualActivityInput := "";
     generatedIdeas := ∅;
     selectedIdeaIds := ∅;
     refinementData := ∅;
     generatedImages := ∅;
     captions := ∅ |}.

(** [App] after the initial load has put [ps] in [personas]. *)
Definition initial_app (ps : list Persona.t) (connected : bool) : App :=
  {| personas := ps; loading := false; loadingMsg := ""; error := None;
     dbConnected := connected; state := initial_state;
     genCount := 2; genQuality := Q2K; editInputs := ∅ |}.

(** [{ ...s, field: v }]. *)
Definition set_step (v : Step.t) (s : WorkflowState) : WorkflowState :=
  mkState v (selectedPersonaIds s) (mode s) (manualActivityInput s) (generatedIdeas s)
          (selectedIdeaIds s) (refinementData s) (generatedImages s) (captions s).

Definition set_selectedPersonaIds (v : list string) (s : WorkflowState) : WorkflowState :=
  mkState (step s) v (mode s) (manualActivityInput s) (generatedIdeas s)
          (selectedIdeaIds s) (refinementData s) (generatedImages s) (captions s).

Definition set_mode (v : option Mode) (s : WorkflowState) : WorkflowState :=
  mkState (step s) (selectedPersonaIds s) v (manualActivityInput s) (generatedIdeas s)
          (selectedIdeaIds s) (refinementData s) (generatedImages s) (captions s).

Definition set_manualActivityInput (v : string) (s : WorkflowState) : WorkflowState :=
  mkState (step s) (selectedPersonaIds s) (mode s) v (generatedIdeas s)
          (selectedIdeaIds s) (refinementData s) (generatedImages s) (captions s).

Definition set_generatedIdeas (v : gmap string (list GeneratedIdea.t)) (s : WorkflowState)
    : WorkflowState :=
  mkState (step s) (selectedPersonaIds s) (mode s) (manualActivityInput s) v
          (selectedIdeaIds s) (refinementData s) (generatedImages s) (captions s).

Definition set_selectedIdeaIds (v : gmap string string) (s : WorkflowState) : WorkflowState :=
  mkState (step s) (selectedPersonaIds s) (mode s) (manualActivityInput s) (generatedIdeas s)
          v (refinementData s) (generatedImages s) (captions s).

Definition set_refinementData (v : gmap string (list RefinementRequirement.t))
    (s : WorkflowState) : WorkflowState :=
  mkState (step s) (selectedPersonaIds s) (mode s) (manualActivityInput s) (generatedIdeas s)
          (selectedIdeaIds s) v (generatedImages s) (captions s).

Definition set_generatedImages (v : gmap string (list GeneratedImage.t)) (s : WorkflowState)
    : WorkflowState :=
  mkState (step s) (selectedPersonaIds s) (mode s) (manualActivityInput s) (generatedIdeas s)
          (selectedIdeaIds s) (refinementData s) v (captions s).

Definition set_captions (v : gmap string Value) (s : WorkflowState) : WorkflowState :=
  mkState (step s) (selectedPersonaIds s) (mode s) (manualActivityInput s) (generatedIdeas s)
          (selectedIdeaIds s) (refinementData s) (generatedImages s) v.

(** The setters of the hooks. *)
Definition setPersonas (f : list Persona.t -> list Persona.t) (a : App) : App :=
  mkApp (f (personas a)) (loading a) (loadingMsg a) (error a) (dbConnected a) (state a)
        (genCount a) (genQuality a) (editInputs a).

Definition setLoading (v : bool) (a : App) : App :=
  mkApp (personas a) v (loadingMsg a) (error a) (dbConnected a) (state a)
        (genCount a) (genQuality a) (editInputs a).

Definition setLoadingMsg (v : string) (a : App) : App :=
  mkApp (personas a) (loading a) v (error a) (dbConnected a) (state a)
        (genCount a) (genQuality a) (editInputs a).

Definition setError (v : option string) (a : App) : App :=
  mkApp (personas a) (loading a) (loadingMsg a) v (dbConnected a) (state a)
        (genCount a) (genQuality a) (editInputs a).

Definition setState (f : WorkflowState -> WorkflowState) (a : App) : App :=
  mkApp (personas a) (loading a) (loadingMsg a) (error a) (dbConnected a) (f (state a))
        (genCount a) (genQuality a) (editInputs a).

Definition setGenCount (v : nat) (a : App) : App :=
  mkApp (personas a) (loading a) (loadingMsg a) (error a) (dbConnected a) (state a)
        v (genQuality a) (editInputs a).

Definition setGenQuality (v : Quality) (a : App) : App :=
  mkApp (personas a) (loading a) (loadingMsg a) (error a) (dbConnected a) (state a)
        (genCount a) v (editInputs a).

Definition setEditInputs (f : gmap string string -> gmap string string) (a : App) : App :=
  mkApp (personas a) (loading a) (loadingMsg a) (error a) (dbConnected a) (state a)
        (genCount a) (genQuality a) (f (editInputs a)).

(** [personas.find(p => p.id === pid)]. *)
Definition find_persona (pid : string) (ps : list Persona.t) : option Persona.t :=
  List.find (fun p => String.eqb (Persona.id p) pid) ps.

(** [ideas.find(i => i.id === ideaId)]. *)
Definition find_idea (ideaId : string) (ideas : list GeneratedIdea.t) : option GeneratedIdea.t :=
  List.find (fun i => String.eqb (GeneratedIdea.id i) ideaId) ideas.

(** [images.find(img => img.id === imageId)]. *)
Definition find_image (imageId : string) (images : list GeneratedImage.t)
    : option GeneratedImage.t :=
  List.find (fun img => String.eqb (GeneratedImage.id img) imageId) images.

(** A value that the code uses without a check: the first property read on
    [undefined] is a TypeError. The handlers below place it where the value is
    first used; nothing with an effect stands between the lookup in the source
    and that use. *)
Definition nonnull {A} (o : option A) : M A :=
  match o with
  | Some x => ret x
  | None => throw TypeError
  end.

(** [!ideaId] for the result of a lookup in [selectedIdeaIds]. *)
Definition selected_idea_of (s : WorkflowState) (pid : string) : option string :=
  match selectedIdeaIds s !! pid with
  | Some ideaId => if nonempty ideaId then Some ideaId else None
  | None => None
  end.

(** What the console shows for an error object. *)
Definition exn_message (e : Exn) : string :=
  match e with
  | CapabilityError => "Error: generateContent failed"
  | SyntaxError => "SyntaxError"
  | TypeError => "TypeError"
  | Error msg => "Error: " +:+ msg
  end.

(** ** App.tsx: the handlers *)

Section Handlers.
Context (env : Env).

(** [confirmed] is the answer to [window.confirm]. The call to the store that
    follows the update writes to no hook. *)
Definition handleDeletePersona (confirmed : bool) (id : string) (a : App) : App :=
  if confirmed
  then
    let a := setPersonas (List.filter (fun p => negb (String.eqb (Persona.id p) id))) a in
    setState (fun s =>
      set_selectedPersonaIds
        (List.filter (fun pid => negb (String.eqb pid id)) (selectedPersonaIds s)) s) a
  else a.

(** [editingPersona] is what the editor holds. The call to the store that
    follows the update writes to no hook. *)
Definition handleSavePersona (editingPersona : option Persona.t) (a : App) : M App :=
  match editingPersona with
  | None => ret a
  | Some editing =>
      if negb (nonempty (Persona.name editing)) then ret a else
      let isNew := negb (nonempty (Persona.id editing)) in
      id <- (if nonempty (Persona.id editing) then ret (Persona.id editing)
             else t <- now env ;; ret ("p-" +:+ pretty t)) ;;
      let personaToSave :=
        Persona.mk id (Persona.name editing) (Persona.location editing)
                   (Persona.country editing) (Persona.niche editing) (Persona.bio editing)
                   (Persona.avatarUrl editing) (Persona.refImages editing) in
      ret (setPersonas (fun prev =>
             if negb isNew
             then List.map (fun p => if String.eqb (Persona.id p) (Persona.id personaToSave)
                                     then personaToSave else p) prev
             else personaToSave :: prev) a)
  end.

Definition handleStartCreating (a : App) : App :=
  setState (set_step Step.selection) a.

Definition togglePersonaSelection (id : string) (a : App) : App :=
  setState (fun s =>
    let selected :=
      if bool_decide (id ∈ selectedPersonaIds s)
      then List.filter (fun pid => negb (String.eqb pid id)) (selectedPersonaIds s)
      else selectedPersonaIds s ++ [id] in
    set_selectedPersonaIds selected s) a.

Definition proceedToIdeation (a : App) : App :=
  if Nat.eqb (length (selectedPersonaIds (state a))) 0 then a
  else setState (set_step Step.ideation) a.

Definition generateIdeas (mode : Mode) (a : App) : M App :=
  let st := state a in
  let a := setLoading true a in
  let a := setLoadingMsg (match mode with
                          | manual => "Concepting variants..."
                          | auto => "Scanning trends..."
                          end) a in
  let a := setError None a in
  a <- try_catch
         (ideasMap <- for_of (selectedPersonaIds st) (fun pid ideasMap =>
            persona <- nonnull (find_persona pid (personas a)) ;;
            ideas <- match mode with
                     | manual => generateManualVariants env persona (manualActivityInput st) None
                     | auto => generateAutoTrends env persona
                     end ;;
            ret (<[pid := ideas]> ideasMap)) (∅ : gmap string (list GeneratedIdea.t)) ;;
          ret (setState (fun s =>
                 set_step Step.ideation (set_mode (Some mode) (set_generatedIdeas ideasMap s))) a))
         (fun err =>
            let a := setError (Some "Failed to generate ideas. Ensure API Key is set.") a in
            console_log (exn_message err) ;;; ret a) ;;
  ret (setLoading false a).

(** The handler has a [finally] and no [catch]: a failure rejects the promise
    that the click handler drops, and the runtime reports it on the console. *)
Definition regenerateIdea (pid : string) (a : App) : M App :=
  let st := state a in
  let a := setLoading true a in
  a <- try_catch
         (persona <- nonnull (find_persona pid (personas a)) ;;
          newIdeas <- match mode st with
                      | Some manual =>
                          generateManualVariants env persona (manualActivityInput st)
                            (Some "Try different angles or locations.")
                      | _ => generateAutoTrends env persona
                      end ;;
          ret (setState (fun s => set_generatedIdeas (<[pid := newIdeas]> (generatedIdeas s)) s) a))
         (fun err => console_log ("Uncaught (in promise) " +:+ exn_message err) ;;; ret a) ;;
  ret (setLoading false a).

Definition selectIdea (personaId ideaId : string) (a : App) : App :=
  setState (fun s => set_selectedIdeaIds (<[personaId := ideaId]> (selectedIdeaIds s)) s) a.

Definition proceedToRefinement (a : App) : M App :=
  let st := state a in
  let a := setLoading true a in
  let a := setLoadingMsg "Analyzing scene requirements..." a in
  let a := setError None a in
  a <- try_catch
         (refinementMap <- for_of (selectedPersonaIds st) (fun pid refinementMap =>
            match selected_idea_of st pid with
            | None => ret refinementMap
            | Some ideaId =>
                ideas <- nonnull (generatedIdeas st !! pid) ;;
                match find_idea ideaId ideas with
                | Some selectedIdea =>
                    persona <- nonnull (find_persona pid (personas a)) ;;
                    reqs <- analyzeIdeaRequirements env selectedIdea persona ;;
                    ret (<[GeneratedIdea.id selectedIdea := reqs]> refinementMap)
                | None => ret refinementMap
                end
            end) (∅ : gmap string (list RefinementRequirement.t)) ;;
          ret (setState (fun s => set_step Step.refinement (set_refinementData refinementMap s)) a))
         (fun err => ret (setError (Some "Analysis failed.") a)) ;;
  ret (setLoading false a).

(** The updater maps over [s.refinementData[ideaId]]: a TypeError when the
    idea has no entry. *)
Definition update_requirement (ideaId reqId : string)
    (f : RefinementRequirement.t -> RefinementRequirement.t) (a : App) : M App :=
  reqs <- nonnull (refinementData (state a) !! ideaId) ;;
  ret (setState (fun s =>
         set_refinementData
           (<[ideaId := List.map (fun r => if String.eqb (RefinementRequirement.id r) reqId
                                           then f r else r) reqs]> (refinementData s)) s) a).

Definition handleRefinementInput (ideaId reqId : string) (val : Value) (a : App) : M App :=
  update_requirement ideaId reqId (fun r =>
    RefinementRequirement.mk (RefinementRequirement.id r) (RefinementRequirement.question r)
      (RefinementRequirement.suggestion r) val (RefinementRequirement.referenceImage r)) a.

Definition useSuggestion (ideaId reqId : string) (a : App) : M App :=
  reqs <- nonnull (refinementData (state a) !! ideaId) ;;
  match List.find (fun r => String.eqb (RefinementRequirement.id r) reqId) reqs with
  | Some req => handleRefinementInput ideaId reqId (RefinementRequirement.suggestion req) a
  | None => ret a
  end.

(** [base64Full] is what [fileToBase64] resolved to. *)
Definition handleRefinementImage (ideaId reqId base64Full : string) (a : App) : M App :=
  let cleanBase64 := split_comma_1 base64Full in
  update_requirement ideaId reqId (fun r =>
    RefinementRequirement.mk (RefinementRequirement.id r) (RefinementRequirement.question r)
      (RefinementRequirement.suggestion r) (RefinementRequirement.userResponse r) cleanBase64) a.

Definition proceedToGeneration (a : App) : M App :=
  let st := state a in
  let a := setLoading true a in
  let a := setLoadingMsg "Generating high-fidelity visuals..." a in
  let a := setState (set_step Step.generation) a in
  a <- try_catch
         (imagesMap <- for_of (selectedPersonaIds st) (fun pid imagesMap =>
            match selected_idea_of st pid with
            | None => ret imagesMap
            | Some ideaId =>
                ideas <- nonnull (generatedIdeas st !! pid) ;;
                selectedIdea <- nonnull (find_idea ideaId ideas) ;;
                persona <- nonnull (find_persona pid (personas a)) ;;
                let reqs := default [] (refinementData st !! ideaId) in
                images <- generateUGCImages env persona selectedIdea reqs
                            (genCount a) (genQuality a) ;;
                ret (<[ideaId := images]> imagesMap)
            end) (∅ : gmap string (list GeneratedImage.t)) ;;
          ret (setState (fun s => set_step Step.editing (set_generatedImages imagesMap s)) a))
         (fun err =>
            let a := setError (Some "Image Generation Failed.") a in
            console_log (exn_message err) ;;; ret a) ;;
  ret (setLoading false a).

Definition handleEditImage (ideaId imageId : string) (a : App) : M App :=
  match editInputs a !! imageId with
  | None => ret a
  | Some input =>
      if negb (nonempty input) then ret a else
      let st := state a in
      let a := setLoading true a in
      let a := setLoadingMsg "Refining visual..." a in
      a <- try_catch
             (images <- nonnull (generatedImages st !! ideaId) ;;
              imageToEdit <- nonnull (find_image imageId images) ;;
              newImage <- editImageWithChat env imageToEdit input None ;;
              current <- nonnull (generatedImages (state a) !! ideaId) ;;
              let a := setState (fun s =>
                set_generatedImages
                  (<[ideaId := List.map (fun img =>
                                 if String.eqb (GeneratedImage.id img) imageId
                                 then newImage else img) current]> (generatedImages s)) s) a in
              ret (setEditInputs (fun prev => <[imageId := ""]> prev) a))
             (fun err => ret (setError (Some "Editing failed.") a)) ;;
      ret (setLoading false a)
  end.

(** The key of [captionsMap] is [ideaId] itself; without a selected idea the
    lookup of the idea fails before anything is written. *)
Definition proceedToCaptions (a : App) : M App :=
  let st := state a in
  let a := setLoading true a in
  let a := setLoadingMsg "Writing copy & strategy..." a in
  let a := setState (set_step Step.captions) a in
  a <- try_catch
         (captionsMap <- for_of (selectedPersonaIds st) (fun pid captionsMap =>
            ideas <- nonnull (generatedIdeas st !! pid) ;;
            ideaId <- nonnull (selectedIdeaIds st !! pid) ;;
            selectedIdea <- nonnull (find_idea ideaId ideas) ;;
            persona <- nonnull (find_persona pid (personas a)) ;;
            caption <- generateCaptionStrategy env persona selectedIdea ;;
            ret (<[ideaId := caption]> captionsMap)) (∅ : gmap string Value) ;;
          ret (setState (set_captions captionsMap) a))
         (fun err => ret (setError (Some "Caption generation failed.") a)) ;;
  ret (setLoading false a).

End Handlers.

(** ** App.tsx: what the rendered page lets the user do *)

(** One constructor per control of the page. The handlers of the persona
    editor that only write to the editor's own hooks are not events. *)
Inductive Event : Type :=
| EvSavePersona (editingPersona : option Persona.t)
| EvEnhancePersona (editingPersona : option Persona.t)
| EvDeletePersona (confirmed : bool) (id : string)
| EvStartCreating
| EvBackToDashboard
| EvTogglePersona (id : string)
| EvProceedToIdeation
| EvChooseManual
| EvLeaveManual
| EvActivityInput (v : string)
| EvGenerateIdeas (m : Mode)
| EvRegenerateIdea (pid : string)
| EvSelectIdea (pid ideaId : string)
| EvProceedToRefinement
| EvRefinementInput (ideaId reqId v : string)
| EvUseSuggestion (ideaId reqId : string)
| EvRefinementImage (ideaId reqId base64Full : string)
| EvSetGenCount (n : nat)
| EvSetGenQuality (q : Quality)
| EvProceedToGeneration
| EvEditInput (imageId v : string)
| EvEditImage (ideaId imageId : string)
| EvProceedToCaptions.

(** [state.selectedIdeaIds[pid]] used as a key: [undefined] reads as the key
    of that name. *)
Definition ui_ideaId (s : WorkflowState) (pid : string) : string :=
  default "undefined" (selectedIdeaIds s !! pid).

(** The disabled condition of the Next Step button of the ideation page. *)
Definition next_step_disabled (s : WorkflowState) : bool :=
  negb (Nat.eqb (size (selectedIdeaIds s)) (length (selectedPersonaIds s))).

(** The control of event [e] is on the page that [a] renders, and enabled. *)
Definition enabled (a : App) (e : Event) : bool :=
  let s := state a in
  match e with
  | EvSavePersona _ | EvEnhancePersona _ =>
      bool_decide (step s = Step.dashboard)
  | EvDeletePersona _ id =>
      bool_decide (step s = Step.dashboard)
      && existsb (fun p => String.eqb (Persona.id p) id) (personas a)
  | EvStartCreating =>
      bool_decide (step s = Step.dashboard) && negb (Nat.eqb (length (personas a)) 0)
  | EvBackToDashboard =>
      bool_decide (step s = Step.selection)
  | EvTogglePersona id =>
      bool_decide (step s = Step.selection)
      && existsb (fun p => String.eqb (Persona.id p) id) (personas a)
  | EvProceedToIdeation =>
      bool_decide (step s = Step.selection)
      && negb (Nat.eqb (length (selectedPersonaIds s)) 0)
  | EvChooseManual =>
      bool_decide (step s = Step.ideation) && bool_decide (mode s = None)
  | EvGenerateIdeas auto =>
      bool_decide (step s = Step.ideation) && bool_decide (mode s = None)
  | EvLeaveManual | EvActivityInput _ | EvGenerateIdeas manual =>
      bool_decide (step s = Step.ideation) && bool_decide (mode s = Some manual)
      && Nat.eqb (size (generatedIdeas s)) 0
  | EvRegenerateIdea pid =>
      bool_decide (step s = Step.ideation) && negb (Nat.eqb (size (generatedIdeas s)) 0)
      && bool_decide (pid ∈ selectedPersonaIds s)
  | EvSelectIdea pid ideaId =>
      bool_decide (step s = Step.ideation) && negb (Nat.eqb (size (generatedIdeas s)) 0)
      && bool_decide (pid ∈ selectedPersonaIds s)
      && existsb (fun idea => String.eqb (GeneratedIdea.id idea) ideaId)
                 (default [] (generatedIdeas s !! pid))
  | EvProceedToRefinement =>
      bool_decide (step s = Step.ideation) && negb (Nat.eqb (size (generatedIdeas s)) 0)
      && negb (next_step_disabled s)
  | EvRefinementInput ideaId reqId _
  | EvUseSuggestion ideaId reqId
  | EvRefinementImage ideaId reqId _ =>
      bool_decide (step s = Step.refinement)
      && existsb (fun pid => String.eqb (ui_ideaId s pid) ideaId) (selectedPersonaIds s)
      && existsb (fun req => String.eqb (RefinementRequirement.id req) reqId)
                 (default [] (refinementData s !! ideaId))
  | EvSetGenCount n =>
      bool_decide (step s = Step.refinement) && Nat.leb 1 n && Nat.leb n 5
  | EvSetGenQuality _ | EvProceedToGeneration =>
      bool_decide (step s = Step.refinement)
  | EvEditInput imageId _ =>
      bool_decide (step s = Step.editing)
      && existsb (fun pid =>
           existsb (fun img => String.eqb (GeneratedImage.id img) imageId)
                   (default [] (generatedImages s !! ui_ideaId s pid)))
         (selectedPersonaIds s)
  | EvEditImage ideaId imageId =>
      bool_decide (step s = Step.editing)
      && existsb (fun pid => String.eqb (ui_ideaId s pid) ideaId) (selectedPersonaIds s)
      && existsb (fun img => String.eqb (GeneratedImage.id img) imageId)
                 (default [] (generatedImages s !! ideaId))
      && truthy_str (editInputs a !! imageId)
  | EvProceedToCaptions =>
      bool_decide (step s = Step.editing)
  end.

Section Run.
Context (env : Env).

(** The editor's persona as the argument of [enhancePersonaProfile]. *)
Definition partial_of (p : Persona.t) : PartialPersona.t :=
  {| PartialPersona.id := Some (Persona.id p);
     PartialPersona.name := Some (Persona.name p);
     PartialPersona.location := Some (Persona.location p);
     PartialPersona.country := Some (Persona.country p);
     PartialPersona.niche := Some (Persona.niche p);
     PartialPersona.bio := Some (Persona.bio p);
     PartialPersona.avatarUrl := Some (Persona.avatarUrl p);
     PartialPersona.refImages := Some (Persona.refImages p) |}.

(** The result goes to the editor's hooks only. *)
Definition handleEnhancePersona (editingPersona : option Persona.t) (a : App) : M App :=
  match editingPersona with
  | None => ret a
  | Some editing =>
      let hasImage := nonempty (Persona.avatarUrl editing)
                      || negb (Nat.eqb (length (Persona.refImages editing)) 0) in
      if negb hasImage && negb (nonempty (Persona.bio editing))
         && negb (nonempty (Persona.name editing))
      then ret a
      else try_catch
             (enhancePersonaProfile env (partial_of editing) ;;; ret a)
             (fun e => console_log "Enhancement failed" ;;; ret a)
  end.

Definition handle (e : Event) (a : App) : M App :=
  match e with
  | EvSavePersona editingPersona => handleSavePersona env editingPersona a
  | EvEnhancePersona editingPersona => handleEnhancePersona editingPersona a
  | EvDeletePersona confirmed id => ret (handleDeletePersona confirmed id a)
  | EvStartCreating => ret (handleStartCreating a)
  | EvBackToDashboard => ret (setState (set_step Step.dashboard) a)
  | EvTogglePersona id => ret (togglePersonaSelection id a)
  | EvProceedToIdeation => ret (proceedToIdeation a)
  | EvChooseManual => ret (setState (set_mode (Some manual)) a)
  | EvLeaveManual => ret (setState (set_mode None) a)
  | EvActivityInput v => ret (setState (set_manualActivityInput v) a)
  | EvGenerateIdeas m => generateIdeas env m a
  | EvRegenerateIdea pid => regenerateIdea env pid a
  | EvSelectIdea pid ideaId => ret (selectIdea pid ideaId a)
  | EvProceedToRefinement => proceedToRefinement env a
  | EvRefinementInput ideaId reqId v => handleRefinementInput ideaId reqId (VStr v) a
  | EvUseSuggestion ideaId reqId => useSuggestion ideaId reqId a
  | EvRefinementImage ideaId reqId base64Full => handleRefinementImage ideaId reqId base64Full a
  | EvSetGenCount n => ret (setGenCount n a)
  | EvSetGenQuality q => ret (setGenQuality q a)
  | EvProceedToGeneration => proceedToGeneration env a
  | EvEditInput imageId v => ret (setEditInputs (fun prev => <[imageId := v]> prev) a)
  | EvEditImage ideaId imageId => handleEditImage env ideaId imageId a
  | EvProceedToCaptions => proceedToCaptions env a
  end.

(** A session: the events in order, each on the page of its moment. [None]
    when an event is not on the page, or when its handler throws while React
    applies it, which unmounts the component. *)
Fixpoint run (es : list Event) (a : App) (w : World) : option (App * World) :=
  match es with
  | [] => Some (a, w)
  | e :: es' =>
      if enabled a e
      then match handle e a w with
           | (Ok a', w') => run es' a' w'
           | (Throw _, _) => None
           end
      else None
  end.

End Run.

(** [a] is what some session reaches from the initial load. *)
Definition reachable (env : Env) (a : App) : Prop :=
  exists ps connected es w, run env es (initial_app ps connected) world0 = Some (a, w).

(** ** A runtime to run the program on concrete responses *)

(** A parser for a fragment of JSON: white space, the three literals,
    strings with the two-character escapes, integers below 2^53, arrays and
    objects. On a text of the fragment it returns what [JSON.parse] returns,
    and [None] where [JSON.parse] throws. A text with a [\u] escape, a
    fraction, an exponent or a larger integer is outside the fragment, and
    none occurs below. *)
Module JsonFragment.

Definition is_ws (c : ascii) : bool :=
  (Ascii.eqb c " " || Ascii.eqb c (ascii_of_nat 9)
   || Ascii.eqb c (ascii_of_nat 10) || Ascii.eqb c (ascii_of_nat 13))%char.

Fixpoint skip_ws (s : string) : string :=
  match s with
  | String c s' => if is_ws c then skip_ws s' else s
  | EmptyString => EmptyString
  end.

Definition unescape (c : ascii) : option ascii :=
  if Ascii.eqb c (ascii_of_nat 34) then Some (ascii_of_nat 34)
  else if Ascii.eqb c "\"%char then Some "\"%char
  else if Ascii.eqb c "/"%char then Some "/"%char
  else if Ascii.eqb c "b"%char then Some (ascii_of_nat 8)
  else if Ascii.eqb c "f"%char then Some (ascii_of_nat 12)
  else if Ascii.eqb c "n"%char then Some (ascii_of_nat 10)
  else if Ascii.eqb c "r"%char then Some (ascii_of_nat 13)
  else if Ascii.eqb c "t"%char then Some (ascii_of_nat 9)
  else None.

(** The characters after an opening quote: the string and what follows its
    closing quote. *)
Fixpoint string_body (s : string) : option (string * string) :=
  match s with
  | EmptyString => None
  | String c s' =>
      if Ascii.eqb c (ascii_of_nat 34) then Some (EmptyString, s')
      else if Ascii.eqb c "\"%char then
        match s' with
        | String e s'' =>
            match unescape e, string_body s'' with
            | Some ch, Some (body, rest) => Some (String ch body, rest)
            | _, _ => None
            end
        | EmptyString => None
        end
      else if Nat.ltb (nat_of_ascii c) 32 then None
      else match string_body s' with
           | Some (body, rest) => Some (String c body, rest)
           | None => None
           end
  end.

Definition digit (c : ascii) : option Z :=
  let n := nat_of_ascii c in
  if Nat.leb 48 n && Nat.leb n 57 then Some (Z.of_nat (n - 48)) else None.

(** The digits at the head of [s]: their value, their number, the rest. *)
Fixpoint digits (acc : Z) (count : nat) (s : string) : Z * nat * string :=
  match s with
  | String c s' =>
      match digit c with
      | Some d => digits (10 * acc + d) (S count) s'
      | None => (acc, count, s)
      end
  | EmptyString => (acc, count, s)
  end.

Definition starts_with_char (c : ascii) (s : string) : bool :=
  match s with
  | String c' _ => Ascii.eqb c c'
  | EmptyString => false
  end.

(** An integer literal: no leading zero, nothing of a fraction or an
    exponent after it. *)
Definition integer (negative : bool) (s : string) : option (Value * string) :=
  let '(n, count, rest) := digits 0 0 s in
  if Nat.eqb count 0 then None
  else if starts_with_char "0"%char s && negb (Nat.eqb count 1) then None
  else if starts_with_char "."%char rest || starts_with_char "e"%char rest
          || starts_with_char "E"%char rest then None
  else if negb (Z.ltb n (2 ^ 53)) then None
  else
    let x := PrimFloat.of_uint63 (Uint63.of_Z n) in
    Some (VNum (if negative then PrimFloat.opp x else x), rest).

(** [s] begins with [lit]: what follows it. *)
Fixpoint expect (lit s : string) : option string :=
  match lit, s with
  | EmptyString, _ => Some s
  | String c lit', String c' s' => if Ascii.eqb c c' then expect lit' s' else None
  | String _ _, EmptyString => None
  end.

(** A later member of the same name takes the place of the earlier one. *)
Fixpoint put_member (k : string) (v : Value) (m : list (string * Value))
    : list (string * Value) :=
  match m with
  | [] => [(k, v)]
  | (k', v') :: m' => if String.eqb k k' then (k, v) :: m' else (k', v') :: put_member k v m'
  end.

Inductive Expecting : Type :=
| AValue
| Elements (acc : list Value)
| Members (acc : list (string * Value)).

(** [value fuel AValue s] reads a value at the head of [s];
    [value fuel (Elements acc) s] reads the elements of an array after its
    opening bracket or a comma, and [Members] does the same for an object. *)
Fixpoint value (fuel : nat) (what : Expecting) (s : string) : option (Value * string) :=
  match fuel with
  | O => None
  | S fuel' =>
      match what with
      | AValue =>
          match skip_ws s with
          | EmptyString => None
          | String c rest =>
              if Ascii.eqb c "n"%char then rest' ← expect "ull" rest; Some (VNull, rest')
              else if Ascii.eqb c "t"%char then rest' ← expect "rue" rest; Some (VBool true, rest')
              else if Ascii.eqb c "f"%char then rest' ← expect "alse" rest; Some (VBool false, rest')
              else if Ascii.eqb c (ascii_of_nat 34) then
                '(body, rest') ← string_body rest; Some (VStr body, rest')
              else if Ascii.eqb c "["%char then
                if starts_with_char "]"%char (skip_ws rest)
                then rest' ← expect "]" (skip_ws rest); Some (VArr [], rest')
                else value fuel' (Elements []) rest
              else if Ascii.eqb c "{"%char then
                if starts_with_char "}"%char (skip_ws rest)
                then rest' ← expect "}" (skip_ws rest); Some (VObj [], rest')
                else value fuel' (Members []) rest
              else if Ascii.eqb c "-"%char then integer true rest
              else integer false (String c rest)
          end
      | Elements acc =>
          '(v, rest) ← value fuel' AValue s;
          match skip_ws rest with
          | String c rest' =>
              if Ascii.eqb c ","%char then value fuel' (Elements (acc ++ [v])) rest'
              else if Ascii.eqb c "]"%char then Some (VArr (acc ++ [v]), rest')
              else None
          | EmptyString => None
          end
      | Members acc =>
          match skip_ws s with
          | String c rest =>
              if Ascii.eqb c (ascii_of_nat 34) then
                '(k, rest) ← string_body rest;
                rest ← expect ":" (skip_ws rest);
                '(v, rest) ← value fuel' AValue rest;
                match skip_ws rest with
                | String c rest' =>
                    if Ascii.eqb c ","%char then value fuel' (Members (put_member k v acc)) rest'
                    else if Ascii.eqb c "}"%char then Some (VObj (put_member k v acc), rest')
                    else None
                | EmptyString => None
                end
              else None
          | EmptyString => None
          end
      end
  end.

Definition parse (s : string) : option Value :=
  match value (2 * String.length s + 2) AValue s with
  | Some (v, rest) =>
      match skip_ws rest with
      | EmptyString => Some v
      | String _ _ => None
      end
  | None => None
  end.

(** [Number::toString] on the integers of the fragment. *)
Definition number_toString (x : float) : string :=
  match Prim2SF x with
  | S754_zero _ => "0"
  | S754_infinity false => "Infinity"
  | S754_infinity true => "-Infinity"
  | S754_nan => "NaN"
  | S754_finite negative m e =>
      let n := match e with
               | Z0 => Zpos m
               | Zpos k => (Zpos m * 2 ^ Zpos k)%Z
               | Zneg k => (Zpos m / 2 ^ Zpos k)%Z
               end in
      pretty (if negative then (- n)%Z else n)
  end.

End JsonFragment.

(** ** The storage round trip *)

(** A persona mapped to its row and back. *)
Definition persona_round_trip (p : PersonaAny.t) : PersonaAny.t :=
  mapPersonaFromDb (mapPersonaToDb p).

(** A persona of [types.ts] as the argument of [mapPersonaToDb]. *)
Definition persona_to_any (p : Persona.t) : PersonaAny.t :=
  {| PersonaAny.id := VStr (Persona.id p);
     PersonaAny.name := VStr (Persona.name p);
     PersonaAny.location := VStr (Persona.location p);
     PersonaAny.country := VStr (Persona.country p);
     PersonaAny.niche := VArr (VStr <$> Persona.niche p);
     PersonaAny.bio := VStr (Persona.bio p);
     PersonaAny.avatarUrl := VStr (Persona.avatarUrl p);
     PersonaAny.refImages := VArr (VStr <$> Persona.refImages p) |}.

(** The persona that [handleCreatePersona] opens the editor with, once named
    and saved: no avatar was uploaded. *)
Definition persona_without_avatar : Persona.t :=
  {| Persona.id := "p-1700000000000";
     Persona.name := "Ana";
     Persona.location := "";
     Persona.country := "";
     Persona.niche := [];
     Persona.bio := "";
     Persona.avatarUrl := "";
     Persona.refImages := [] |}.

(** ** What a request asks for *)

(** The request declares a response schema. *)
Definition declares_schema (req : Request) : bool :=
  match responseSchema (config req) with
  | Some _ => true
  | None => false
  end.

(** The request enables the search tool. *)
Definition enables_search (req : Request) : bool :=
  existsb (fun t => match t with googleSearch => true end) (tools (config req)).

(** At most one of the two is present. *)
Definition schema_xor_search (req : Request) : bool :=
  negb (declares_schema req && enables_search req).

(** Every request that the computation [m] sends satisfies [P], whatever the
    outcome of [m]: the calls of the world after [m] are those before it,
    followed by requests that satisfy [P]. *)
Definition sends {A} (P : Request -> Prop) (m : M A) : Prop :=
  forall w, exists new, calls (snd (m w)) = calls w ++ new /\ Forall P new.

(** The exported functions of the service, each with its arguments. *)
Inductive ServiceCall : Type :=
| CallEnhancePersonaProfile (currentProfile : PartialPersona.t)
| CallGenerateManualVariants (persona : Persona.t) (activity : string) (feedback : option string)
| CallGenerateAutoTrends (persona : Persona.t)
| CallAnalyzeIdeaRequirements (idea : GeneratedIdea.t) (persona : Persona.t)
| CallGenerateUGCImages (persona : Persona.t) (idea : GeneratedIdea.t)
    (requirements : list RefinementRequirement.t) (count : nat) (quality : Quality)
| CallEditImageWithChat (image : GeneratedImage.t) (instruction : string)
    (referenceImage : option string)
| CallGenerateCaptionStrategy (persona : Persona.t) (idea : GeneratedIdea.t).

(** The service call as a computation, its result dropped. *)
Definition perform (env : Env) (c : ServiceCall) : M unit :=
  match c with
  | CallEnhancePersonaProfile p => enhancePersonaProfile env p ;;; ret tt
  | CallGenerateManualVariants p act fb => generateManualVariants env p act fb ;;; ret tt
  | CallGenerateAutoTrends p => generateAutoTrends env p ;;; ret tt
  | CallAnalyzeIdeaRequirements i p => analyzeIdeaRequirements env i p ;;; ret tt
  | CallGenerateUGCImages p i reqs n q => generateUGCImages env p i reqs n q ;;; ret tt
  | CallEditImageWithChat img ins ref => editImageWithChat env img ins ref ;;; ret tt
  | CallGenerateCaptionStrategy p i => generateCaptionStrategy env p i ;;; ret tt
  end.

(** ** Concrete runs *)

(** The seed personas of [App.tsx]. *)
Definition SEED_PERSONAS : list Persona.t :=
  [ {| Persona.id := "p1";
       Persona.name := "Jakob";
       Persona.location := "Zagreb";
       Persona.country := "Croatia";
       Persona.niche := ["Fitness"; "Lifestyle"];
       Persona.bio := "Energetic urban runner, loves coffee and sunrises.";
       Persona.avatarUrl := "https://images.unsplash.com/photo-1500648767791-00dcc994a43e?w=400&h=400&fit=crop";
       Persona.refImages := [] |};
    {| Persona.id := "p2";
       Persona.name := "Sofia";
       Persona.location := "Dubrovnik";
       Persona.country := "Croatia";
       Persona.niche := ["Travel"; "Fashion"];
       Persona.bio := "Elegant explorer, loves old architecture and sea views.";
       Persona.avatarUrl := "https://images.unsplash.com/photo-1494790108377-be9c29b29330?w=400&h=400&fit=crop";
       Persona.refImages := [] |} ].

Definition jakob : Persona.t := default persona_without_avatar (SEED_PERSONAS !! 0).

Definition sofia : Persona.t := default persona_without_avatar (SEED_PERSONAS !! 1).

(** A runtime for concrete runs: the fragment parser, a clock that starts at
    1700000000000 and advances by a millisecond at each read, an image host
    that cannot be reached, and a capability that answers as [responses]
    says. *)
Definition runtime (responses : nat -> Request -> option Response) : Env :=
  {| JSON_parse := JsonFragment.parse;
     Number_toString := JsonFragment.number_toString;
     Date_now := fun n => (1700000000000 + Z.of_nat n)%Z;
     fetch_dataUrl := fun _ _ => None;
     invoke := responses |}.

(** A response that is text only. *)
Definition text_response (s : string) : Response :=
  {| text := Some s; candidateParts := [] |}.

(** A response with one image. *)
Definition image_response (data : string) : Response :=
  {| text := None; candidateParts := [ {| inlineData := Some (Some data) |} ] |}.

(** A string between double quotes. *)
Definition quoted (s : string) : string := dq +:+ s +:+ dq.

(** The text [[{"title": t, "description": d}]]. *)
Definition one_idea_json (t d : string) : string :=
  "[{" +:+ quoted "title" +:+ ":" +:+ quoted t +:+ ","
       +:+ quoted "description" +:+ ":" +:+ quoted d +:+ "}]".

(** An idea of Jakob, as [generateManualVariants] builds it. *)
Definition coffee_idea : GeneratedIdea.t :=
  {| GeneratedIdea.id := "p1-idea-1700000000000-0";
     GeneratedIdea.personaId := "p1";
     GeneratedIdea.title := VStr "Coffee at Dolac";
     GeneratedIdea.description := VStr "Morning espresso at the Dolac market";
     GeneratedIdea.selected := false |}.

(** A capability that answers every request with a sentence that is no
    JSON. *)
Definition apologising : Env :=
  runtime (fun _ _ => Some (text_response "Sorry, I cannot help with that.")).

(** ** Finding the array in a free text *)

(** [c] occurs in [s]. *)
Fixpoint occurs (c : ascii) (s : string) : bool :=
  match s with
  | EmptyString => false
  | String a s' => Ascii.eqb a c || occurs c s'
  end.

(** Bracket matching, as the specification words it: the prefix of [s] up to
    the bracket that closes the array, [depth] arrays being open inside
    it. *)
Fixpoint spec_close_bracket (depth : nat) (s : string) : option string :=
  match s with
  | EmptyString => None
  | String c s' =>
      if Ascii.eqb c "["%char then String c <$> spec_close_bracket (S depth) s'
      else if Ascii.eqb c "]"%char then
        match depth with
        | O => Some (String c EmptyString)
        | S depth' => String c <$> spec_close_bracket depth' s'
        end
      else String c <$> spec_close_bracket depth s'
  end.

(** The first complete array of the text by bracket matching, as the
    specification words it. *)
Definition spec_first_complete_array (text : string) : option string :=
  match from_first "["%char text with
  | Some (String _ rest) => String "["%char <$> spec_close_bracket 0 rest
  | _ => None
  end.

(** [r.k] on a value that is neither [null] nor [undefined]. *)
Definition prop_of (r : Value) (k : string) : Value :=
  match r with
  | VObj m => assoc k m
  | _ => VUndefined
  end.

(** Neither [null] nor [undefined]. *)
Definition is_nullish (r : Value) : bool :=
  match r with
  | VUndefined | VNull => true
  | _ => false
  end.

(** The world after [n] more reads of the clock. *)
Definition tick (n : nat) (w : World) : World :=
  {| calls := calls w; clock := clock w + n; fetches := fetches w; console := console w |}.

(** The idea that [generateAutoTrends] makes of the element [r] at index [i],
    the clock reading [t]. *)
Definition trend_idea (persona : Persona.t) (i : nat) (t : Z) (r : Value) : GeneratedIdea.t :=
  {| GeneratedIdea.id := derived_id (Persona.id persona) "trend" t i;
     GeneratedIdea.personaId := Persona.id persona;
     GeneratedIdea.title := js_or (prop_of r "title") (VStr "Trending Idea");
     GeneratedIdea.description := js_or (prop_of r "description") (VStr "Description unavailable");
     GeneratedIdea.selected := false |}.

(** The idea that [generateManualVariants] makes of the element [r] at index
    [i], the clock reading [t]. *)
Definition manual_idea (persona : Persona.t) (i : nat) (t : Z) (r : Value) : GeneratedIdea.t :=
  {| GeneratedIdea.id := derived_id (Persona.id persona) "idea" t i;
     GeneratedIdea.personaId := Persona.id persona;
     GeneratedIdea.title := prop_of r "title";
     GeneratedIdea.description := prop_of r "description";
     GeneratedIdea.selected := false |}.

(** A response of the search call as it comes: the array, then the list of
    sources. *)
Definition trends_with_sources : string :=
  one_idea_json "Sunrise run" "A run along the Sava at dawn" +:+ " Sources: [1]".

Definition answering (s : string) : Env :=
  runtime (fun _ _ => Some (text_response s)).

(** The callback of [raw.map] in the two functions that generate ideas: a
    read of the clock for the id, then the two properties. *)
Definition idea_callback (env : Env) {B} (k1 k2 : string)
    (build : nat -> Z -> Value -> Value -> B) : Value -> nat -> M B :=
  fun r i =>
    t <- now env ;;
    a <- get_prop r k1 ;;
    b <- get_prop r k2 ;;
    ret (build i t a b).

(** A search answer in prose around the array. *)
Definition trends_in_prose : string :=
  "Here are the trends: " +:+ one_idea_json "Sunrise run" "A run along the Sava at dawn".

(** ** What a run of [generateIdeas] leaves *)




(** The array that the response stands for: the parsed text for a call with
    a schema; for the search call the parsed span, or the empty array when
    there is no span or it does not parse. [None] when the function throws
    instead. *)
Definition response_array (env : Env) (m : Mode) (response : Response) : option (list Value) :=
  match m with
  | manual =>
      match JSON_parse env (text_or response "[]") with
      | Some (VArr l) => Some l
      | _ => None
      end
  | auto =>
      match match_array (text_or response "") with
      | None => Some []
      | Some span =>
          match JSON_parse env span with
          | None => Some []
          | Some (VArr l) => Some l
          | Some _ => None
          end
      end
  end.

(** The value of a computation that returned. *)
Definition returned {A} (r : Res A * World) : option A :=
  match fst r with
  | Ok a => Some a
  | Throw _ => None
  end.

(** The loops of the handlers collect into a dictionary: [o] is what an
    iteration found, a key with its value or nothing. *)
Definition collect {V} (o : option (string * V)) (m : gmap string V) : gmap string V :=
  match o with
  | Some (k, v) => <[k := v]> m
  | None => m
  end.

(** The text of an array of ideas. *)
Definition ideas_json (l : list (string * string)) : string :=
  "[" +:+ join "," (List.map (fun '(t, d) =>
             "{" +:+ quoted "title" +:+ ":" +:+ quoted t +:+ ","
                 +:+ quoted "description" +:+ ":" +:+ quoted d +:+ "}") l) +:+ "]".


Definition three_coffee_ideas : string :=
  ideas_json [("Espresso at Dolac", "Jakob sips an espresso at the Dolac market");
              ("Tkalciceva terrace", "A cappuccino on a terrace of Tkalciceva street");
              ("Jarun sunrise", "Coffee to go by lake Jarun at sunrise")].


(** What an iteration of the loop of [generateIdeas] finds for [pid]. *)
Definition ideas_found (env : Env) (m : Mode) (a : App) (pid : string)
    : M (option (string * list GeneratedIdea.t)) :=
  persona <- nonnull (find_persona pid (personas a)) ;;
  ideas <- match m with
           | manual => generateManualVariants env persona (manualActivityInput (state a)) None
           | auto => generateAutoTrends env persona
           end ;;
  ret (Some (pid, ideas)).

(** The scenario of the specification, the capability answering with three
    ideas. *)
Definition coffee_env : Env := answering three_coffee_ideas.




(** ** Calls that the capability rejects *)

(** From the [n0]-th call on, no call recorded in [w] was rejected. *)
Definition accepted_from (env : Env) (n0 : nat) (w : World) : Prop :=
  forall n req, n0 <= n -> calls w !! n = Some req -> is_Some (invoke env n req).

(** A computation that returns only if the capability accepted every call
    it made. *)
Definition accepting (env : Env) {A} (m : M A) : Prop :=
  forall w n0 a w',
    accepted_from env n0 w -> m w = (Ok a, w') ->
    accepted_from env n0 w' /\ length (calls w) <= length (calls w').

(** Two personas selected, in manual mode. *)
Definition two_personas_app : App :=
  setState (fun s => set_manualActivityInput "drinking coffee"
                       (set_mode (Some manual)
                          (set_step Step.ideation (set_selectedPersonaIds ["p1"; "p2"] s))))
           (initial_app SEED_PERSONAS true).

(** A capability that answers the first call and rejects the others. *)
Definition first_call_only : Env :=
  runtime (fun n _ => if Nat.eqb n 0 then Some (text_response three_coffee_ideas) else None).

(** ** Editing an image *)

(** The parts that [editImageWithChat] sends for [image], [base64Data] being
    the content of its data URL. *)
Definition edit_parts (base64Data instruction : string) (referenceImage : option string)
    : list Part :=
  push_inline "image/png" referenceImage
    [PInline "image/png" base64Data; PText ("Edit this image. Instruction: " +:+ instruction)].

(** [{ ...image, imageUrl: `data:image/png;base64,${data}` }]. *)
Definition edited (image : GeneratedImage.t) (data : option string) : GeneratedImage.t :=
  {| GeneratedImage.id := GeneratedImage.id image;
     GeneratedImage.ideaId := GeneratedImage.ideaId image;
     GeneratedImage.imageUrl := "data:image/png;base64," +:+ data_string data;
     GeneratedImage.prompt := GeneratedImage.prompt image |}.

(** The scenario of the specification: the image [idea1-img-123-0]. *)
Definition image_123 : GeneratedImage.t :=
  {| GeneratedImage.id := "idea1-img-123-0";
     GeneratedImage.ideaId := "idea1";
     GeneratedImage.imageUrl := "data:image/png;base64,AAAA";
     GeneratedImage.prompt := "Photorealistic Instagram photo of Jakob" |}.

Definition editing_app : App :=
  setEditInputs (fun _ => {[ "idea1-img-123-0" := "make it sunnier" ]})
    (setState (fun s => set_generatedImages {[ "idea1" := [image_123] ]}
                          (set_step Step.editing s))
              (initial_app SEED_PERSONAS true)).

(** A capability that answers every request with the image [BBBB]. *)
Definition painting : Env := runtime (fun _ _ => Some (image_response "BBBB")).

(** ** Generating the images *)

(** Every selected persona with a selected idea has that idea among its
    generated ideas, and is among the personas. *)
Definition ready_for_generation (a : App) : Prop :=
  forall pid ideaId,
    pid ∈ selectedPersonaIds (state a) ->
    selected_idea_of (state a) pid = Some ideaId ->
    exists ideas idea persona,
      generatedIdeas (state a) !! pid = Some ideas
      /\ find_idea ideaId ideas = Some idea
      /\ find_persona pid (personas a) = Some persona.

(** The outcome of the [n]-th call holds no image, whatever the request: the
    call is rejected, or its response has no part with image content. *)
Definition no_image_at (env : Env) (n : nat) : Prop :=
  forall req, match invoke env n req with
              | Some response => first_inline (candidateParts response) = None
              | None => True
              end.

(** The [n]-th call is rejected, whatever the request. *)
Definition rejected_at (env : Env) (n : nat) : Prop :=
  forall req, invoke env n req = None.

(** The [n]-th call returns image content, whatever the request. *)
Definition image_at (env : Env) (n : nat) : Prop :=
  forall req, exists response,
    invoke env n req = Some response /\ is_Some (first_inline (candidateParts response)).

(** What an iteration of the loop of [proceedToGeneration] finds for
    [pid]. *)
Definition images_found (env : Env) (a : App) (pid : string)
    : M (option (string * list GeneratedImage.t)) :=
  match selected_idea_of (state a) pid with
  | None => ret None
  | Some ideaId =>
      ideas <- nonnull (generatedIdeas (state a) !! pid) ;;
      selectedIdea <- nonnull (find_idea ideaId ideas) ;;
      persona <- nonnull (find_persona pid (personas a)) ;;
      images <- generateUGCImages env persona selectedIdea
                  (default [] (refinementData (state a) !! ideaId))
                  (genCount a) (genQuality a) ;;
      ret (Some (ideaId, images))
  end.

(** The scenario of the specification: three personas, each with a selected
    idea, two images asked for each. *)
Definition mila : Persona.t :=
  {| Persona.id := "p3";
     Persona.name := "Mila";
     Persona.location := "Split";
     Persona.country := "Croatia";
     Persona.niche := ["Food"];
     Persona.bio := "Home cook who loves the green market.";
     Persona.avatarUrl := "";
     Persona.refImages := [] |}.

Definition idea_for (persona : Persona.t) (title : string) : GeneratedIdea.t :=
  {| GeneratedIdea.id := Persona.id persona +:+ "-idea-1700000000000-0";
     GeneratedIdea.personaId := Persona.id persona;
     GeneratedIdea.title := VStr title;
     GeneratedIdea.description := VStr title;
     GeneratedIdea.selected := false |}.

Definition three_personas_app : App :=
  setState (fun s =>
    set_step Step.refinement
      (set_selectedIdeaIds
         (<["p3" := "p3-idea-1700000000000-0"]>
            (<["p2" := "p2-idea-1700000000000-0"]>
               (<["p1" := "p1-idea-1700000000000-0"]> ∅)))
         (set_generatedIdeas
            (<["p3" := [idea_for mila "Fish market"]]>
               (<["p2" := [idea_for sofia "City walls"]]>
                  (<["p1" := [idea_for jakob "Coffee at Dolac"]]> ∅)))
            (set_mode (Some manual) (set_selectedPersonaIds ["p1"; "p2"; "p3"] s)))))
    (initial_app (SEED_PERSONAS ++ [mila]) true).

(** A capability that rejects the third and the fourth call, which are those
    of the second persona, and answers the others with an image. *)
Definition second_persona_fails : Env :=
  runtime (fun n _ => if Nat.eqb n 2 || Nat.eqb n 3 then None
                      else Some (image_response "IMG")).

(** ** The invariants of the workflow state *)

(** The step lies after [ideation]. *)
Definition past_ideation (st : Step.t) : bool :=
  match st with
  | Step.refinement | Step.generation | Step.editing | Step.captions | Step.complete => true
  | Step.dashboard | Step.selection | Step.ideation => false
  end.

(** Every selected persona has an entry in [selectedIdeaIds]. *)
Definition every_persona_has_idea (s : WorkflowState) : Prop :=
  forall pid, pid ∈ selectedPersonaIds s -> is_Some (selectedIdeaIds s !! pid).

(** The idea [k] is reachable from the selected personas: it is the selected
    idea of a selected persona, and one of the ideas generated for it. *)
Definition idea_reachable (s : WorkflowState) (k : string) : Prop :=
  exists pid ideas idea,
    pid ∈ selectedPersonaIds s
    /\ selectedIdeaIds s !! pid = Some k
    /\ generatedIdeas s !! pid = Some ideas
    /\ idea ∈ ideas
    /\ GeneratedIdea.id idea = k.

(** No orphaned entry: a key of [selectedIdeaIds] is a selected persona, and
    a key of [refinementData], of [generatedImages] or of [captions] is a
    reachable idea. *)
Definition no_orphans (s : WorkflowState) : Prop :=
  (forall k, is_Some (selectedIdeaIds s !! k) -> k ∈ selectedPersonaIds s)
  /\ (forall k, is_Some (refinementData s !! k) -> idea_reachable s k)
  /\ (forall k, is_Some (generatedImages s !! k) -> idea_reachable s k)
  /\ (forall k, is_Some (captions s !! k) -> idea_reachable s k).

(** The dictionaries keyed by an idea are empty. *)
Definition idea_maps_empty (s : WorkflowState) : Prop :=
  refinementData s = ∅ /\ generatedImages s = ∅ /\ captions s = ∅.

(** What every session keeps. *)
Definition workflow_inv (s : WorkflowState) : Prop :=
  NoDup (selectedPersonaIds s)
  /\ no_orphans s
  /\ (step s = Step.dashboard \/ step s = Step.selection ->
      selectedIdeaIds s = ∅ /\ idea_maps_empty s)
  /\ (step s = Step.ideation -> idea_maps_empty s)
  /\ (past_ideation (step s) = true -> every_persona_has_idea s).

(** What an iteration of the loop of [proceedToRefinement] finds for
    [pid]. *)
Definition requirements_found (env : Env) (a : App) (pid : string)
    : M (option (string * list RefinementRequirement.t)) :=
  match selected_idea_of (state a) pid with
  | None => ret None
  | Some ideaId =>
      ideas <- nonnull (generatedIdeas (state a) !! pid) ;;
      match find_idea ideaId ideas with
      | Some selectedIdea =>
          persona <- nonnull (find_persona pid (personas a)) ;;
          reqs <- analyzeIdeaRequirements env selectedIdea persona ;;
          ret (Some (GeneratedIdea.id selectedIdea, reqs))
      | None => ret None
      end
  end.

(** What an iteration of the loop of [proceedToCaptions] finds for [pid]. *)
Definition caption_found (env : Env) (a : App) (pid : string) : M (option (string * Value)) :=
  ideas <- nonnull (generatedIdeas (state a) !! pid) ;;
  ideaId <- nonnull (selectedIdeaIds (state a) !! pid) ;;
  selectedIdea <- nonnull (find_idea ideaId ideas) ;;
  persona <- nonnull (find_persona pid (personas a)) ;;
  caption <- generateCaptionStrategy env persona selectedIdea ;;
  ret (Some (ideaId, caption)).

(** ** A session *)

Definition requirements_json : string :=
  "[{" +:+ quoted "question" +:+ ":" +:+ quoted "Which stall of the market?" +:+ ","
       +:+ quoted "suggestion" +:+ ":" +:+ quoted "A flower stall at Dolac" +:+ "}]".

Definition caption_json : string :=
  "{" +:+ quoted "caption" +:+ ":" +:+ quoted "Mornings at Dolac" +:+ ","
      +:+ quoted "hashtags" +:+ ":[" +:+ quoted "#zagreb" +:+ "]}".

(** A capability that answers every request as asked: ideas, requirements or
    a caption for the three schemas, trends in prose for the search call, an
    image for the rest. *)
Definition studio : Env :=
  runtime (fun _ req =>
    match responseSchema (config req) with
    | Some (TArray (TObject ((k, _) :: _) _)) =>
        if String.eqb k "title" then Some (text_response three_coffee_ideas)
        else Some (text_response requirements_json)
    | Some _ => Some (text_response caption_json)
    | None =>
        if enables_search req then Some (text_response trends_in_prose)
        else Some (image_response "IMG")
    end).

(** The state of a session and the world after it; the initial ones when
    the session is none. *)
Definition after (env : Env) (es : list Event) : App * World :=
  default (initial_app SEED_PERSONAS true, world0)
          (run env es (initial_app SEED_PERSONAS true) world0).

(** One persona, through to the refinement page. *)
Definition to_refinement : list Event :=
  [ EvStartCreating; EvTogglePersona "p1"; EvProceedToIdeation; EvChooseManual;
    EvActivityInput "drinking coffee"; EvGenerateIdeas manual;
    EvSelectIdea "p1" "p1-idea-1700000000000-0"; EvProceedToRefinement ].

(** One persona, through to the captions. *)
Definition to_captions : list Event :=
  to_refinement ++
  [ EvRefinementInput "p1-idea-1700000000000-0" "p1-idea-1700000000000-0-req-0" "the red one";
    EvSetGenCount 1; EvProceedToGeneration;
    EvEditInput "p1-idea-1700000000000-0-img-1700000000003-0" "make it sunnier";
    EvEditImage "p1-idea-1700000000000-0" "p1-idea-1700000000000-0-img-1700000000003-0";
    EvProceedToCaptions ].

(** Two personas, ideas generated for both, an idea selected for the first
    only: the Next Step button is disabled. *)
Definition half_selected : list Event :=
  [ EvStartCreating; EvTogglePersona "p1"; EvTogglePersona "p2"; EvProceedToIdeation;
    EvChooseManual; EvActivityInput "drinking coffee"; EvGenerateIdeas manual;
    EvSelectIdea "p1" "p1-idea-1700000000000-0" ].

(** The states of the sessions above. *)
Definition refinement_app : App := fst (after studio to_refinement).

Definition captions_app : App := fst (after studio to_captions).

Definition half_selected_app : App := fst (after studio half_selected).

(** What [proceedToRefinement] leaves: the step, the error hook and the
    selected idea of [pid]. *)
Definition refinement_outcome (r : Res App * World) (pid : string)
    : option (Step.t * option string * option string) :=
  (fun a' => (step (state a'), error a', selectedIdeaIds (state a') !! pid)) <$> returned r.

(** The first persona deleted while it has a selected idea. *)
Definition deleted_app : App := handleDeletePersona true "p1" half_selected_app.

(** The ideas of the first persona regenerated after the requirements of its
    selected idea were analysed. *)
Definition regenerated_app : App :=
  default refinement_app
    (returned (regenerateIdea studio "p1" refinement_app (snd (after studio to_refinement)))).

(** ** Further concrete inputs *)

(** The editor's persona when a new creator is named and saved. *)
Definition new_creator : Persona.t :=
  {| Persona.id := "";
     Persona.name := "Ana";
     Persona.location := "";
     Persona.country := "";
     Persona.niche := [];
     Persona.bio := "";
     Persona.avatarUrl := "";
     Persona.refImages := [] |}.

(** The persona that [handleSavePersona] saves for the editor's persona
    [editing] under the id [id]. *)
Definition persona_to_save (id : string) (editing : Persona.t) : Persona.t :=
  Persona.mk id (Persona.name editing) (Persona.location editing)
             (Persona.country editing) (Persona.niche editing) (Persona.bio editing)
             (Persona.avatarUrl editing) (Persona.refImages editing).

(** The requirement that [analyzeIdeaRequirements] makes of the element [r]
    at index [i]. *)
Definition requirement_of (idea : GeneratedIdea.t) (i : nat) (r : Value)
    : RefinementRequirement.t :=
  {| RefinementRequirement.id := GeneratedIdea.id idea +:+ "-req-" +:+ pretty i;
     RefinementRequirement.question := prop_of r "question";
     RefinementRequirement.suggestion := prop_of r "suggestion";
     RefinementRequirement.userResponse := VStr "";
     RefinementRequirement.referenceImage := None |}.

(** [{ ...r, userResponse: val }]. *)
Definition with_userResponse (val : Value) (r : RefinementRequirement.t)
    : RefinementRequirement.t :=
  RefinementRequirement.mk (RefinementRequirement.id r) (RefinementRequirement.question r)
    (RefinementRequirement.suggestion r) val (RefinementRequirement.referenceImage r).

(** A requirement with an answer typed in. *)
Definition stall_requirement : RefinementRequirement.t :=
  {| RefinementRequirement.id := "p1-idea-1700000000000-0-req-0";
     RefinementRequirement.question := VStr "Which stall of the market?";
     RefinementRequirement.suggestion := VStr "A flower stall at Dolac";
     RefinementRequirement.userResponse := VStr "";
     RefinementRequirement.referenceImage := None |}.

(** A part with image content in the JPEG format. *)
Definition is_jpeg (p : Part) : Prop := exists data, p = PInline "image/jpeg" data.

(** The image that [generateUGCImages] makes of a part with the content
    [data], in iteration [i], the clock reading [t]. *)
Definition image_of (idea : GeneratedIdea.t) (fullPrompt : string) (i : nat) (t : Z)
    (data : option string) : GeneratedImage.t :=
  {| GeneratedImage.id := derived_id (GeneratedIdea.id idea) "img" t i;
     GeneratedImage.ideaId := GeneratedIdea.id idea;
     GeneratedImage.imageUrl := "data:image/png;base64," +:+ data_string data;
     GeneratedImage.prompt := fullPrompt |}.

(** A persona with two reference images, one behind a URL and one stored as
    base64 data. *)
Definition persona_with_refs : Persona.t :=
  {| Persona.id := "p4";
     Persona.name := "Iva";
     Persona.location := "Rijeka";
     Persona.country := "Croatia";
     Persona.niche := ["Music"];
     Persona.bio := "Drummer";
     Persona.avatarUrl := "";
     Persona.refImages := ["https://example.org/iva.jpg"; "QUJD"] |}.

(** The requirement that [analyzeIdeaRequirements] makes of the one element
    of [requirements_json] for [coffee_idea]. *)
Definition coffee_requirement : RefinementRequirement.t :=
  {| RefinementRequirement.id := "p1-idea-1700000000000-0-req-0";
     RefinementRequirement.question := VStr "Which stall of the market?";
     RefinementRequirement.suggestion := VStr "A flower stall at Dolac";
     RefinementRequirement.userResponse := VStr "";
     RefinementRequirement.referenceImage := None |}.

(** An answer of the search call whose one idea has an empty title and no
    description. *)
Definition untitled_trend_json : string :=
  "[{" +:+ quoted "title" +:+ ":" +:+ quoted EmptyString +:+ "}]".

(** One persona, ideas generated and one of them selected: the ideation page
    with the Next Step button enabled. *)
Definition to_selected_idea : list Event :=
  [ EvStartCreating; EvTogglePersona "p1"; EvProceedToIdeation; EvChooseManual;
    EvActivityInput "drinking coffee"; EvGenerateIdeas manual;
    EvSelectIdea "p1" "p1-idea-1700000000000-0" ].

(** The idea selected in that session. *)
Definition espresso_idea : GeneratedIdea.t :=
  {| GeneratedIdea.id := "p1-idea-1700000000000-0";
     GeneratedIdea.personaId := "p1";
     GeneratedIdea.title := VStr "Espresso at Dolac";
     GeneratedIdea.description := VStr "Jakob sips an espresso at the Dolac market";
     GeneratedIdea.selected := false |}.

(** One persona, through to the editing page. *)
Definition to_editing : list Event :=
  to_refinement ++ [ EvSetGenCount 1; EvProceedToGeneration ].

(** A capability that answers as [studio] does, except that it rejects the
    request for a caption. *)
Definition no_captions : Env :=
  runtime (fun n req =>
    match responseSchema (config req) with
    | Some (TArray _) => invoke studio n req
    | Some _ => None
    | None => invoke studio n req
    end).

(** The ideas of the persona regenerated after one of them was selected,
    then on through the Next Step button and the generation. *)
Definition to_stale_selection : list Event :=
  to_selected_idea ++ [ EvRegenerateIdea "p1"; EvProceedToRefinement; EvProceedToGeneration ].

(** The position of a step in the order in which [WorkflowState] lists
    them. *)
Definition step_index (st : Step.t) : nat :=
  match st with
  | Step.dashboard => 0
  | Step.selection => 1
  | Step.ideation => 2
  | Step.refinement => 3
  | Step.generation => 4
  | Step.editing => 5
  | Step.captions => 6
  | Step.complete => 7
  end.

(** The request of [enhancePersonaProfile] with the parts [parts]. *)
Definition enhance_request (parts : list Part) : Request :=
  {| model := "gemini-3-pro-preview";
     contents := CParts parts;
     config := {| responseMimeType := Some "application/json";
                  responseSchema := Some schema_persona;
                  systemInstruction := Some "You are a creative AI assistant. Analyze visual cues to build personas.";
                  tools := [];
                  imageConfig := None |} |}.

(** ** App.tsx: the reference images of the persona editor *)

(** [{ ...editingPersona, refImages: v }]. *)
Definition set_refImages (v : list string) (p : Persona.t) : Persona.t :=
  Persona.mk (Persona.id p) (Persona.name p) (Persona.location p) (Persona.country p)
    (Persona.niche p) (Persona.bio p) (Persona.avatarUrl p) v.

(** [handleRefImageUpload] on a file that was chosen: the editor's persona
    after it. [uploaded] is the public URL that the compression and the
    upload resolved to, [None] when one of them rejected. *)
Definition handleRefImageUpload (uploaded : option string) (editingPersona : option Persona.t)
    : option Persona.t :=
  match editingPersona with
  | None => None
  | Some editing =>
      if Nat.leb 3 (length (Persona.refImages editing)) then Some editing
      else match uploaded with
           | Some publicUrl =>
               Some (set_refImages (Persona.refImages editing ++ [publicUrl]) editing)
           | None => Some editing
           end
  end.

(** [removeRefImage]: [splice(index, 1)] on a copy. *)
Definition removeRefImage (index : nat) (editingPersona : option Persona.t)
    : option Persona.t :=
  match editingPersona with
  | None => None
  | Some editing => Some (set_refImages (delete index (Persona.refImages editing)) editing)
  end.

(** A capability that answers every call with a response without text. *)
Definition speechless : Env :=
  runtime (fun _ _ => Some {| text := None; candidateParts := [] |}).

(** A runtime whose clock stands still, as within one millisecond, and whose
    capability answers every call with two images. *)
Definition within_a_millisecond : Env :=
  {| JSON_parse := JsonFragment.parse;
     Number_toString := JsonFragment.number_toString;
     Date_now := fun _ => 1700000000000%Z;
     fetch_dataUrl := fun _ _ => None;
     invoke := fun _ _ =>
       Some {| text := None;
               candidateParts := [ {| inlineData := Some (Some "AAAA") |};
                                   {| inlineData := Some (Some "BBBB") |} ] |} |}.

(** The world after the iterations of a loop over [l], when each of them
    returns: [found pid] is run for each [pid] in order, on the world that
    the one before left. [None] when one of them throws. *)
Fixpoint after_iterations {A} (found : string -> M A) (l : list string) (w : World)
    : option World :=
  match l with
  | [] => Some w
  | pid :: l' =>
      match found pid w with
      | (Ok _, w') => after_iterations found l' w'
      | (Throw _, _) => None
      end
  end.

(** A capability that answers the first call with three ideas and the
    others with a sentence that is no JSON. *)
Definition second_call_prose : Env :=
  runtime (fun n _ => if Nat.eqb n 0 then Some (text_response three_coffee_ideas)
                      else Some (text_response "Sorry, I cannot help with that.")).

(** The URLs of the images that the inner loop of [generateUGCImages] makes
    of a response: one for each part with image content, in order. *)
Definition image_urls (response : Response) : list string :=
  omap (fun part =>
          (fun data => "data:image/png;base64," +:+ data_string data) <$> inlineData part)
       (candidateParts response).

(** What the [n]-th call gives when it is made with [req]: the images of
    its response, and nothing when it is rejected. *)
Definition call_urls (env : Env) (n : nat) (req : Request) : list string :=
  match invoke env n req with
  | Some response => image_urls response
  | None => []
  end.

(** A capability that rejects the first call and answers the others with an
    image. *)
Definition first_call_fails : Env :=
  runtime (fun n _ => if Nat.eqb n 0 then None else Some (image_response "IMG")).

(** The parts that the loop of [generateUGCImages] over the persona's
    reference images adds, the fetches being numbered from [n]. An image
    stored as data goes in as it is. An image behind a URL is fetched, and
    goes in with the content after the first comma of what the fetch gave;
    when the fetch fails, or gives no such content, nothing goes in. *)
Fixpoint reference_parts (env : Env) (n : nat) (refImages : list string) : list Part :=
  match refImages with
  | [] => []
  | imgUrl :: refImages' =>
      if startsWith "http" imgUrl
      then match fetch_dataUrl env n imgUrl with
           | Some base64String =>
               match split_comma_1 base64String with
               | Some b64 => if nonempty b64 then [PInline "image/jpeg" b64] else []
               | None => []
               end
           | None => []
           end ++ reference_parts env (S n) refImages'
      else PInline "image/jpeg" imgUrl :: reference_parts env n refImages'
  end.

(** The parts that its loop over the requirements adds: the reference
    images that are there and not empty. *)
Definition requirement_parts (requirements : list RefinementRequirement.t) : list Part :=
  flat_map (fun req =>
              match RefinementRequirement.referenceImage req with
              | Some b64 => if nonempty b64 then [PInline "image/jpeg" b64] else []
              | None => []
              end) requirements.

(** * Properties *)

(** ** C9: the storage round trip *)

Lemma js_or_idem (v d : Value) : truthy d = true -> js_or (js_or v d) d = js_or v d.
Proof.
  intros Hd. unfold js_or. destruct (truthy v) eqn:Hv.
  - by rewrite Hv.
  - by rewrite Hd.
Qed.

(** C9, as the code has it. A persona mapped to its row and back keeps [id],
    [name], [location], [country] and [bio]; [niche] and [refImages] are kept
    when truthy and are the empty list otherwise, so absent ones come back
    empty; [avatarUrl] is kept when truthy and is [null] otherwise. *)
Theorem persona_round_trip_fields (p : PersonaAny.t) :
  let q := persona_round_trip p in
  PersonaAny.id q = PersonaAny.id p
  /\ PersonaAny.name q = PersonaAny.name p
  /\ PersonaAny.location q = PersonaAny.location p
  /\ PersonaAny.country q = PersonaAny.country p
  /\ PersonaAny.bio q = PersonaAny.bio p
  /\ PersonaAny.niche q = (if truthy (PersonaAny.niche p) then PersonaAny.niche p else VArr [])
  /\ PersonaAny.refImages q
     = (if truthy (PersonaAny.refImages p) then PersonaAny.refImages p else VArr [])
  /\ PersonaAny.avatarUrl q
     = (if truthy (PersonaAny.avatarUrl p) then PersonaAny.avatarUrl p else VNull).
Proof.
  destruct p as [i n l c ni b av rf]. cbn.
  repeat split; try reflexivity.
  - by rewrite js_or_idem.
  - by rewrite js_or_idem.
Qed.

(** C9 as stated fails on [avatarUrl]: a persona saved without an avatar
    holds the empty string there, and comes back with [null]. *)
Lemma persona_round_trip_loses_empty_avatar :
  PersonaAny.avatarUrl (persona_to_any persona_without_avatar) = VStr ""
  /\ PersonaAny.avatarUrl (persona_round_trip (persona_to_any persona_without_avatar)) = VNull
  /\ persona_round_trip (persona_to_any persona_without_avatar)
     <> persona_to_any persona_without_avatar.
Proof. repeat split; discriminate. Qed.

(** ** The computations: inversion and loop lemmas *)

Section Computations.
Context {A B : Type}.

Lemma bind_ok (m : M A) (k : A -> M B) (w w' : World) (b : B) :
  bind m k w = (Ok b, w') ->
  exists a w1, m w = (Ok a, w1) /\ k a w1 = (Ok b, w').
Proof.
  unfold bind. destruct (m w) as [[a|e] w1]; intros H.
  - eauto.
  - discriminate.
Qed.

Lemma bind_throw (m : M A) (k : A -> M B) (w w' : World) (e : Exn) :
  bind m k w = (Throw e, w') ->
  m w = (Throw e, w') \/ exists a w1, m w = (Ok a, w1) /\ k a w1 = (Throw e, w').
Proof.
  unfold bind. destruct (m w) as [[a|e1] w1]; intros H.
  - right. eauto.
  - left. congruence.
Qed.

Lemma bind_of_ok (m : M A) (k : A -> M B) (w w1 : World) (a : A) :
  m w = (Ok a, w1) -> bind m k w = k a w1.
Proof. unfold bind. by intros ->. Qed.

Lemma bind_of_throw (m : M A) (k : A -> M B) (w w1 : World) (e : Exn) :
  m w = (Throw e, w1) -> bind m k w = (Throw e, w1).
Proof. unfold bind. by intros ->. Qed.

End Computations.

Lemma nonnull_ok {A} (o : option A) (w w' : World) (a : A) :
  nonnull o w = (Ok a, w') -> o = Some a /\ w' = w.
Proof. destruct o; unfold nonnull, ret, throw; intros H; by simplify_eq. Qed.

(** A loop keeps what each of its iterations keeps, as long as it runs. *)
Lemma for_of_ok_ind {A St} (I : St -> World -> Prop) (l : list A) (body : A -> St -> M St) :
  (forall x s w s' w', x ∈ l -> I s w -> body x s w = (Ok s', w') -> I s' w') ->
  forall s w s' w', I s w -> for_of l body s w = (Ok s', w') -> I s' w'.
Proof.
  induction l as [|x l IH]; intros Hbody s w s' w' HI Hrun; cbn in Hrun.
  - unfold ret in Hrun. by simplify_eq.
  - apply bind_ok in Hrun as (s1 & w1 & H1 & H2).
    eapply IH; [| |exact H2].
    + intros. eapply Hbody; eauto. by right.
    + eapply Hbody; eauto. by left.
Qed.

(** ** C10: a response schema and the search tool never go together *)

Section Sends.
Context (P : Request -> Prop).

Lemma sends_ret {A} (a : A) : sends P (ret a).
Proof. intros w. exists []. cbn. by rewrite app_nil_r. Qed.

Lemma sends_throw {A} (e : Exn) : sends P (@throw A e).
Proof. intros w. exists []. cbn. by rewrite app_nil_r. Qed.

Lemma sends_bind {A B} (m : M A) (k : A -> M B) :
  sends P m -> (forall a, sends P (k a)) -> sends P (bind m k).
Proof.
  intros Hm Hk w. destruct (Hm w) as (new1 & E1 & F1).
  unfold bind. destruct (m w) as [[a|e] w1]; cbn in *.
  - destruct (Hk a w1) as (new2 & E2 & F2).
    exists (new1 ++ new2). rewrite E2, E1, app_assoc. split; [done|].
    by apply Forall_app.
  - eauto.
Qed.

Lemma sends_try_catch {A} (m : M A) (h : Exn -> M A) :
  sends P m -> (forall e, sends P (h e)) -> sends P (try_catch m h).
Proof.
  intros Hm Hh w. destruct (Hm w) as (new1 & E1 & F1).
  unfold try_catch. destruct (m w) as [[a|e] w1]; cbn in *.
  - eauto.
  - destruct (Hh e w1) as (new2 & E2 & F2).
    exists (new1 ++ new2). rewrite E2, E1, app_assoc. split; [done|].
    by apply Forall_app.
Qed.

Lemma sends_for_of {A St} (l : list A) (body : A -> St -> M St) (s : St) :
  (forall x s, sends P (body x s)) -> sends P (for_of l body s).
Proof.
  intros Hbody. revert s. induction l as [|x l IH]; intros s; cbn.
  - apply sends_ret.
  - apply sends_bind; [apply Hbody | apply IH].
Qed.

Lemma sends_for_range {St} (start n : nat) (body : nat -> St -> M St) (s : St) :
  (forall i s, sends P (body i s)) -> sends P (for_range start n body s).
Proof.
  intros Hbody. revert start s. induction n as [|n IH]; intros start s; cbn.
  - apply sends_ret.
  - apply sends_bind; [apply Hbody | intros; apply IH].
Qed.

Lemma sends_map_indexed {A B} (i : nat) (f : A -> nat -> M B) (l : list A) :
  (forall x i, sends P (f x i)) -> sends P (map_indexed i f l).
Proof.
  intros Hf. revert i. induction l as [|x l IH]; intros i; cbn.
  - apply sends_ret.
  - apply sends_bind; [apply Hf |]. intros y.
    apply sends_bind; [apply IH |]. intros ys. apply sends_ret.
Qed.

Lemma sends_console_log (msg : string) : sends P (console_log msg).
Proof. intros w. exists []. cbn. by rewrite app_nil_r. Qed.

Lemma sends_nonnull {A} (o : option A) : sends P (nonnull o).
Proof. destruct o; [apply sends_ret | apply sends_throw]. Qed.

Lemma sends_get_prop (r : Value) (k : string) : sends P (get_prop r k).
Proof. destruct r; first [apply sends_ret | apply sends_throw]. Qed.

Context (env : Env).

Lemma sends_now : sends P (now env).
Proof. intros w. exists []. cbn. by rewrite app_nil_r. Qed.

Lemma sends_parse (s : string) : sends P (parse env s).
Proof. unfold parse. destruct (JSON_parse env s); [apply sends_ret | apply sends_throw]. Qed.

Lemma sends_urlToBase64 (url : string) : sends P (urlToBase64 env url).
Proof.
  intros w. exists []. unfold urlToBase64.
  destruct (fetch_dataUrl env (fetches w) url); cbn; by rewrite app_nil_r.
Qed.

Lemma sends_generateContent (req : Request) : P req -> sends P (generateContent env req).
Proof.
  intros HP w. exists [req]. unfold generateContent.
  destruct (invoke env (length (calls w)) req); cbn; split; auto.
Qed.

Lemma sends_array_map {B} (raw : Value) (f : Value -> nat -> M B) :
  (forall x i, sends P (f x i)) -> sends P (array_map raw f).
Proof.
  intros Hf. destruct raw; cbn; try apply sends_throw. by apply sends_map_indexed.
Qed.

End Sends.

Ltac sends_step :=
  first
    [ apply sends_ret | apply sends_throw | apply sends_console_log
    | apply sends_nonnull | apply sends_get_prop | apply sends_now
    | apply sends_parse | apply sends_urlToBase64
    | apply sends_generateContent; reflexivity
    | apply sends_bind | apply sends_try_catch
    | apply sends_for_of | apply sends_for_range
    | apply sends_array_map | apply sends_map_indexed
    | match goal with
      | |- forall _, _ => intro
      | |- sends _ (match ?x with _ => _ end) => destruct x
      | |- sends _ (if ?b then _ else _) => destruct b
      end ].

Ltac sends_tac := repeat (cbv zeta; sends_step).

Section Exclusive.
Context (env : Env).

Let P : Request -> Prop := fun req => schema_xor_search req = true.

Lemma sends_enhancePersonaProfile p : sends P (enhancePersonaProfile env p).
Proof. unfold enhancePersonaProfile. sends_tac. Qed.

Lemma sends_generateManualVariants p act fb : sends P (generateManualVariants env p act fb).
Proof. unfold generateManualVariants. sends_tac. Qed.

Lemma sends_generateAutoTrends p : sends P (generateAutoTrends env p).
Proof. unfold generateAutoTrends, extract_trends. sends_tac. Qed.

Lemma sends_analyzeIdeaRequirements i p : sends P (analyzeIdeaRequirements env i p).
Proof. unfold analyzeIdeaRequirements. sends_tac. Qed.

Lemma sends_generateUGCImages p i reqs n q : sends P (generateUGCImages env p i reqs n q).
Proof. unfold generateUGCImages, image_parts, collect_images. sends_tac. Qed.

Lemma sends_editImageWithChat img ins ref : sends P (editImageWithChat env img ins ref).
Proof. unfold editImageWithChat. sends_tac. Qed.

Lemma sends_generateCaptionStrategy p i : sends P (generateCaptionStrategy env p i).
Proof. unfold generateCaptionStrategy. sends_tac. Qed.

Lemma sends_perform c : sends P (perform env c).
Proof.
  destruct c; cbn; apply sends_bind; intros; try apply sends_ret;
    auto using sends_enhancePersonaProfile, sends_generateManualVariants,
      sends_generateAutoTrends, sends_analyzeIdeaRequirements, sends_generateUGCImages,
      sends_editImageWithChat, sends_generateCaptionStrategy.
Qed.

Lemma sends_handle e a : sends P (handle env e a).
Proof.
  destruct e; cbn [handle];
    unfold handleSavePersona, handleEnhancePersona, generateIdeas, regenerateIdea,
      proceedToRefinement, handleRefinementInput, useSuggestion, handleRefinementImage,
      update_requirement, proceedToGeneration, handleEditImage, proceedToCaptions;
    sends_tac;
    auto using sends_enhancePersonaProfile, sends_generateManualVariants,
      sends_generateAutoTrends, sends_analyzeIdeaRequirements, sends_generateUGCImages,
      sends_editImageWithChat, sends_generateCaptionStrategy.
Qed.

End Exclusive.

(** C10. No request carries a response schema together with the search tool:
    whatever a function of the service or a handler of the workflow is given,
    and whatever the capability answers, the requests it sends all have at
    most one of the two. *)
Theorem schema_and_search_never_together (env : Env) :
  (forall c : ServiceCall,
     sends (fun req => schema_xor_search req = true) (perform env c))
  /\ (forall (e : Event) (a : App),
        sends (fun req => schema_xor_search req = true) (handle env e a)).
Proof. split; [apply sends_perform | apply sends_handle]. Qed.

(** Every call is recorded, so the statement above speaks of each of them. *)
Lemma generateContent_records (env : Env) (req : Request) (w : World) :
  calls (snd (generateContent env req w)) = calls w ++ [req].
Proof. unfold generateContent. by destruct (invoke _ _ _). Qed.

(** ** C5: a response that is no JSON, for a call with a schema *)

(** When the text of the response does not parse, [generateManualVariants]
    throws. *)
Lemma generateManualVariants_unparsable (env : Env) persona activity feedback w response :
  invoke env (length (calls w)) (manual_request persona activity feedback) = Some response ->
  JSON_parse env (text_or response "[]") = None ->
  fst (generateManualVariants env persona activity feedback w) = Throw SyntaxError.
Proof.
  intros Hcall Hparse. unfold generateManualVariants, bind, generateContent, parse.
  by rewrite Hcall, Hparse.
Qed.

(** C5 fails on the code. With a capability that answers in prose, the three
    calls that declare a schema throw a SyntaxError, where the search call
    returns the empty list. *)
Theorem schema_calls_throw_on_unparsable_text :
  fst (generateManualVariants apologising jakob "drinking coffee" None world0)
    = Throw SyntaxError
  /\ fst (analyzeIdeaRequirements apologising coffee_idea jakob world0) = Throw SyntaxError
  /\ fst (generateCaptionStrategy apologising jakob coffee_idea world0) = Throw SyntaxError
  /\ fst (generateAutoTrends apologising jakob world0) = Ok [].
Proof. repeat split; vm_compute; reflexivity. Qed.

(** ** C6: the array in the answer of the search call *)

Section Scanning.
#[local] Arguments String.append !_ _ / : simpl nomatch.

Lemma from_first_some (c : ascii) (s t : string) :
  from_first c s = Some t <->
  exists pre rest, s = pre +:+ String c rest /\ t = String c rest /\ occurs c pre = false.
Proof.
  revert t. induction s as [|a s IH]; intros t; cbn.
  - split; [done|]. intros (pre & rest & E & _). by destruct pre.
  - destruct (Ascii.eqb a c) eqn:Hac.
    + apply Ascii.eqb_eq in Hac as ->. split.
      * intros [= <-]. by exists EmptyString, s.
      * intros (pre & rest & E & -> & Hpre). destruct pre as [|a' pre]; cbn in *.
        -- by rewrite E.
        -- simplify_eq. by rewrite Ascii.eqb_refl in Hpre.
    + rewrite IH. split.
      * intros (pre & rest & -> & -> & Hpre). exists (String a pre), rest.
        cbn. by rewrite Hac, Hpre.
      * intros (pre & rest & E & -> & Hpre). destruct pre as [|a' pre]; cbn in *.
        -- simplify_eq. by rewrite Ascii.eqb_refl in Hac.
        -- simplify_eq. apply orb_false_elim in Hpre as [_ Hpre]. eauto.
Qed.

Lemma from_first_none (c : ascii) (s : string) :
  from_first c s = None <-> occurs c s = false.
Proof.
  induction s as [|a s IH]; cbn; [done|].
  destruct (Ascii.eqb a c); cbn; [split; discriminate | done].
Qed.

Lemma upto_last_none (c : ascii) (s : string) :
  upto_last c s = None <-> occurs c s = false.
Proof.
  induction s as [|a s IH]; cbn; [done|].
  destruct (upto_last c s) eqn:Hs.
  - destruct (occurs c s) eqn:Ho.
    + rewrite orb_true_r. split; discriminate.
    + destruct IH as [_ IH]. discriminate (IH eq_refl).
  - destruct IH as [IH _]. rewrite IH by done. rewrite orb_false_r.
    destruct (Ascii.eqb a c); split; done.
Qed.

Lemma upto_last_some (c : ascii) (s p : string) :
  upto_last c s = Some p <->
  exists mid post, s = mid +:+ String c post /\ p = mid +:+ String c EmptyString
                   /\ occurs c post = false.
Proof.
  revert p. induction s as [|a s IH]; intros p; cbn.
  - split; [done|]. intros (mid & post & E & _). by destruct mid.
  - destruct (upto_last c s) as [q|] eqn:Hs.
    + split.
      * intros [= <-]. destruct (proj1 (IH q) eq_refl) as (mid & post & -> & -> & Hpost).
        by exists (String a mid), post.
      * intros (mid & post & E & -> & Hpost). destruct mid as [|a' mid]; cbn in *.
        -- simplify_eq. apply upto_last_none in Hpost. congruence.
        -- simplify_eq. f_equal. f_equal.
           assert (Some q = Some (mid +:+ String c EmptyString)) as E'.
           { apply IH. eauto. }
           congruence.
    + apply upto_last_none in Hs. destruct (Ascii.eqb a c) eqn:Hac.
      * apply Ascii.eqb_eq in Hac as ->. split.
        -- intros [= <-]. by exists EmptyString, s.
        -- intros (mid & post & E & -> & Hpost). destruct mid as [|a' mid]; cbn in *.
           ++ done.
           ++ simplify_eq. exfalso. clear -Hs. induction mid as [|b mid IHm]; cbn in Hs.
              ** by rewrite Ascii.eqb_refl in Hs.
              ** apply orb_false_elim in Hs as [_ Hs]. auto.
      * split; [done|]. intros (mid & post & E & -> & Hpost).
        destruct mid as [|a' mid]; cbn in *.
        -- simplify_eq. by rewrite Ascii.eqb_refl in Hac.
        -- simplify_eq. exfalso. clear -Hs. induction mid as [|b mid IHm]; cbn in Hs.
           ++ by rewrite Ascii.eqb_refl in Hs.
           ++ apply orb_false_elim in Hs as [_ Hs]. auto.
Qed.

(** What the regular expression matches: the text from its first opening
    bracket to its last closing bracket, when the latter comes after the
    former. *)
Lemma match_array_some (text span : string) :
  match_array text = Some span <->
  exists pre mid post,
    text = pre +:+ "[" +:+ mid +:+ "]" +:+ post
    /\ occurs "["%char pre = false
    /\ occurs "]"%char post = false
    /\ span = "[" +:+ mid +:+ "]".
Proof.
  unfold match_array. split.
  - destruct (from_first "["%char text) as [[|a rest]|] eqn:Hf; try done.
    apply from_first_some in Hf as (pre & rest' & -> & [= -> ->] & Hpre).
    destruct (upto_last "]"%char rest') as [p|] eqn:Hu; [|done].
    apply upto_last_some in Hu as (mid & post & -> & -> & Hpost).
    intros [= <-]. by exists pre, mid, post.
  - intros (pre & mid & post & -> & Hpre & Hpost & ->).
    assert (from_first "["%char (pre +:+ "[" +:+ mid +:+ "]" +:+ post)
            = Some (String "["%char (mid +:+ "]" +:+ post))) as ->.
    { apply from_first_some. by exists pre, (mid +:+ "]" +:+ post). }
    assert (upto_last "]"%char (mid +:+ "]" +:+ post) = Some (mid +:+ "]")) as ->.
    { apply upto_last_some. by exists mid, post. }
    done.
Qed.

End Scanning.

Lemma tick_tick (n m : nat) (w : World) : tick n (tick m w) = tick (m + n) w.
Proof. unfold tick. cbn. f_equal. lia. Qed.

Lemma tick_0 (w : World) : tick 0 w = w.
Proof. destruct w. unfold tick. cbn. f_equal. lia. Qed.

Lemma get_prop_defined (r : Value) (k : string) (w : World) :
  is_nullish r = false -> get_prop r k w = (Ok (prop_of r k), w).
Proof. by destruct r. Qed.

Lemma get_prop_nullish (r : Value) (k : string) (w : World) :
  is_nullish r = true -> get_prop r k w = (Throw TypeError, w).
Proof. by destruct r. Qed.

(** The callback on each element of an array without [null]: the [j]-th
    element gets the [j]-th reading of the clock from now on. *)
Lemma map_indexed_idea_callback (env : Env) {B} (k1 k2 : string)
    (build : nat -> Z -> Value -> Value -> B) (l : list Value) (i0 : nat) (w : World) :
  Forall (fun r => is_nullish r = false) l ->
  map_indexed i0 (idea_callback env k1 k2 build) l w
  = (Ok (imap (fun j r => build (i0 + j) (Date_now env (clock w + j))
                                (prop_of r k1) (prop_of r k2)) l),
     tick (length l) w).
Proof.
  intros Hl. revert i0 w. induction Hl as [|r l Hr Hl IH]; intros i0 w.
  - cbn. unfold ret. by rewrite tick_0.
  - cbn [map_indexed]. unfold bind at 1. unfold idea_callback at 1.
    unfold bind, now. rewrite !get_prop_defined by done. unfold ret at 1.
    change (mkWorld (calls w) (S (clock w)) (fetches w) (console w)) with
      {| calls := calls w; clock := S (clock w); fetches := fetches w; console := console w |}.
    rewrite IH. unfold ret. cbn [imap length].
    f_equal.
    + f_equal. f_equal.
      * by rewrite !Nat.add_0_r.
      * apply imap_ext. intros j x _. cbn. f_equal; [lia | f_equal; lia].
    + unfold tick. cbn. f_equal. lia.
Qed.

(** When the callback runs through, no element was [null]. *)
Lemma map_indexed_idea_callback_ok (env : Env) {B} (k1 k2 : string)
    (build : nat -> Z -> Value -> Value -> B) (l : list Value) (i0 : nat) (w w' : World) ys :
  map_indexed i0 (idea_callback env k1 k2 build) l w = (Ok ys, w') ->
  Forall (fun r => is_nullish r = false) l.
Proof.
  revert i0 w w' ys. induction l as [|r l IH]; intros i0 w w' ys H; [constructor|].
  cbn [map_indexed] in H. apply bind_ok in H as (y & w1 & H1 & H2).
  apply bind_ok in H2 as (ys' & w2 & H2 & _).
  constructor; [|by eapply IH].
  destruct (is_nullish r) eqn:Hr; [exfalso|done].
  unfold idea_callback, bind, now in H1. rewrite get_prop_nullish in H1 by done.
  discriminate.
Qed.

Lemma map_indexed_idea_callback_inv (env : Env) {B} (k1 k2 : string)
    (build : nat -> Z -> Value -> Value -> B) (l : list Value) (i0 : nat) (w w' : World) ys :
  map_indexed i0 (idea_callback env k1 k2 build) l w = (Ok ys, w') ->
  Forall (fun r => is_nullish r = false) l
  /\ ys = imap (fun j r => build (i0 + j) (Date_now env (clock w + j))
                                 (prop_of r k1) (prop_of r k2)) l
  /\ w' = tick (length l) w.
Proof.
  intros H. pose proof (map_indexed_idea_callback_ok _ _ _ _ _ _ _ _ _ H) as Hl.
  rewrite map_indexed_idea_callback in H by done. by simplify_eq.
Qed.

Section AutoTrends.
Context (env : Env) (persona : Persona.t) (w : World) (response : Response).
Hypothesis Hcall : invoke env (length (calls w)) (auto_request persona) = Some response.

Let w1 : World :=
  {| calls := calls w ++ [auto_request persona]; clock := clock w;
     fetches := fetches w; console := console w |}.

Lemma generateAutoTrends_after_call :
  generateAutoTrends env persona w
  = (raw <- extract_trends env response ;;
     array_map raw (idea_callback env "title" "description"
       (fun i t a b =>
          {| GeneratedIdea.id := derived_id (Persona.id persona) "trend" t i;
             GeneratedIdea.personaId := Persona.id persona;
             GeneratedIdea.title := js_or a (VStr "Trending Idea");
             GeneratedIdea.description := js_or b (VStr "Description unavailable");
             GeneratedIdea.selected := false |}))) w1.
Proof.
  unfold generateAutoTrends. unfold bind at 1. unfold generateContent. by rewrite Hcall.
Qed.

Lemma generateAutoTrends_no_match :
  match_array (text_or response "") = None ->
  fst (generateAutoTrends env persona w) = Ok [].
Proof.
  intros Hm. rewrite generateAutoTrends_after_call.
  unfold bind, extract_trends, try_catch. cbv zeta. by rewrite Hm.
Qed.

Lemma generateAutoTrends_unparsable span :
  match_array (text_or response "") = Some span ->
  JSON_parse env span = None ->
  fst (generateAutoTrends env persona w) = Ok [].
Proof.
  intros Hm Hp. rewrite generateAutoTrends_after_call.
  unfold bind, extract_trends, try_catch, parse. cbv zeta. by rewrite Hm, Hp.
Qed.

Lemma generateAutoTrends_parsed span l :
  match_array (text_or response "") = Some span ->
  JSON_parse env span = Some (VArr l) ->
  Forall (fun r => is_nullish r = false) l ->
  fst (generateAutoTrends env persona w)
  = Ok (imap (fun i r => trend_idea persona i (Date_now env (clock w + i)) r) l).
Proof.
  intros Hm Hp Hl. rewrite generateAutoTrends_after_call.
  unfold bind at 1. unfold extract_trends, try_catch, parse. cbv zeta. rewrite Hm, Hp.
  unfold ret at 1. unfold array_map. by rewrite map_indexed_idea_callback.
Qed.

End AutoTrends.

(** What the code does to find the array. The text of the answer is
    searched for the span from its first opening bracket to its last closing
    bracket; without such a span, or when the span does not parse, the
    result is the empty list; when it parses to an array without [null],
    the result has one idea per element, in order. *)
Theorem generateAutoTrends_parses_bracket_span (env : Env) (persona : Persona.t)
    (w : World) (response : Response) :
  invoke env (length (calls w)) (auto_request persona) = Some response ->
  let text := text_or response "" in
  let result := fst (generateAutoTrends env persona w) in
  (forall span,
     match_array text = Some span <->
     exists pre mid post,
       text = pre +:+ "[" +:+ mid +:+ "]" +:+ post
       /\ occurs "["%char pre = false /\ occurs "]"%char post = false
       /\ span = "[" +:+ mid +:+ "]")
  /\ (match_array text = None -> result = Ok [])
  /\ (forall span,
        match_array text = Some span -> JSON_parse env span = None -> result = Ok [])
  /\ (forall span l,
        match_array text = Some span ->
        JSON_parse env span = Some (VArr l) ->
        Forall (fun r => is_nullish r = false) l ->
        result = Ok (imap (fun i r => trend_idea persona i (Date_now env (clock w + i)) r) l)).
Proof.
  intros Hcall text result. repeat split.
  - apply match_array_some.
  - apply match_array_some.
  - by apply generateAutoTrends_no_match.
  - intros. by eapply generateAutoTrends_unparsable.
  - intros. by eapply generateAutoTrends_parsed.
Qed.

(** An answer in prose around the array gives the idea of the array. *)
Lemma generateAutoTrends_in_prose :
  fst (generateAutoTrends (answering trends_in_prose) jakob world0)
  = Ok [ {| GeneratedIdea.id := "p1-trend-1700000000000-0";
            GeneratedIdea.personaId := "p1";
            GeneratedIdea.title := VStr "Sunrise run";
            GeneratedIdea.description := VStr "A run along the Sava at dawn";
            GeneratedIdea.selected := false |} ].
Proof.
  pose proof (generateAutoTrends_parses_bracket_span (answering trends_in_prose) jakob world0
                (text_response trends_in_prose) eq_refl) as (_ & _ & _ & H).
  rewrite (H (one_idea_json "Sunrise run" "A run along the Sava at dawn")
             [VObj [("title", VStr "Sunrise run");
                    ("description", VStr "A run along the Sava at dawn")]]).
  - vm_compute. reflexivity.
  - vm_compute. reflexivity.
  - vm_compute. reflexivity.
  - repeat constructor.
Defined.

(** C6. The code misses the array that its comment says it finds. In an
    answer that lists its sources after the array, the first complete array
    of the text, as bracket matching finds it, parses to one element; the
    regular expression of the code is greedy and takes the span up to the
    last closing bracket of the text, which is the whole answer and no JSON,
    so that [generateAutoTrends] returns the empty list where the claim has
    one idea. *)
Lemma generateAutoTrends_misses_first_complete_array :
  spec_first_complete_array trends_with_sources
    = Some (one_idea_json "Sunrise run" "A run along the Sava at dawn")
  /\ JSON_parse (answering trends_with_sources)
       (one_idea_json "Sunrise run" "A run along the Sava at dawn")
     = Some (VArr [VObj [("title", VStr "Sunrise run");
                         ("description", VStr "A run along the Sava at dawn")]])
  /\ match_array trends_with_sources = Some trends_with_sources
  /\ JSON_parse (answering trends_with_sources) trends_with_sources = None
  /\ fst (generateAutoTrends (answering trends_with_sources) jakob world0) = Ok [].
Proof. repeat split; vm_compute; reflexivity. Qed.

(** ** The loops that collect into a dictionary *)

Lemma for_of_collect_ok {V} (l : list string) (found : string -> M (option (string * V)))
    (body : string -> gmap string V -> M (gmap string V)) (m0 m : gmap string V) (w w' : World) :
  (forall pid m w, body pid m w = (o <- found pid ;; ret (collect o m)) w) ->
  for_of l body m0 w = (Ok m, w') ->
  (forall k v, m !! k = Some v ->
     m0 !! k = Some v
     \/ exists pid w1 w2, pid ∈ l /\ found pid w1 = (Ok (Some (k, v)), w2))
  /\ (forall pid, pid ∈ l ->
        exists o w1 w2, found pid w1 = (Ok o, w2)
                        /\ forall k v, o = Some (k, v) -> is_Some (m !! k)).
Proof.
  intros Hbody. revert m0 w. induction l as [|x l IH]; intros m0 w Hrun; cbn in Hrun.
  - unfold ret in Hrun. simplify_eq. split; [eauto|]. intros pid Hin. by apply elem_of_nil in Hin.
  - apply bind_ok in Hrun as (m1 & w1 & H1 & H2).
    rewrite Hbody in H1. apply bind_ok in H1 as (o & w0 & Hf & Hret).
    unfold ret in Hret. injection Hret as Hm1 Hw0. subst m1 w0.
    destruct (IH _ _ H2) as [IHa IHb]. split.
    + intros k v Hk. destruct (IHa k v Hk) as [Hm|(pid & wa & wb & Hin & Hp)].
      * destruct o as [[k' v']|]; cbn in Hm; [|by left].
        destruct (decide (k' = k)) as [->|Hne].
        -- rewrite lookup_insert_eq in Hm. simplify_eq. right.
           exists x, w, w1. split; [by left|done].
        -- rewrite lookup_insert_ne in Hm by done. by left.
      * right. exists pid, wa, wb. split; [by right|done].
    + intros pid Hin. apply elem_of_cons in Hin as [->|Hin]; [|by apply IHb].
      exists o, w, w1. split; [done|]. intros k v ->. cbn in *.
      destruct (m !! k) as [v'|] eqn:Hk; [by eexists|exfalso].
      clear -H2 Hbody Hk Hf.
      assert (forall l m0 w, for_of l body m0 w = (Ok m, w') -> m0 !! k = None) as Hmono.
      { clear -Hbody Hk. induction l as [|y l IHl]; intros m0 w Hrun; cbn in Hrun.
        - unfold ret in Hrun. by simplify_eq.
        - apply bind_ok in Hrun as (m1 & w1 & H1 & H2). apply IHl in H2.
          rewrite Hbody in H1. apply bind_ok in H1 as (o & w0 & _ & Hret).
          unfold ret in Hret. simplify_eq.
          destruct o as [[k' v']|]; cbn in H2; [|done].
          destruct (decide (k' = k)) as [->|Hne].
          + by rewrite lookup_insert_eq in H2.
          + by rewrite lookup_insert_ne in H2. }
      apply Hmono in H2. by rewrite lookup_insert_eq in H2.
Qed.

(** ** C7: the ideas of a successful generation *)

Section Ideas.
Context (env : Env).

Lemma generateManualVariants_ok persona activity feedback w w' ideas :
  generateManualVariants env persona activity feedback w = (Ok ideas, w') ->
  exists response l,
    invoke env (length (calls w)) (manual_request persona activity feedback) = Some response
    /\ JSON_parse env (text_or response "[]") = Some (VArr l)
    /\ Forall (fun r => is_nullish r = false) l
    /\ ideas = imap (fun i r => manual_idea persona i (Date_now env (clock w + i)) r) l.
Proof.
  unfold generateManualVariants. intros H.
  apply bind_ok in H as (response & w1 & Hc & H).
  apply bind_ok in H as (raw & w2 & Hp & H).
  unfold generateContent in Hc.
  destruct (invoke env (length (calls w)) _) as [response'|] eqn:Hinv; [|discriminate].
  simplify_eq. unfold parse in Hp.
  destruct (JSON_parse env _) as [raw'|] eqn:Hparse; [|discriminate].
  unfold ret in Hp. simplify_eq.
  destruct raw; try discriminate. cbn [array_map] in H.
  exists response, l.
  apply (map_indexed_idea_callback_inv env "title" "description") in H as (Hl & -> & _).
  done.
Qed.

Lemma extract_trends_ok response w raw w' :
  extract_trends env response w = (Ok raw, w') ->
  clock w' = clock w /\
  forall l, raw = VArr l -> response_array env auto response = Some l.
Proof.
  unfold extract_trends, try_catch, response_array, parse. cbv zeta.
  destruct (match_array _) as [span|].
  - destruct (JSON_parse env span) as [v|]; unfold ret, throw, bind, console_log; intros H.
    + simplify_eq. split; [done|]. by intros l ->.
    + simplify_eq. split; [done|]. by intros l [= <-].
  - unfold ret, bind, console_log. intros H. simplify_eq. split; [done|]. by intros l [= <-].
Qed.

Lemma generateAutoTrends_ok persona w w' ideas :
  generateAutoTrends env persona w = (Ok ideas, w') ->
  exists response l,
    invoke env (length (calls w)) (auto_request persona) = Some response
    /\ response_array env auto response = Some l
    /\ Forall (fun r => is_nullish r = false) l
    /\ ideas = imap (fun i r => trend_idea persona i (Date_now env (clock w + i)) r) l.
Proof.
  unfold generateAutoTrends. intros H.
  apply bind_ok in H as (response & w1 & Hc & H).
  apply bind_ok in H as (raw & w2 & Hp & H).
  unfold generateContent in Hc.
  destruct (invoke env (length (calls w)) _) as [response'|] eqn:Hinv; [|discriminate].
  simplify_eq. apply extract_trends_ok in Hp as [Hclock Hraw].
  destruct raw; try discriminate. cbn [array_map] in H.
  exists response, l. split; [done|]. split; [by apply Hraw|].
  apply (map_indexed_idea_callback_inv env "title" "description"
           (fun i t a b =>
              {| GeneratedIdea.id := derived_id (Persona.id persona) "trend" t i;
                 GeneratedIdea.personaId := Persona.id persona;
                 GeneratedIdea.title := js_or a (VStr "Trending Idea");
                 GeneratedIdea.description := js_or b (VStr "Description unavailable");
                 GeneratedIdea.selected := false |})) in H as (Hl & -> & _).
  split; [done|]. cbn in Hclock. by rewrite Hclock.
Qed.

End Ideas.


Lemma find_idea_some (ideaId : string) (ideas : list GeneratedIdea.t) (i : GeneratedIdea.t) :
  find_idea ideaId ideas = Some i -> GeneratedIdea.id i = ideaId /\ i ∈ ideas.
Proof.
  unfold find_idea. intros H. apply List.find_some in H as [Hin Heq].
  apply String.eqb_eq in Heq. split; [done|]. by apply list_elem_of_In.
Qed.





(** ** C2: ideas, all or nothing *)

Section Accepting.
Context (env : Env).

Lemma accepting_unchanged {A} (m : M A) :
  (forall w, calls (snd (m w)) = calls w) -> accepting env m.
Proof.
  intros Hm w n0 a w' Hacc Hrun. specialize (Hm w). rewrite Hrun in Hm. cbn in Hm.
  split; [|by rewrite Hm]. intros n req. rewrite Hm. apply Hacc.
Qed.

Lemma accepting_ret {A} (a : A) : accepting env (ret a).
Proof. by apply accepting_unchanged. Qed.

Lemma accepting_throw {A} (e : Exn) : accepting env (@throw A e).
Proof. by apply accepting_unchanged. Qed.

Lemma accepting_nonnull {A} (o : option A) : accepting env (nonnull o).
Proof. apply accepting_unchanged. by destruct o. Qed.

Lemma accepting_get_prop (r : Value) (k : string) : accepting env (get_prop r k).
Proof. apply accepting_unchanged. by destruct r. Qed.

Lemma accepting_now : accepting env (now env).
Proof. by apply accepting_unchanged. Qed.

Lemma accepting_parse (s : string) : accepting env (parse env s).
Proof. apply accepting_unchanged. intros w. unfold parse. by destruct (JSON_parse env s). Qed.

Lemma accepting_extract_trends (response : Response) : accepting env (extract_trends env response).
Proof.
  apply accepting_unchanged. intros w.
  unfold extract_trends, try_catch, parse, bind, console_log, ret, throw. cbv zeta.
  destruct (match_array _); [|done]. by destruct (JSON_parse env _).
Qed.

Lemma accepting_bind {A B} (m : M A) (k : A -> M B) :
  accepting env m -> (forall a, accepting env (k a)) -> accepting env (bind m k).
Proof.
  intros Hm Hk w n0 b w' Hacc Hrun.
  apply bind_ok in Hrun as (a & w1 & H1 & H2).
  destruct (Hm _ _ _ _ Hacc H1) as [Hacc1 Hlen1].
  destruct (Hk a _ _ _ _ Hacc1 H2) as [Hacc2 Hlen2].
  split; [done|lia].
Qed.

Lemma accepting_for_of {A St} (l : list A) (body : A -> St -> M St) (s : St) :
  (forall x s, accepting env (body x s)) -> accepting env (for_of l body s).
Proof.
  intros Hbody. revert s. induction l as [|x l IH]; intros s; cbn.
  - apply accepting_ret.
  - apply accepting_bind; [apply Hbody | apply IH].
Qed.

Lemma accepting_map_indexed {A B} (i : nat) (f : A -> nat -> M B) (l : list A) :
  (forall x i, accepting env (f x i)) -> accepting env (map_indexed i f l).
Proof.
  intros Hf. revert i. induction l as [|x l IH]; intros i; cbn.
  - apply accepting_ret.
  - apply accepting_bind; [apply Hf |]. intros y.
    apply accepting_bind; [apply IH |]. intros ys. apply accepting_ret.
Qed.

Lemma accepting_array_map {B} (raw : Value) (f : Value -> nat -> M B) :
  (forall x i, accepting env (f x i)) -> accepting env (array_map raw f).
Proof.
  intros Hf. destruct raw; cbn; try apply accepting_throw. by apply accepting_map_indexed.
Qed.

Lemma accepting_generateContent (req : Request) : accepting env (generateContent env req).
Proof.
  intros w n0 response w' Hacc Hrun. unfold generateContent in Hrun.
  destruct (invoke env (length (calls w)) req) as [r|] eqn:Hinv; [|discriminate].
  simplify_eq. cbn. split; [|rewrite length_app; lia].
  intros n req' Hn Hlook. cbn in Hlook.
  destruct (decide (n < length (calls w))) as [Hlt|Hge].
  - rewrite lookup_app_l in Hlook by done. by apply Hacc.
  - rewrite lookup_app_r in Hlook by lia.
    destruct (n - length (calls w)) as [|k] eqn:Hk; cbn in Hlook; [|done].
    simplify_eq. assert (n = length (calls w)) as -> by lia. by rewrite Hinv.
Qed.

Lemma accepting_generateManualVariants p act fb :
  accepting env (generateManualVariants env p act fb).
Proof.
  unfold generateManualVariants.
  repeat first [ apply accepting_bind | apply accepting_generateContent | apply accepting_parse
               | apply accepting_array_map | apply accepting_now | apply accepting_get_prop
               | apply accepting_ret | intro ].
Qed.

Lemma accepting_generateAutoTrends p : accepting env (generateAutoTrends env p).
Proof.
  unfold generateAutoTrends.
  repeat first [ apply accepting_bind | apply accepting_generateContent
               | apply accepting_extract_trends
               | apply accepting_array_map | apply accepting_now | apply accepting_get_prop
               | apply accepting_ret | intro ].
Qed.

End Accepting.

(** A loop throws what its first throwing iteration throws, on the world
    that this iteration leaves. *)
Lemma for_of_throws {V} (found : string -> M (option (string * V)))
    (body : string -> gmap string V -> M (gmap string V)) (pre : list string) (pid : string)
    (post : list string) (m0 : gmap string V) (w w1 : World) (e : Exn) (w2 : World) :
  (forall pid m w, body pid m w = (o <- found pid ;; ret (collect o m)) w) ->
  after_iterations found pre w = Some w1 ->
  found pid w1 = (Throw e, w2) ->
  for_of (pre ++ pid :: post) body m0 w = (Throw e, w2).
Proof.
  intros Hbody. revert m0 w. induction pre as [|x pre IH]; intros m0 w Hpre Hthrow.
  - cbn in Hpre. simplify_eq. cbn [app for_of]. unfold bind at 1. rewrite Hbody.
    unfold bind. by rewrite Hthrow.
  - cbn in Hpre. cbn [app for_of]. unfold bind at 1. rewrite Hbody. unfold bind at 1.
    destruct (found x w) as [[o|e'] w'] eqn:Hx; [|discriminate].
    unfold ret at 1. by apply IH.
Qed.

Lemma generateIdeas_body (env : Env) (m : Mode) (a : App) pid
    (mp : gmap string (list GeneratedIdea.t)) (w : World) :
  (persona <- nonnull (find_persona pid (personas a)) ;;
   ideas <- match m with
            | manual => generateManualVariants env persona (manualActivityInput (state a)) None
            | auto => generateAutoTrends env persona
            end ;;
   ret (<[pid := ideas]> mp)) w
  = (o <- ideas_found env m a pid ;; ret (collect o mp)) w.
Proof.
  unfold ideas_found, bind. cbn.
  destruct (nonnull _ w) as [[p|e] w4]; [|done].
  destruct m.
  - by destruct (generateManualVariants _ _ _ _ w4) as [[i|e] w5].
  - by destruct (generateAutoTrends _ _ w4) as [[i|e] w5].
Qed.

(** C2. [generateIdeas] is all or nothing. When one of the calls for the
    selected personas throws, whatever it throws (the capability rejects the
    call, the text of the response does not parse, an element of the array
    is [null], the persona is not found) and whatever the calls before it
    returned, the handler returns with the workflow state as it was, so
    with [generatedIdeas] and [step] as they were; the error hook holds the
    one message of the handler, and the busy flag is down. The call that
    throws is given either by its place in the log of the requests, for a
    rejected call, or by the persona at which the loop stands when its
    iteration throws. *)
Theorem generateIdeas_all_or_nothing (env : Env) (m : Mode) (a : App) (w : World) :
  (exists n req,
     length (calls w) <= n
     /\ calls (snd (generateIdeas env m a w)) !! n = Some req
     /\ invoke env n req = None)
  \/ (exists pre pid post w1 e w2,
        selectedPersonaIds (state a) = pre ++ pid :: post
        /\ after_iterations (ideas_found env m a) pre w = Some w1
        /\ ideas_found env m a pid w1 = (Throw e, w2)) ->
  exists a',
    fst (generateIdeas env m a w) = Ok a'
    /\ state a' = state a
    /\ generatedIdeas (state a') = generatedIdeas (state a)
    /\ step (state a') = step (state a)
    /\ error a' = Some "Failed to generate ideas. Ensure API Key is set."
    /\ loading a' = false.
Proof.
  intros [(n & req & Hn & Hlook & Hrej)|(pre & pid & post & w1 & e & w2 & Hl & Hpre & Hthrow)].
  - unfold generateIdeas in *. cbv zeta in *.
    unfold bind at 1 in Hlook. unfold bind at 1. unfold try_catch in *.
    match goal with
    | |- context [match ?loop w with _ => _ end] =>
        destruct (loop w) as [[a2|e] w2] eqn:Hloop
    end.
    + exfalso. cbn in Hlook.
      apply bind_ok in Hloop as (ideasMap & w3 & Hloop & Hret).
      unfold ret in Hret. simplify_eq.
      assert (accepted_from env (length (calls w)) w2) as Hacc.
      { eapply (accepting_for_of env); [| |exact Hloop].
        - intros pid mp. apply accepting_bind; [apply accepting_nonnull|]. intros p.
          apply accepting_bind; [|intros; apply accepting_ret].
          destruct m; [apply accepting_generateManualVariants | apply accepting_generateAutoTrends].
        - intros k r Hk Hr. apply lookup_lt_Some in Hr. lia. }
      destruct (Hacc n req Hn Hlook) as [r Hr]. congruence.
    + eexists. cbn. repeat split; reflexivity.
  - unfold generateIdeas. cbv zeta. unfold bind at 1. unfold try_catch.
    match goal with
    | |- context [match ?loop w with _ => _ end] =>
        destruct (loop w) as [[a2|e0] w0] eqn:Hloop
    end.
    + exfalso. apply bind_ok in Hloop as (ideasMap & w3 & Hloop & _).
      cbn [personas state setLoading setLoadingMsg setError] in Hloop.
      rewrite Hl in Hloop.
      rewrite (for_of_throws (ideas_found env m a) _ pre pid post _ w w1 e w2) in Hloop;
        [discriminate| |done|done].
      intros pid0 mp w4. apply generateIdeas_body.
    + eexists. cbn. repeat split; reflexivity.
Qed.

(** Two personas, the first call answered with ideas and the second with a
    text that does not parse: the call for the second persona throws a
    SyntaxError, and the ideas of the first persona are not kept. *)
Lemma generateIdeas_all_or_nothing_second_unparsable :
  exists a',
    fst (generateIdeas second_call_prose manual two_personas_app world0) = Ok a'
    /\ state a' = state two_personas_app
    /\ generatedIdeas (state a') = generatedIdeas (state two_personas_app)
    /\ step (state a') = step (state two_personas_app)
    /\ error a' = Some "Failed to generate ideas. Ensure API Key is set."
    /\ loading a' = false.
Proof.
  apply (generateIdeas_all_or_nothing second_call_prose manual two_personas_app world0).
  right.
  exists ["p1"], "p2", [],
    (snd (ideas_found second_call_prose manual two_personas_app "p1" world0)),
    SyntaxError,
    (snd (ideas_found second_call_prose manual two_personas_app "p2"
            (snd (ideas_found second_call_prose manual two_personas_app "p1" world0)))).
  split; [vm_compute; reflexivity|]. split; vm_compute; reflexivity.
Defined.

(** Two personas, the second call rejected: the ideas of the first persona
    are not kept either. *)
Lemma generateIdeas_all_or_nothing_second_rejected :
  (fun a' => (state a', error a', loading a'))
    <$> returned (generateIdeas first_call_only manual two_personas_app world0)
  = Some (state two_personas_app,
          Some "Failed to generate ideas. Ensure API Key is set.", false).
Proof. vm_compute. reflexivity. Qed.

(** An element of the array that is [null], at the first persona already:
    the callback throws a TypeError, and the state is as it was. *)
Lemma generateIdeas_all_or_nothing_null_element :
  (fun a' => (state a', error a', loading a'))
    <$> returned (generateIdeas (answering "[null]") manual two_personas_app world0)
  = Some (state two_personas_app,
          Some "Failed to generate ideas. Ensure API Key is set.", false).
Proof. vm_compute. reflexivity. Qed.

(** ** C8: editing an image *)

Lemma editImageWithChat_unfold (env : Env) image instruction referenceImage w :
  editImageWithChat env image instruction referenceImage w
  = match split_comma_1 (GeneratedImage.imageUrl image) with
    | Some base64Data =>
        if nonempty base64Data then
          let w' := {| calls := calls w ++ [edit_request
                                  (edit_parts base64Data instruction referenceImage)];
                       clock := clock w; fetches := fetches w; console := console w |} in
          match invoke env (length (calls w))
                  (edit_request (edit_parts base64Data instruction referenceImage)) with
          | Some response =>
              match first_inline (candidateParts response) with
              | Some data => (Ok (edited image data), w')
              | None => (Throw (Error "No image returned from edit"), w')
              end
          | None => (Throw CapabilityError, w')
          end
        else (Throw (Error "Invalid image data"), w)
    | None => (Throw (Error "Invalid image data"), w)
    end.
Proof.
  unfold editImageWithChat. cbv zeta.
  destruct (split_comma_1 _) as [b|]; cbn [truthy_str negb]; [|done].
  destruct (nonempty b); cbn [negb]; [|done].
  unfold bind, generateContent, edit_parts. cbn [default].
  destruct (invoke env _ _) as [response|]; [|done].
  by destruct (first_inline _).
Qed.

(** C8. [handleEditImage] on an image that exists, with an instruction
    typed. When the response has image content, the image is replaced where
    it stands by a record with the new content and the [id], [ideaId] and
    [prompt] it had; the list keeps its length and its ids, and nothing else
    of the workflow state changes. When the response has no image content,
    [editImageWithChat] throws, and the handler leaves the workflow state as
    it was and reports the failure. *)
Theorem handleEditImage_replaces_content (env : Env) (ideaId imageId input base64Data : string)
    (a : App) (w : World) (images : list GeneratedImage.t) (image : GeneratedImage.t)
    (response : Response) :
  editInputs a !! imageId = Some input ->
  nonempty input = true ->
  generatedImages (state a) !! ideaId = Some images ->
  find_image imageId images = Some image ->
  split_comma_1 (GeneratedImage.imageUrl image) = Some base64Data ->
  nonempty base64Data = true ->
  invoke env (length (calls w)) (edit_request (edit_parts base64Data input None))
    = Some response ->
  exists a',
    fst (handleEditImage env ideaId imageId a w) = Ok a'
    /\ loading a' = false
    /\ (forall data, first_inline (candidateParts response) = Some data ->
          let images' := List.map (fun img => if String.eqb (GeneratedImage.id img) imageId
                                              then edited image data else img) images in
          fst (editImageWithChat env image input None w) = Ok (edited image data)
          /\ GeneratedImage.id (edited image data) = imageId
          /\ GeneratedImage.ideaId (edited image data) = GeneratedImage.ideaId image
          /\ GeneratedImage.prompt (edited image data) = GeneratedImage.prompt image
          /\ GeneratedImage.imageUrl (edited image data)
             = "data:image/png;base64," +:+ data_string data
          /\ state a' = set_generatedImages (<[ideaId := images']> (generatedImages (state a)))
                          (state a)
          /\ length images' = length images
          /\ GeneratedImage.id <$> images' = GeneratedImage.id <$> images
          /\ (forall j img, images !! j = Some img -> GeneratedImage.id img <> imageId ->
                images' !! j = Some img)
          /\ error a' = error a)
    /\ (first_inline (candidateParts response) = None ->
          fst (editImageWithChat env image input None w)
            = Throw (Error "No image returned from edit")
          /\ state a' = state a
          /\ error a' = Some "Editing failed.").
Proof.
  intros Hinput Hne Himages Hfind Hsplit Hb64 Hinv.
  apply List.find_some in Hfind as Hid. destruct Hid as [_ Hid]. apply String.eqb_eq in Hid.
  unfold handleEditImage. rewrite Hinput, Hne. cbn [negb]. cbv zeta.
  unfold bind at 1. unfold try_catch.
  unfold bind at 1. cbn [state setLoading setLoadingMsg]. rewrite Himages. cbn [nonnull].
  unfold ret at 1. unfold bind at 1. rewrite Hfind. cbn [nonnull]. unfold ret at 1.
  unfold bind at 1. rewrite !editImageWithChat_unfold, Hsplit, Hb64. cbv zeta. rewrite Hinv.
  destruct (first_inline (candidateParts response)) as [data|] eqn:Hdata.
  - unfold bind at 1. unfold ret. eexists. split; [reflexivity|]. split; [reflexivity|]. split; [|done].
    intros data' [= <-]. cbv zeta. repeat split; try done.
    + by rewrite length_map.
    + rewrite <- list_fmap_compose. apply list_fmap_ext. intros j img _. cbn.
      destruct (String.eqb (GeneratedImage.id img) imageId) eqn:E; [|done].
      apply String.eqb_eq in E. cbn. congruence.
    + intros j img Hj Hne'. change (List.map ?f images) with (f <$> images).
      rewrite list_lookup_fmap, Hj. cbn.
      destruct (String.eqb (GeneratedImage.id img) imageId) eqn:E; [|done].
      by apply String.eqb_eq in E.
  - unfold ret. eexists. split; [reflexivity|]. split; [reflexivity|]. split; [done|].
    intros _. repeat split; reflexivity.
Qed.

(** The scenario of the specification: the edit replaces [imageUrl] and
    keeps [id], [ideaId] and [prompt]. *)
Lemma handleEditImage_idea1_img_123 :
  exists a',
    fst (handleEditImage painting "idea1" "idea1-img-123-0" editing_app world0) = Ok a'
    /\ generatedImages (state a') !! "idea1"
       = Some [ {| GeneratedImage.id := "idea1-img-123-0";
                   GeneratedImage.ideaId := "idea1";
                   GeneratedImage.imageUrl := "data:image/png;base64,BBBB";
                   GeneratedImage.prompt := "Photorealistic Instagram photo of Jakob" |} ].
Proof.
  destruct (handleEditImage_replaces_content painting "idea1" "idea1-img-123-0"
              "make it sunnier" "AAAA" editing_app world0 [image_123] image_123
              (image_response "BBBB")) as (a' & Hrun & _ & Hok & _);
    try (vm_compute; reflexivity).
  exists a'. split; [exact Hrun|].
  destruct (Hok (Some "BBBB") eq_refl) as (_ & _ & _ & _ & _ & Hstate & _).
  rewrite Hstate. vm_compute. reflexivity.
Defined.

(** The same edit with a capability that answers in prose: nothing is
    committed, and the failure is reported. *)
Lemma handleEditImage_without_image_content :
  (fun a' => (state a', error a'))
    <$> returned (handleEditImage apologising "idea1" "idea1-img-123-0" editing_app world0)
  = Some (state editing_app, Some "Editing failed.").
Proof. vm_compute. reflexivity. Qed.

(** ** C3: images, call by call *)

Section Images.
Context (env : Env).

Lemma urlToBase64_returns (url : string) (w : World) :
  exists b w', urlToBase64 env url w = (Ok b, w') /\ calls w' = calls w.
Proof.
  unfold urlToBase64. destruct (fetch_dataUrl env (fetches w) url); cbn; eauto.
Qed.

Lemma image_parts_returns persona fullPrompt requirements (w : World) :
  exists parts w', image_parts env persona fullPrompt requirements w = (Ok parts, w')
                   /\ calls w' = calls w.
Proof.
  unfold image_parts.
  assert (forall l parts0 w0, exists parts w',
            for_of l (fun imgUrl parts =>
               if startsWith "http" imgUrl
               then base64 <- urlToBase64 env imgUrl ;; ret (push_inline "image/jpeg" base64 parts)
               else ret (parts ++ [PInline "image/jpeg" imgUrl])) parts0 w0 = (Ok parts, w')
            /\ calls w' = calls w0) as Hloop.
  { induction l as [|url l IH]; intros parts0 w0; cbn.
    - unfold ret. eauto.
    - destruct (startsWith "http" url).
      + destruct (urlToBase64_returns url w0) as (b & w1 & Hu & Hc).
        unfold bind at 1. unfold bind at 1. rewrite Hu. unfold ret at 1.
        destruct (IH (push_inline "image/jpeg" b parts0) w1) as (parts & w' & Hl & Hc').
        exists parts, w'. split; [done|congruence].
      + unfold bind at 1. unfold ret at 1. apply IH. }
  destruct (Hloop (Persona.refImages persona) [PText fullPrompt] w) as (parts & w' & Hl & Hc).
  unfold bind at 1. rewrite Hl. unfold ret. eauto.
Qed.

Lemma collect_images_returns idea fullPrompt i response results (w : World) :
  exists images w',
    collect_images env idea fullPrompt i response results w = (Ok (results ++ images), w')
    /\ calls w' = calls w
    /\ Forall (fun img => GeneratedImage.ideaId img = GeneratedIdea.id idea
                          /\ GeneratedImage.prompt img = fullPrompt) images
    /\ (images = [] <-> first_inline (candidateParts response) = None).
Proof.
  unfold collect_images. revert results w.
  induction (candidateParts response) as [|part parts IH]; intros results w; cbn.
  - exists [], w. unfold ret. rewrite app_nil_r. by repeat split.
  - destruct (inlineData part) as [data|].
    + unfold bind at 1. unfold bind at 1. unfold now at 1. unfold ret at 1.
      match goal with
      | |- context [for_of parts _ ?r ?w1] => destruct (IH r w1) as (images & w' & Hl & Hc & Hf & _)
      end.
      rewrite Hl. eexists (_ :: images), w'. rewrite <- app_assoc. cbn.
      split; [done|]. split; [done|]. split; [by constructor|]. split; discriminate.
    + unfold bind at 1. unfold ret at 1. apply IH.
Qed.

(** The loop of [generateUGCImages] from iteration [start] on: it returns,
    it has made one call per iteration, and it has added an image exactly
    when some call came back with image content. *)
Lemma image_loop_returns idea fullPrompt parts quality count start results (w : World) :
  exists images w',
    for_range start count (fun i results =>
      try_catch
        (response <- generateContent env (image_request parts quality) ;;
         collect_images env idea fullPrompt i response results)
        (fun e => console_log "Image generation error" ;;; ret results)) results w
    = (Ok (results ++ images), w')
    /\ calls w' = calls w ++ replicate count (image_request parts quality)
    /\ Forall (fun img => GeneratedImage.ideaId img = GeneratedIdea.id idea
                          /\ GeneratedImage.prompt img = fullPrompt) images
    /\ ((forall k, k < count -> no_image_at env (length (calls w) + k)) -> images = [])
    /\ ((exists k, k < count /\ image_at env (length (calls w) + k)) -> images <> []).
Proof.
  revert start results w. induction count as [|count IH]; intros start results w.
  - exists [], w. cbn. unfold ret. rewrite !app_nil_r. repeat split; try done.
    intros (k & Hk & _). lia.
  - cbn [for_range]. unfold bind at 1. unfold try_catch at 1. unfold bind at 1.
    unfold generateContent at 1.
    set (w1 := {| calls := calls w ++ [image_request parts quality]; clock := clock w;
                  fetches := fetches w; console := console w |}).
    destruct (invoke env (length (calls w)) (image_request parts quality)) as [response|] eqn:Hinv.
    + destruct (collect_images_returns idea fullPrompt start response results w1)
        as (imgs & w2 & Hc & Hcalls & Hf & Hempty).
      rewrite Hc.
      destruct (IH (S start) (results ++ imgs) w2) as (images & w' & Hl & Hcalls' & Hf' & Hnone & Hsome).
      rewrite Hl. exists (imgs ++ images), w'. rewrite app_assoc.
      assert (length (calls w2) = S (length (calls w))) as Hlen.
      { rewrite Hcalls. subst w1. cbn. rewrite length_app. cbn. lia. }
      split; [done|]. split.
      { rewrite Hcalls', Hcalls. subst w1. cbn. by rewrite <- app_assoc. }
      split; [by apply Forall_app|]. split.
      * intros Hall. rewrite Hnone.
        -- rewrite app_nil_r. apply Hempty.
           specialize (Hall 0 ltac:(lia) (image_request parts quality)).
           rewrite Nat.add_0_r, Hinv in Hall. done.
        -- intros k Hk. rewrite Hlen.
           replace (S (length (calls w)) + k) with (length (calls w) + S k) by lia.
           apply Hall. lia.
      * intros (k & Hk & Himg). destruct k as [|k].
        -- destruct (Himg (image_request parts quality)) as (r & Hr & [d Hd]).
           rewrite Nat.add_0_r, Hinv in Hr. simplify_eq.
           intros Happ. apply app_eq_nil in Happ as [Himgs _].
           apply Hempty in Himgs. congruence.
        -- intros Happ. apply app_eq_nil in Happ as [_ Himages]. revert Himages.
           apply Hsome. exists k. split; [lia|]. rewrite Hlen.
           by replace (S (length (calls w)) + k) with (length (calls w) + S k) by lia.
    + unfold bind at 1. unfold console_log at 1. unfold ret at 1.
      set (w2 := {| calls := calls w1; clock := clock w1; fetches := fetches w1;
                    console := console w1 ++ ["Image generation error"] |}).
      destruct (IH (S start) results w2) as (images & w' & Hl & Hcalls' & Hf' & Hnone & Hsome).
      rewrite Hl. exists images, w'.
      assert (length (calls w2) = S (length (calls w))) as Hlen.
      { subst w2 w1. cbn. rewrite length_app. cbn. lia. }
      split; [done|]. split.
      { rewrite Hcalls'. subst w2 w1. cbn. by rewrite <- app_assoc. }
      split; [done|]. split.
      * intros Hall. apply Hnone. intros k Hk. rewrite Hlen.
        replace (S (length (calls w)) + k) with (length (calls w) + S k) by lia.
        apply Hall. lia.
      * intros (k & Hk & Himg). destruct k as [|k].
        -- destruct (Himg (image_request parts quality)) as (r & Hr & _).
           rewrite Nat.add_0_r, Hinv in Hr. discriminate.
        -- apply Hsome. exists k. split; [lia|]. rewrite Hlen.
           by replace (S (length (calls w)) + k) with (length (calls w) + S k) by lia.
Qed.

(** [generateUGCImages] always returns: a rejected call costs its image and
    nothing else. *)
Lemma generateUGCImages_returns persona idea requirements count quality (w : World) :
  exists images w',
    generateUGCImages env persona idea requirements count quality w = (Ok images, w')
    /\ length (calls w') = length (calls w) + count
    /\ Forall (fun img => GeneratedImage.ideaId img = GeneratedIdea.id idea) images
    /\ ((forall k, k < count -> no_image_at env (length (calls w) + k)) -> images = [])
    /\ ((exists k, k < count /\ image_at env (length (calls w) + k)) -> images <> []).
Proof.
  unfold generateUGCImages. cbv zeta.
  destruct (image_parts_returns persona (image_prompt env persona idea requirements)
              requirements w) as (parts & w1 & Hp & Hc).
  unfold bind at 1. rewrite Hp.
  destruct (image_loop_returns idea (image_prompt env persona idea requirements) parts
              quality count 0 [] w1) as (images & w' & Hl & Hcalls & Hf & Hnone & Hsome).
  cbn [app] in Hl. rewrite Hl. exists images, w'. rewrite Hc in *.
  split; [done|]. split.
  { rewrite Hcalls, length_app, length_replicate. done. }
  split; [|done]. eapply Forall_impl; [exact Hf|]. by intros img [? _].
Qed.

End Images.

Lemma for_of_collect_returns {V} (l : list string) (found : string -> M (option (string * V)))
    (body : string -> gmap string V -> M (gmap string V)) (m0 : gmap string V) (w : World) :
  (forall pid m w, body pid m w = (o <- found pid ;; ret (collect o m)) w) ->
  (forall pid w, pid ∈ l -> exists o w', found pid w = (Ok o, w')) ->
  exists m w', for_of l body m0 w = (Ok m, w').
Proof.
  intros Hbody. revert m0 w. induction l as [|x l IH]; intros m0 w Hfound; cbn.
  - unfold ret. eauto.
  - destruct (Hfound x w) as (o & w1 & Hx); [by left|].
    unfold bind at 1. rewrite Hbody. unfold bind at 1. rewrite Hx. unfold ret at 1.
    apply IH. intros pid w0 Hin. apply Hfound. by right.
Qed.

Section Generation.
Context (env : Env) (a : App).

Lemma proceedToGeneration_body pid (m : gmap string (list GeneratedImage.t)) (w : World) :
  match selected_idea_of (state a) pid with
  | None => ret m
  | Some ideaId =>
      ideas <- nonnull (generatedIdeas (state a) !! pid) ;;
      selectedIdea <- nonnull (find_idea ideaId ideas) ;;
      persona <- nonnull (find_persona pid (personas a)) ;;
      let reqs := default [] (refinementData (state a) !! ideaId) in
      images <- generateUGCImages env persona selectedIdea reqs (genCount a) (genQuality a) ;;
      ret (<[ideaId := images]> m)
  end w
  = (o <- images_found env a pid ;; ret (collect o m)) w.
Proof.
  unfold images_found. destruct (selected_idea_of (state a) pid) as [ideaId|]; [|done].
  unfold bind. destruct (nonnull (generatedIdeas (state a) !! pid) w) as [[ideas|e] w1]; [|done].
  destruct (nonnull (find_idea ideaId ideas) w1) as [[idea|e] w2]; [|done].
  destruct (nonnull (find_persona pid (personas a)) w2) as [[persona|e] w3]; [|done].
  cbv zeta. by destruct (generateUGCImages _ _ _ _ _ _ w3) as [[images|e] w4].
Qed.

Lemma images_found_returns pid (w : World) :
  ready_for_generation a ->
  pid ∈ selectedPersonaIds (state a) ->
  exists o w',
    images_found env a pid w = (Ok o, w')
    /\ (selected_idea_of (state a) pid = None -> o = None /\ w' = w)
    /\ (forall ideaId, selected_idea_of (state a) pid = Some ideaId ->
          exists images,
            o = Some (ideaId, images)
            /\ length (calls w') = length (calls w) + genCount a
            /\ Forall (fun img => GeneratedImage.ideaId img = ideaId) images
            /\ ((forall k, k < genCount a -> no_image_at env (length (calls w) + k))
                -> images = [])
            /\ ((exists k, k < genCount a /\ image_at env (length (calls w) + k))
                -> images <> [])).
Proof.
  intros Hready Hin. unfold images_found.
  destruct (selected_idea_of (state a) pid) as [ideaId|] eqn:Hsel.
  - destruct (Hready pid ideaId Hin Hsel) as (ideas & idea & persona & Hi & Hf & Hp).
    rewrite Hi. unfold bind at 1. cbn [nonnull]. unfold ret at 1.
    rewrite Hf. unfold bind at 1. cbn [nonnull]. unfold ret at 1.
    rewrite Hp. unfold bind at 1. cbn [nonnull]. unfold ret at 1.
    destruct (generateUGCImages_returns env persona idea
                (default [] (refinementData (state a) !! ideaId)) (genCount a) (genQuality a) w)
      as (images & w' & Hrun & Hlen & Hforall & Hnone & Hsome).
    unfold bind. rewrite Hrun. unfold ret. exists (Some (ideaId, images)), w'.
    split; [done|]. split; [done|]. intros ? [= <-]. exists images.
    apply find_idea_some in Hf as [Hid _]. rewrite Hid in Hforall. done.
  - exists None, w. unfold ret. split; [done|]. split; [done|]. done.
Qed.

End Generation.

Lemma proceedToGeneration_iteration (env : Env) (a : App) pid ideaId
    (m m1 : gmap string (list GeneratedImage.t)) (w w1 : World) :
  ready_for_generation a ->
  pid ∈ selectedPersonaIds (state a) ->
  selected_idea_of (state a) pid = Some ideaId ->
  (o <- images_found env a pid ;; ret (collect o m)) w = (Ok m1, w1) ->
  exists images,
    m1 = <[ideaId := images]> m
    /\ length (calls w1) = length (calls w) + genCount a
    /\ ((forall k, k < genCount a -> no_image_at env (length (calls w) + k)) -> images = [])
    /\ ((exists k, k < genCount a /\ image_at env (length (calls w) + k)) -> images <> []).
Proof.
  intros Hready Hin Hsel Hrun.
  destruct (images_found_returns env a pid w Hready Hin) as (o & w' & Hfound & _ & Hsome).
  destruct (Hsome ideaId Hsel) as (images & -> & Hlen & _ & Hnone & Himg).
  unfold bind in Hrun. rewrite Hfound in Hrun. unfold ret in Hrun. simplify_eq.
  by exists images.
Qed.

Lemma rejected_no_image (env : Env) (n : nat) : rejected_at env n -> no_image_at env n.
Proof. intros H req. by rewrite H. Qed.

Lemma for_of_app {A St} (l1 l2 : list A) (body : A -> St -> M St) (s : St) (w : World) :
  for_of (l1 ++ l2) body s w = (s1 <- for_of l1 body s ;; for_of l2 body s1) w.
Proof.
  revert s w. induction l1 as [|x l1 IH]; intros s w; cbn [app for_of]; [done|].
  unfold bind. destruct (body x s w) as [[s'|e] w']; [|done].
  rewrite IH. reflexivity.
Qed.

Section ImageContents.
Context (env : Env).

Lemma omap_cons_some {A B} (f : A -> option B) (x : A) (l : list A) (y : B) :
  f x = Some y -> omap f (x :: l) = y :: omap f l.
Proof. intros H. cbn. by rewrite H. Qed.

Lemma omap_cons_none {A B} (f : A -> option B) (x : A) (l : list A) :
  f x = None -> omap f (x :: l) = omap f l.
Proof. intros H. cbn. by rewrite H. Qed.

Lemma collect_images_urls idea fullPrompt i response results (w : World) :
  exists images w',
    collect_images env idea fullPrompt i response results w = (Ok (results ++ images), w')
    /\ calls w' = calls w
    /\ GeneratedImage.imageUrl <$> images = image_urls response
    /\ Forall (fun img => GeneratedImage.ideaId img = GeneratedIdea.id idea) images.
Proof.
  unfold collect_images, image_urls. revert results w.
  induction (candidateParts response) as [|part parts IH]; intros results w; cbn [for_of].
  - exists [], w. unfold ret. rewrite app_nil_r. by repeat split.
  - destruct (inlineData part) as [data|] eqn:Hd.
    + unfold bind at 1. unfold bind at 1. unfold now at 1. unfold ret at 1.
      match goal with
      | |- context [for_of parts _ ?r ?w1] =>
          destruct (IH r w1) as (images & w' & Hl & Hc & Hu & Hf)
      end.
      rewrite Hl. eexists (_ :: images), w'. rewrite <- app_assoc.
      split; [done|]. split; [done|]. split; [|by constructor].
      rewrite fmap_cons, Hu. symmetry. apply omap_cons_some. by rewrite Hd.
    + unfold bind at 1. unfold ret at 1.
      destruct (IH results w) as (images & w' & Hl & Hc & Hu & Hf).
      exists images, w'. split; [done|]. split; [done|]. split; [|done].
      rewrite Hu. symmetry. apply omap_cons_none. by rewrite Hd.
Qed.

Lemma call_urls_seq (n count : nat) (req : Request) :
  concat ((fun k => call_urls env (n + k) req) <$> seq 0 (S count))
  = call_urls env n req ++ concat ((fun k => call_urls env (S n + k) req) <$> seq 0 count).
Proof.
  cbn [seq fmap list_fmap concat]. rewrite Nat.add_0_r. f_equal.
  rewrite <- fmap_S_seq, <- list_fmap_compose. f_equal.
  apply list_fmap_ext. intros j k _. cbn. f_equal. lia.
Qed.

Lemma image_loop_urls idea fullPrompt parts quality count start results (w : World) :
  exists images w',
    for_range start count (fun i results =>
      try_catch
        (response <- generateContent env (image_request parts quality) ;;
         collect_images env idea fullPrompt i response results)
        (fun e => console_log "Image generation error" ;;; ret results)) results w
    = (Ok (results ++ images), w')
    /\ calls w' = calls w ++ replicate count (image_request parts quality)
    /\ GeneratedImage.imageUrl <$> images
       = concat ((fun k => call_urls env (length (calls w) + k) (image_request parts quality))
                   <$> seq 0 count)
    /\ Forall (fun img => GeneratedImage.ideaId img = GeneratedIdea.id idea) images.
Proof.
  revert start results w. induction count as [|count IH]; intros start results w.
  - exists [], w. cbn. unfold ret. rewrite !app_nil_r. by repeat split.
  - cbn [for_range]. unfold bind at 1. unfold try_catch at 1. unfold bind at 1.
    unfold generateContent at 1.
    set (w1 := {| calls := calls w ++ [image_request parts quality]; clock := clock w;
                  fetches := fetches w; console := console w |}).
    rewrite call_urls_seq. unfold call_urls at 1.
    destruct (invoke env (length (calls w)) (image_request parts quality))
      as [response|] eqn:Hinv.
    + destruct (collect_images_urls idea fullPrompt start response results w1)
        as (imgs & w2 & Hc & Hcalls & Hu & Hf).
      rewrite Hc.
      destruct (IH (S start) (results ++ imgs) w2) as (images & w' & Hl & Hcalls' & Hu' & Hf').
      rewrite Hl. exists (imgs ++ images), w'. rewrite app_assoc.
      assert (length (calls w2) = S (length (calls w))) as Hlen.
      { rewrite Hcalls. subst w1. cbn. rewrite length_app. cbn. lia. }
      split; [done|]. split.
      { rewrite Hcalls', Hcalls. subst w1. cbn. by rewrite <- app_assoc. }
      split; [|by apply Forall_app].
      rewrite fmap_app, Hu, Hu', Hlen. done.
    + unfold bind at 1. unfold console_log at 1. unfold ret at 1.
      set (w2 := {| calls := calls w1; clock := clock w1; fetches := fetches w1;
                    console := console w1 ++ ["Image generation error"] |}).
      destruct (IH (S start) results w2) as (images & w' & Hl & Hcalls' & Hu' & Hf').
      rewrite Hl. exists images, w'.
      assert (length (calls w2) = S (length (calls w))) as Hlen.
      { subst w2 w1. cbn. rewrite length_app. cbn. lia. }
      split; [done|]. split.
      { rewrite Hcalls'. subst w2 w1. cbn. by rewrite <- app_assoc. }
      split; [|done]. rewrite Hu', Hlen. done.
Qed.

(** The images that [generateUGCImages] returns are those of its calls, in
    the order of the calls: a call that is rejected costs its own images and
    nothing else. *)
Lemma generateUGCImages_urls persona idea requirements count quality (w : World) :
  exists images req w',
    generateUGCImages env persona idea requirements count quality w = (Ok images, w')
    /\ calls w' = calls w ++ replicate count req
    /\ GeneratedImage.imageUrl <$> images
       = concat ((fun k => call_urls env (length (calls w) + k) req) <$> seq 0 count)
    /\ Forall (fun img => GeneratedImage.ideaId img = GeneratedIdea.id idea) images.
Proof.
  unfold generateUGCImages. cbv zeta.
  destruct (image_parts_returns env persona (image_prompt env persona idea requirements)
              requirements w) as (parts & w1 & Hp & Hc).
  unfold bind at 1. rewrite Hp.
  destruct (image_loop_urls idea (image_prompt env persona idea requirements) parts
              quality count 0 [] w1) as (images & w' & Hl & Hcalls & Hu & Hf).
  cbn [app] in Hl. rewrite Hl. exists images, (image_request parts quality), w'.
  rewrite Hc in *. done.
Qed.

Context (a : App).
Hypothesis Hready : ready_for_generation a.

Lemma images_found_urls pid ideaId (w : World) :
  pid ∈ selectedPersonaIds (state a) ->
  selected_idea_of (state a) pid = Some ideaId ->
  exists images req w',
    images_found env a pid w = (Ok (Some (ideaId, images)), w')
    /\ calls w' = calls w ++ replicate (genCount a) req
    /\ GeneratedImage.imageUrl <$> images
       = concat ((fun k => call_urls env (length (calls w) + k) req) <$> seq 0 (genCount a)).
Proof.
  intros Hin Hsel. unfold images_found. rewrite Hsel.
  destruct (Hready pid ideaId Hin Hsel) as (ideas & idea & persona & Hi & Hf & Hp).
  rewrite Hi. unfold bind at 1. cbn [nonnull]. unfold ret at 1.
  rewrite Hf. unfold bind at 1. cbn [nonnull]. unfold ret at 1.
  rewrite Hp. unfold bind at 1. cbn [nonnull]. unfold ret at 1.
  destruct (generateUGCImages_urls persona idea
              (default [] (refinementData (state a) !! ideaId)) (genCount a) (genQuality a) w)
    as (images & req & w' & Hrun & Hcalls & Hu & _).
  unfold bind. rewrite Hrun. unfold ret. by exists images, req, w'.
Qed.

(** The iterations before the one of a persona: each makes its calls. *)
Lemma generation_prefix (pre : list string) (m0 m1 : gmap string (list GeneratedImage.t))
    (w w1 : World) :
  (forall q, q ∈ pre -> q ∈ selectedPersonaIds (state a)) ->
  (forall q, q ∈ pre -> is_Some (selected_idea_of (state a) q)) ->
  for_of pre (fun pid m => o <- images_found env a pid ;; ret (collect o m)) m0 w
  = (Ok m1, w1) ->
  exists extra, calls w1 = calls w ++ extra /\ length extra = genCount a * length pre.
Proof.
  revert m0 w. induction pre as [|q pre IH]; intros m0 w Hin Hsel Hrun; cbn [for_of] in Hrun.
  - unfold ret in Hrun. simplify_eq. exists []. rewrite app_nil_r. cbn. split; [done|lia].
  - apply bind_ok in Hrun as (m2 & w2 & Hq & Hrun).
    destruct (Hsel q) as [ideaId Hid]; [by left|].
    destruct (images_found_urls q ideaId w) as (images & req & w' & Hfound & Hcalls & _);
      [apply Hin; by left|done|].
    unfold bind in Hq. rewrite Hfound in Hq. unfold ret in Hq. simplify_eq.
    apply IH in Hrun as (extra & Hextra & Hlen).
    + exists (replicate (genCount a) req ++ extra). split.
      * by rewrite Hextra, Hcalls, <- app_assoc.
      * rewrite length_app, length_replicate, Hlen. cbn. lia.
    + intros q' Hq'. apply Hin. by right.
    + intros q' Hq'. apply Hsel. by right.
Qed.

(** The iterations after it: none writes to the entry of its idea, and the
    log of the requests only grows. *)
Lemma generation_suffix (post : list string) (ideaId : string)
    (m2 m : gmap string (list GeneratedImage.t)) (w2 w' : World) :
  (forall q, q ∈ post -> q ∈ selectedPersonaIds (state a)) ->
  (forall q, q ∈ post -> selected_idea_of (state a) q <> Some ideaId) ->
  for_of post (fun pid m => o <- images_found env a pid ;; ret (collect o m)) m2 w2
  = (Ok m, w') ->
  m !! ideaId = m2 !! ideaId /\ exists extra, calls w' = calls w2 ++ extra.
Proof.
  revert m2 w2. induction post as [|q post IH]; intros m2 w2 Hin Hother Hrun;
    cbn [for_of] in Hrun.
  - unfold ret in Hrun. simplify_eq. split; [done|]. exists []. by rewrite app_nil_r.
  - apply bind_ok in Hrun as (m3 & w3 & Hq & Hrun).
    apply IH in Hrun as (Hm & extra & Hextra).
    2:{ intros q' Hq'. apply Hin. by right. }
    2:{ intros q' Hq'. apply Hother. by right. }
    destruct (selected_idea_of (state a) q) as [k|] eqn:Hk.
    + destruct (images_found_urls q k w2) as (images & req & w3' & Hfound & Hcalls & _);
        [apply Hin; by left|done|].
      unfold bind in Hq. rewrite Hfound in Hq. unfold ret in Hq. simplify_eq.
      split.
      * rewrite Hm. cbn. apply lookup_insert_ne. intros ->.
        apply (Hother q); [by left|done].
      * exists (replicate (genCount a) req ++ extra). by rewrite Hextra, Hcalls, <- app_assoc.
    + unfold images_found in Hq. rewrite Hk in Hq. unfold bind, ret in Hq. simplify_eq.
      split; [done|]. by exists extra.
Qed.

(** The entry of an idea after the loop: the images of the calls of its
    persona, which stand in the log after those of the personas before. *)
Lemma generation_entry (pre : list string) (pid : string) (post : list string)
    (ideaId : string) (m : gmap string (list GeneratedImage.t)) (w w' : World) :
  selectedPersonaIds (state a) = pre ++ pid :: post ->
  (forall q, q ∈ pre -> is_Some (selected_idea_of (state a) q)) ->
  selected_idea_of (state a) pid = Some ideaId ->
  (forall q, q ∈ post -> selected_idea_of (state a) q <> Some ideaId) ->
  for_of (selectedPersonaIds (state a))
    (fun pid m => o <- images_found env a pid ;; ret (collect o m)) ∅ w = (Ok m, w') ->
  exists images req,
    m !! ideaId = Some images
    /\ (forall k, k < genCount a ->
          calls w' !! (length (calls w) + genCount a * length pre + k) = Some req)
    /\ GeneratedImage.imageUrl <$> images
       = concat ((fun k => call_urls env (length (calls w) + genCount a * length pre + k) req)
                   <$> seq 0 (genCount a)).
Proof.
  intros Hl Hpre Hsel Hpost Hrun.
  assert (forall q, q ∈ pre -> q ∈ selectedPersonaIds (state a)) as Hin_pre.
  { intros q Hq. rewrite Hl. apply elem_of_app. by left. }
  assert (pid ∈ selectedPersonaIds (state a)) as Hin.
  { rewrite Hl. apply elem_of_app. right. by left. }
  assert (forall q, q ∈ post -> q ∈ selectedPersonaIds (state a)) as Hin_post.
  { intros q Hq. rewrite Hl. apply elem_of_app. right. by right. }
  rewrite Hl, for_of_app in Hrun.
  apply bind_ok in Hrun as (m1 & w1 & Hrun_pre & Hrun). cbn [for_of] in Hrun.
  apply bind_ok in Hrun as (m2 & w2 & Hrun_pid & Hrun_post).
  destruct (generation_prefix pre ∅ m1 w w1 Hin_pre Hpre Hrun_pre) as (extra1 & Hcalls1 & Hlen1).
  destruct (images_found_urls pid ideaId w1 Hin Hsel)
    as (images & req & w2' & Hfound & Hcalls2 & Hurls).
  unfold bind in Hrun_pid. rewrite Hfound in Hrun_pid. unfold ret in Hrun_pid. simplify_eq.
  destruct (generation_suffix post ideaId _ m w2 w' Hin_post Hpost Hrun_post)
    as (Hm & extra3 & Hcalls3).
  assert (length (calls w1) = length (calls w) + genCount a * length pre) as Hlen.
  { rewrite Hcalls1, length_app. lia. }
  exists images, req. split; [|split].
  - rewrite Hm. cbn. apply lookup_insert_eq.
  - intros k Hk. rewrite Hcalls3, Hcalls2, <- Hlen.
    rewrite lookup_app_l by (rewrite length_app, length_replicate; lia).
    rewrite lookup_app_r by lia.
    replace (length (calls w1) + k - length (calls w1)) with k by lia.
    by apply lookup_replicate_2.
  - by rewrite <- Hlen.
Qed.

End ImageContents.

Lemma for_of_ext {A St} (l : list A) (body body' : A -> St -> M St) (s : St) (w : World) :
  (forall x s w, body x s w = body' x s w) ->
  for_of l body s w = for_of l body' s w.
Proof.
  intros Hext. revert s w. induction l as [|x l IH]; intros s w; cbn [for_of]; [done|].
  unfold bind. rewrite Hext. destruct (body' x s w) as [[s'|e] w']; [apply IH|done].
Qed.

Lemma call_urls_no_image (env : Env) (n : nat) (req : Request) :
  no_image_at env n -> call_urls env n req = [].
Proof.
  intros Hno. specialize (Hno req). unfold call_urls, image_urls.
  destruct (invoke env n req) as [response|]; [|done].
  induction (candidateParts response) as [|part parts IH]; [done|].
  cbn in Hno. destruct (inlineData part) as [data|] eqn:Hd; [done|].
  rewrite omap_cons_none by (by rewrite Hd). by apply IH.
Qed.

Lemma call_urls_image (env : Env) (n : nat) (req : Request) :
  image_at env n -> call_urls env n req <> [].
Proof.
  intros Himg. destruct (Himg req) as (response & Hinv & [d Hd]).
  unfold call_urls, image_urls. rewrite Hinv.
  induction (candidateParts response) as [|part parts IH]; [done|].
  cbn in Hd. destruct (inlineData part) as [data|] eqn:Hp.
  - by erewrite omap_cons_some by (by rewrite Hp).
  - rewrite omap_cons_none by (by rewrite Hp). by apply IH.
Qed.

(** C3. With every selected persona's selected idea in place,
    [proceedToGeneration] returns with the step at [editing] and the error
    hook as it was, whatever the capability does with the calls: a call that
    fails is skipped, and costs the images of that call only. Every
    selected idea has an entry in [generatedImages], made of images of that
    idea. The entry of an idea holds the images of the calls of its persona,
    one for each part with image content, in the order of the calls, those
    calls standing in the log after the calls of the personas before; so a
    call that returns image content after one that failed has its images
    in the entry. With three personas and two images asked for, when one
    of the two calls of the first persona and one of the two of the third
    return image content and both calls of the second persona are rejected,
    the first and the third idea have non-empty lists, and the second the
    empty list. *)
Theorem proceedToGeneration_skips_failed_calls (env : Env) (a : App) (w : World) :
  ready_for_generation a ->
  exists a' w',
    proceedToGeneration env a w = (Ok a', w')
    /\ step (state a') = Step.editing
    /\ error a' = error a
    /\ loading a' = false
    /\ (forall pid ideaId,
          pid ∈ selectedPersonaIds (state a) ->
          selected_idea_of (state a) pid = Some ideaId ->
          exists images,
            generatedImages (state a') !! ideaId = Some images
            /\ Forall (fun img => GeneratedImage.ideaId img = ideaId) images)
    /\ (forall pre pid post ideaId,
          selectedPersonaIds (state a) = pre ++ pid :: post ->
          (forall q, q ∈ pre -> is_Some (selected_idea_of (state a) q)) ->
          selected_idea_of (state a) pid = Some ideaId ->
          (forall q, q ∈ post -> selected_idea_of (state a) q <> Some ideaId) ->
          exists images req,
            generatedImages (state a') !! ideaId = Some images
            /\ (forall k, k < genCount a ->
                  calls w' !! (length (calls w) + genCount a * length pre + k) = Some req)
            /\ GeneratedImage.imageUrl <$> images
               = concat ((fun k => call_urls env
                                     (length (calls w) + genCount a * length pre + k) req)
                           <$> seq 0 (genCount a)))
    /\ (forall pA pB pC iA iB iC,
          selectedPersonaIds (state a) = [pA; pB; pC] ->
          selected_idea_of (state a) pA = Some iA ->
          selected_idea_of (state a) pB = Some iB ->
          selected_idea_of (state a) pC = Some iC ->
          iA <> iB -> iA <> iC -> iB <> iC ->
          genCount a = 2 ->
          (exists k, k < 2 /\ image_at env (length (calls w) + k)) ->
          rejected_at env (length (calls w) + 2) ->
          rejected_at env (length (calls w) + 3) ->
          (exists k, k < 2 /\ image_at env (length (calls w) + 4 + k)) ->
          exists imagesA imagesC,
            generatedImages (state a') !! iA = Some imagesA /\ imagesA <> []
            /\ generatedImages (state a') !! iB = Some []
            /\ generatedImages (state a') !! iC = Some imagesC /\ imagesC <> []).
Proof.
  intros Hready. unfold proceedToGeneration. cbv zeta.
  cbn [personas genCount genQuality setState setLoading setLoadingMsg].
  unfold bind at 1. unfold try_catch. unfold bind at 1.
  match goal with
  | |- context [for_of ?l ?body ?m0 w] =>
      destruct (for_of_collect_returns l (images_found env a) body m0 w) as (m & w' & Hloop);
        [ intros; apply proceedToGeneration_body
        | intros pid w0 Hin;
          destruct (images_found_returns env a pid w0 Hready Hin) as (o & w1 & Hf & _); eauto
        | ]
  end.
  rewrite Hloop. unfold ret. eexists _, w'. split; [reflexivity|]. cbn.
  split; [done|]. split; [done|]. split; [done|]. split; [|split].
  - apply (for_of_collect_ok _ (images_found env a)) in Hloop as [Hkeys Hall];
      [|intros; apply proceedToGeneration_body].
    intros pid ideaId Hin Hsel.
    destruct (Hall pid Hin) as (o & w1 & w2 & Hfound & Hsome).
    destruct (images_found_returns env a pid w1 Hready Hin) as (o' & w2' & Hfound' & _ & Hsel').
    destruct (Hsel' ideaId Hsel) as (images0 & -> & _).
    rewrite Hfound' in Hfound. simplify_eq.
    destruct (Hsome ideaId images0 eq_refl) as [images Himages].
    exists images. split; [done|].
    destruct (Hkeys ideaId images Himages) as [Hempty|(pid' & w3 & w4 & Hin' & Hfound3)].
    { by rewrite lookup_empty in Hempty. }
    destruct (images_found_returns env a pid' w3 Hready Hin') as (o3 & w4' & Hf3 & _ & Hsel3).
    rewrite Hf3 in Hfound3. simplify_eq.
    destruct (selected_idea_of (state a) pid') as [ideaId'|] eqn:Hsel''.
    + destruct (Hsel3 ideaId' eq_refl) as (images' & [= -> ->] & _ & Hforall & _). done.
    + unfold images_found in Hf3. rewrite Hsel'' in Hf3. discriminate.
  - intros pre pid post ideaId Hl Hpre Hsel Hpost.
    eapply (generation_entry env a Hready pre pid post ideaId m w w'); try done.
    rewrite <- Hloop. symmetry. apply for_of_ext.
    intros pid0 m0 w0. apply proceedToGeneration_body.
  - intros pA pB pC iA iB iC Hl HA HB HC HAB HAC HBC Hcount
           (kA & HkA & HimgA) HrejB1 HrejB2 (kC & HkC & HimgC).
    rewrite Hl in Hloop. cbn [for_of] in Hloop.
    assert (pA ∈ selectedPersonaIds (state a)) as HinA by (rewrite Hl; set_solver).
    assert (pB ∈ selectedPersonaIds (state a)) as HinB by (rewrite Hl; set_solver).
    assert (pC ∈ selectedPersonaIds (state a)) as HinC by (rewrite Hl; set_solver).
    apply bind_ok in Hloop as (mA & wA & H1 & Hloop).
    apply bind_ok in Hloop as (mB & wB & H2 & Hloop).
    apply bind_ok in Hloop as (mC & wC & H3 & Hloop).
    unfold ret in Hloop. simplify_eq.
    rewrite proceedToGeneration_body in H1, H2, H3.
    destruct (proceedToGeneration_iteration env a pA iA _ _ _ _ Hready HinA HA H1)
      as (imagesA & -> & HlenA & _ & HsomeA).
    destruct (proceedToGeneration_iteration env a pB iB _ _ _ _ Hready HinB HB H2)
      as (imagesB & -> & HlenB & HnoneB & _).
    destruct (proceedToGeneration_iteration env a pC iC _ _ _ _ Hready HinC HC H3)
      as (imagesC & -> & HlenC & _ & HsomeC).
    rewrite Hcount in *.
    assert (imagesB = []) as ->.
    { apply HnoneB. intros k Hk. rewrite HlenA. apply rejected_no_image.
      destruct k as [|[|k]]; [| |lia].
      - by rewrite Nat.add_0_r.
      - by replace (length (calls w) + 2 + 1) with (length (calls w) + 3) by lia. }
    exists imagesA, imagesC. repeat split.
    + by rewrite lookup_insert_ne, lookup_insert_ne, lookup_insert_eq.
    + apply HsomeA. by exists kA.
    + by rewrite lookup_insert_ne, lookup_insert_eq.
    + by rewrite lookup_insert_eq.
    + apply HsomeC. exists kC. split; [done|]. rewrite HlenB, HlenA.
      by replace (length (calls w) + 2 + 2 + kC) with (length (calls w) + 4 + kC) by lia.
Qed.

Lemma three_personas_ready : ready_for_generation three_personas_app.
Proof.
  intros pid ideaId Hin Hsel.
  change (selectedPersonaIds (state three_personas_app)) with ["p1"; "p2"; "p3"] in Hin.
  repeat (apply elem_of_cons in Hin as [->|Hin]);
    [ | | | by apply elem_of_nil in Hin ];
    vm_compute in Hsel; injection Hsel as <-.
  - exists [idea_for jakob "Coffee at Dolac"], (idea_for jakob "Coffee at Dolac"), jakob.
    repeat split; vm_compute; reflexivity.
  - exists [idea_for sofia "City walls"], (idea_for sofia "City walls"), sofia.
    repeat split; vm_compute; reflexivity.
  - exists [idea_for mila "Fish market"], (idea_for mila "Fish market"), mila.
    repeat split; vm_compute; reflexivity.
Defined.

(** The scenario of the specification: three personas, two images each, the
    calls of the second persona rejected. *)
Lemma proceedToGeneration_second_persona_fails :
  exists a',
    fst (proceedToGeneration second_persona_fails three_personas_app world0) = Ok a'
    /\ step (state a') = Step.editing
    /\ exists imagesA imagesC,
         generatedImages (state a') !! "p1-idea-1700000000000-0" = Some imagesA
         /\ imagesA <> []
         /\ generatedImages (state a') !! "p2-idea-1700000000000-0" = Some []
         /\ generatedImages (state a') !! "p3-idea-1700000000000-0" = Some imagesC
         /\ imagesC <> [].
Proof.
  destruct (proceedToGeneration_skips_failed_calls second_persona_fails three_personas_app
              world0 three_personas_ready)
    as (a' & w' & Hrun & Hstep & _ & _ & _ & _ & Hscenario).
  exists a'. split; [by rewrite Hrun|]. split; [exact Hstep|].
  apply (Hscenario "p1" "p2" "p3" "p1-idea-1700000000000-0" "p2-idea-1700000000000-0"
           "p3-idea-1700000000000-0").
  - reflexivity.
  - vm_compute. reflexivity.
  - vm_compute. reflexivity.
  - vm_compute. reflexivity.
  - discriminate.
  - discriminate.
  - discriminate.
  - reflexivity.
  - exists 0. split; [lia|]. intros req. eexists. split; [reflexivity|]. by eexists.
  - intros req. reflexivity.
  - intros req. reflexivity.
  - exists 0. split; [lia|]. intros req. eexists. split; [reflexivity|]. by eexists.
Defined.

(** The first call of the run rejected and the others answered: the first
    idea has the image of its second call. *)
Lemma proceedToGeneration_first_call_fails_computed :
  (fun a' => (step (state a'),
              List.map (fun k => match generatedImages (state a') !! k with
                                 | Some images => Some (List.map GeneratedImage.imageUrl images)
                                 | None => None
                                 end)
                ["p1-idea-1700000000000-0"; "p2-idea-1700000000000-0"]))
    <$> returned (proceedToGeneration first_call_fails three_personas_app world0)
  = Some (Step.editing,
          [Some ["data:image/png;base64,IMG"];
           Some ["data:image/png;base64,IMG"; "data:image/png;base64,IMG"]]).
Proof. vm_compute. reflexivity. Qed.

(** The same run, computed: two images for the first and for the third
    idea, none for the second, and the step at [editing]. *)
Lemma proceedToGeneration_second_persona_fails_computed :
  (fun a' => (step (state a'), error a',
              (fun k => length <$> generatedImages (state a') !! k)
                <$> ["p1-idea-1700000000000-0"; "p2-idea-1700000000000-0";
                     "p3-idea-1700000000000-0"]))
    <$> returned (proceedToGeneration second_persona_fails three_personas_app world0)
  = Some (Step.editing, None, [Some 2; Some 0; Some 2]).
Proof. vm_compute. reflexivity. Qed.

(** ** C1 and C4: what every session keeps *)

Lemma idea_reachable_ext (s s' : WorkflowState) (k : string) :
  selectedPersonaIds s' = selectedPersonaIds s ->
  selectedIdeaIds s' = selectedIdeaIds s ->
  generatedIdeas s' = generatedIdeas s ->
  idea_reachable s k -> idea_reachable s' k.
Proof. intros H1 H2 H3. unfold idea_reachable. by rewrite H1, H2, H3. Qed.

(** The disabled condition of the Next Step button compares two counts; on a
    state without duplicates among the selected personas and without a
    stray key in [selectedIdeaIds], equal counts mean an idea for every
    selected persona. *)
Lemma counts_equal_every_persona_has_idea (s : WorkflowState) :
  NoDup (selectedPersonaIds s) ->
  (forall k, is_Some (selectedIdeaIds s !! k) -> k ∈ selectedPersonaIds s) ->
  next_step_disabled s = false ->
  every_persona_has_idea s.
Proof.
  intros Hnd Hkeys Hcount pid Hin.
  unfold next_step_disabled in Hcount. apply negb_false_iff, Nat.eqb_eq in Hcount.
  assert (dom (selectedIdeaIds s) = list_to_set (selectedPersonaIds s) :> gset string) as Hdom.
  { apply set_subseteq_size_eq.
    - intros k Hk. apply elem_of_dom in Hk. apply elem_of_list_to_set. by apply Hkeys.
    - rewrite size_dom, size_list_to_set by done. lia. }
  apply elem_of_dom. rewrite Hdom. by apply elem_of_list_to_set.
Qed.

Lemma NoDup_remove_id (id : string) (l : list string) :
  NoDup l -> NoDup (List.filter (fun pid => negb (String.eqb pid id)) l).
Proof.
  induction 1 as [|x l Hx Hl IH]; cbn; [constructor|].
  destruct (negb (String.eqb x id)); [|done].
  constructor; [|done]. intros Hin. apply Hx.
  apply list_elem_of_In in Hin. apply List.filter_In in Hin as [Hin _].
  by apply list_elem_of_In.
Qed.

Lemma NoDup_toggle (id : string) (l : list string) :
  NoDup l ->
  NoDup (if bool_decide (id ∈ l)
         then List.filter (fun pid => negb (String.eqb pid id)) l
         else l ++ [id]).
Proof.
  intros Hnd. case_bool_decide as Hin.
  - by apply NoDup_remove_id.
  - apply NoDup_app. split; [done|]. split; [|apply NoDup_singleton].
    intros x Hx Hx'. apply list_elem_of_singleton in Hx'. by subst.
Qed.

Lemma no_orphans_empty (s : WorkflowState) :
  selectedIdeaIds s = ∅ -> idea_maps_empty s -> no_orphans s.
Proof.
  intros Hsel (Hr & Hg & Hc). unfold no_orphans. rewrite Hsel, Hr, Hg, Hc.
  repeat split; intros k [v Hk]; by rewrite lookup_empty in Hk.
Qed.

Lemma no_orphans_ideation (s : WorkflowState) :
  (forall k, is_Some (selectedIdeaIds s !! k) -> k ∈ selectedPersonaIds s) ->
  idea_maps_empty s -> no_orphans s.
Proof.
  intros Hsel (Hr & Hg & Hc). unfold no_orphans. rewrite Hr, Hg, Hc.
  split; [done|]. repeat split; intros k [v Hk]; by rewrite lookup_empty in Hk.
Qed.

Lemma workflow_inv_initial : workflow_inv initial_state.
Proof.
  unfold workflow_inv. cbn. split; [constructor|].
  split; [by apply no_orphans_empty|]. repeat split; done.
Qed.

Lemma selected_idea_of_some (s : WorkflowState) (pid k : string) :
  selected_idea_of s pid = Some k -> selectedIdeaIds s !! pid = Some k.
Proof.
  unfold selected_idea_of. destruct (selectedIdeaIds s !! pid) as [i|]; [|done].
  destruct (nonempty i); [|done]. by intros [= ->].
Qed.

Section HandlerStates.
Context (env : Env).

Lemma generateIdeas_state m a w a' w' :
  generateIdeas env m a w = (Ok a', w') ->
  state a' = state a
  \/ exists ideasMap,
       state a' = set_step Step.ideation (set_mode (Some m) (set_generatedIdeas ideasMap (state a))).
Proof.
  unfold generateIdeas. cbv zeta. intros H.
  apply bind_ok in H as (a1 & w1 & H & Hret). unfold ret in Hret. simplify_eq.
  unfold try_catch in H.
  match type of H with
  | match ?loop ?w0 with _ => _ end = _ => destruct (loop w0) as [[a2|e] w2] eqn:Hloop
  end.
  - simplify_eq. apply bind_ok in Hloop as (ideasMap & w3 & _ & Hret).
    unfold ret in Hret. simplify_eq. right. by eexists.
  - unfold bind, console_log, ret in H. simplify_eq. by left.
Qed.

Lemma regenerateIdea_state pid a w a' w' :
  regenerateIdea env pid a w = (Ok a', w') ->
  state a' = state a
  \/ exists newIdeas,
       state a' = set_generatedIdeas (<[pid := newIdeas]> (generatedIdeas (state a))) (state a).
Proof.
  unfold regenerateIdea. cbv zeta. intros H.
  apply bind_ok in H as (a1 & w1 & H & Hret). unfold ret in Hret. simplify_eq.
  unfold try_catch in H.
  match type of H with
  | match ?body ?w0 with _ => _ end = _ => destruct (body w0) as [[a2|e] w2] eqn:Hbody
  end.
  - simplify_eq. apply bind_ok in Hbody as (p & w3 & _ & Hbody).
    apply bind_ok in Hbody as (newIdeas & w4 & _ & Hret).
    unfold ret in Hret. simplify_eq. right. by eexists.
  - unfold bind, console_log, ret in H. simplify_eq. by left.
Qed.

Lemma requirements_found_reachable a pid k v w w' :
  pid ∈ selectedPersonaIds (state a) ->
  requirements_found env a pid w = (Ok (Some (k, v)), w') ->
  idea_reachable (state a) k.
Proof.
  intros Hin. unfold requirements_found.
  destruct (selected_idea_of (state a) pid) as [ideaId|] eqn:Hsel; [|discriminate].
  intros H. apply bind_ok in H as (ideas & w1 & Hi & H). apply nonnull_ok in Hi as [Hi ->].
  destruct (find_idea ideaId ideas) as [idea|] eqn:Hf; [|discriminate].
  apply bind_ok in H as (p & w2 & _ & H). apply bind_ok in H as (reqs & w3 & _ & H).
  unfold ret in H. simplify_eq.
  apply find_idea_some in Hf as [Hid Helem]. apply selected_idea_of_some in Hsel.
  exists pid, ideas, idea. by rewrite Hid.
Qed.

Lemma images_found_reachable a pid k v w w' :
  pid ∈ selectedPersonaIds (state a) ->
  images_found env a pid w = (Ok (Some (k, v)), w') ->
  idea_reachable (state a) k.
Proof.
  intros Hin. unfold images_found.
  destruct (selected_idea_of (state a) pid) as [ideaId|] eqn:Hsel; [|discriminate].
  intros H. apply bind_ok in H as (ideas & w1 & Hi & H). apply nonnull_ok in Hi as [Hi ->].
  apply bind_ok in H as (idea & w2 & Hf & H). apply nonnull_ok in Hf as [Hf ->].
  apply bind_ok in H as (p & w3 & _ & H). apply bind_ok in H as (images & w4 & _ & H).
  unfold ret in H. simplify_eq.
  apply find_idea_some in Hf as [Hid Helem]. apply selected_idea_of_some in Hsel.
  by exists pid, ideas, idea.
Qed.

Lemma caption_found_reachable a pid k v w w' :
  pid ∈ selectedPersonaIds (state a) ->
  caption_found env a pid w = (Ok (Some (k, v)), w') ->
  idea_reachable (state a) k.
Proof.
  intros Hin. unfold caption_found.
  intros H. apply bind_ok in H as (ideas & w1 & Hi & H). apply nonnull_ok in Hi as [Hi ->].
  apply bind_ok in H as (ideaId & w2 & Hsel & H). apply nonnull_ok in Hsel as [Hsel ->].
  apply bind_ok in H as (idea & w3 & Hf & H). apply nonnull_ok in Hf as [Hf ->].
  apply bind_ok in H as (p & w4 & _ & H). apply bind_ok in H as (caption & w5 & _ & H).
  unfold ret in H. simplify_eq.
  apply find_idea_some in Hf as [Hid Helem].
  by exists pid, ideas, idea.
Qed.

Lemma proceedToRefinement_state a w a' w' :
  proceedToRefinement env a w = (Ok a', w') ->
  state a' = state a
  \/ exists refinementMap,
       state a' = set_step Step.refinement (set_refinementData refinementMap (state a))
       /\ forall k, is_Some (refinementMap !! k) -> idea_reachable (state a) k.
Proof.
  unfold proceedToRefinement. cbv zeta. intros H.
  apply bind_ok in H as (a1 & w1 & H & Hret). unfold ret in Hret. simplify_eq.
  unfold try_catch in H.
  match type of H with
  | match ?loop ?w0 with _ => _ end = _ => destruct (loop w0) as [[a2|e] w2] eqn:Hloop
  end.
  - simplify_eq. apply bind_ok in Hloop as (refinementMap & w3 & Hloop & Hret).
    unfold ret in Hret. simplify_eq. right. exists refinementMap. split; [done|].
    apply (for_of_collect_ok _ (requirements_found env a)) in Hloop as [Hkeys _].
    + intros k [v Hk]. destruct (Hkeys k v Hk) as [Hempty|(pid & wa & wb & Hin & Hfound)].
      * by rewrite lookup_empty in Hempty.
      * by eapply requirements_found_reachable.
    + intros pid mp w0. unfold requirements_found. cbn.
      destruct (selected_idea_of (state a) pid) as [ideaId|]; [|done].
      unfold bind. destruct (nonnull _ w0) as [[ideas|e] w4]; [|done].
      destruct (find_idea ideaId ideas) as [idea|]; [|done].
      destruct (nonnull _ w4) as [[p|e] w5]; [|done].
      by destruct (analyzeIdeaRequirements _ _ _ w5) as [[reqs|e] w6].
  - unfold ret in H. simplify_eq. by left.
Qed.

Lemma proceedToGeneration_state a w a' w' :
  proceedToGeneration env a w = (Ok a', w') ->
  state a' = set_step Step.generation (state a)
  \/ exists imagesMap,
       state a' = set_step Step.editing
                    (set_generatedImages imagesMap (set_step Step.generation (state a)))
       /\ forall k, is_Some (imagesMap !! k) -> idea_reachable (state a) k.
Proof.
  unfold proceedToGeneration. cbv zeta. intros H.
  apply bind_ok in H as (a1 & w1 & H & Hret). unfold ret in Hret. simplify_eq.
  unfold try_catch in H.
  match type of H with
  | match ?loop ?w0 with _ => _ end = _ => destruct (loop w0) as [[a2|e] w2] eqn:Hloop
  end.
  - simplify_eq. apply bind_ok in Hloop as (imagesMap & w3 & Hloop & Hret).
    unfold ret in Hret. simplify_eq. right. exists imagesMap. split; [done|].
    apply (for_of_collect_ok _ (images_found env a)) in Hloop as [Hkeys _].
    + intros k [v Hk]. destruct (Hkeys k v Hk) as [Hempty|(pid & wa & wb & Hin & Hfound)].
      * by rewrite lookup_empty in Hempty.
      * by eapply images_found_reachable.
    + intros pid mp w0. cbn [personas genCount genQuality setState setLoading setLoadingMsg].
      apply proceedToGeneration_body.
  - unfold bind, console_log, ret in H. simplify_eq. by left.
Qed.

Lemma proceedToCaptions_state a w a' w' :
  proceedToCaptions env a w = (Ok a', w') ->
  state a' = set_step Step.captions (state a)
  \/ exists captionsMap,
       state a' = set_captions captionsMap (set_step Step.captions (state a))
       /\ forall k, is_Some (captionsMap !! k) -> idea_reachable (state a) k.
Proof.
  unfold proceedToCaptions. cbv zeta. intros H.
  apply bind_ok in H as (a1 & w1 & H & Hret). unfold ret in Hret. simplify_eq.
  unfold try_catch in H.
  match type of H with
  | match ?loop ?w0 with _ => _ end = _ => destruct (loop w0) as [[a2|e] w2] eqn:Hloop
  end.
  - simplify_eq. apply bind_ok in Hloop as (captionsMap & w3 & Hloop & Hret).
    unfold ret in Hret. simplify_eq. right. exists captionsMap. split; [done|].
    apply (for_of_collect_ok _ (caption_found env a)) in Hloop as [Hkeys _].
    + intros k [v Hk]. destruct (Hkeys k v Hk) as [Hempty|(pid & wa & wb & Hin & Hfound)].
      * by rewrite lookup_empty in Hempty.
      * by eapply caption_found_reachable.
    + intros pid mp w0. unfold caption_found. cbn. unfold bind.
      destruct (nonnull _ w0) as [[ideas|e] w4]; [|done].
      destruct (nonnull _ w4) as [[ideaId|e] w5]; [|done].
      destruct (nonnull _ w5) as [[idea|e] w6]; [|done].
      destruct (nonnull _ w6) as [[p|e] w7]; [|done].
      by destruct (generateCaptionStrategy _ _ _ w7) as [[c|e] w8].
  - unfold ret in H. simplify_eq. by left.
Qed.

Lemma handleEditImage_state ideaId imageId a w a' w' :
  handleEditImage env ideaId imageId a w = (Ok a', w') ->
  state a' = state a
  \/ exists images images',
       generatedImages (state a) !! ideaId = Some images
       /\ state a' = set_generatedImages (<[ideaId := images']> (generatedImages (state a)))
                       (state a).
Proof.
  unfold handleEditImage.
  destruct (editInputs a !! imageId) as [input|]; [|unfold ret; intros; simplify_eq; by left].
  destruct (negb (nonempty input)); [unfold ret; intros; simplify_eq; by left|].
  cbv zeta. intros H.
  apply bind_ok in H as (a1 & w1 & H & Hret). unfold ret in Hret. simplify_eq.
  unfold try_catch in H.
  match type of H with
  | match ?body ?w0 with _ => _ end = _ => destruct (body w0) as [[a2|e] w2] eqn:Hbody
  end.
  - simplify_eq. apply bind_ok in Hbody as (images & w3 & Hi & Hbody).
    apply nonnull_ok in Hi as [Hi ->].
    apply bind_ok in Hbody as (img & w4 & _ & Hbody).
    apply bind_ok in Hbody as (newImage & w5 & _ & Hbody).
    apply bind_ok in Hbody as (current & w6 & _ & Hret).
    unfold ret in Hret. simplify_eq. right. by eexists _, _.
  - unfold ret in H. simplify_eq. by left.
Qed.

Lemma update_requirement_state ideaId reqId f a w a' w' :
  update_requirement ideaId reqId f a w = (Ok a', w') ->
  exists reqs reqs',
    refinementData (state a) !! ideaId = Some reqs
    /\ state a' = set_refinementData (<[ideaId := reqs']> (refinementData (state a))) (state a).
Proof.
  unfold update_requirement. intros H.
  apply bind_ok in H as (reqs & w1 & Hr & Hret). apply nonnull_ok in Hr as [Hr ->].
  unfold ret in Hret. simplify_eq. by eexists _, _.
Qed.

End HandlerStates.

(** The four ways in which a handler moves the workflow state. *)
Lemma workflow_inv_early (s s' : WorkflowState) :
  workflow_inv s ->
  step s = Step.dashboard \/ step s = Step.selection ->
  past_ideation (step s') = false ->
  NoDup (selectedPersonaIds s') ->
  selectedIdeaIds s' = selectedIdeaIds s ->
  refinementData s' = refinementData s ->
  generatedImages s' = generatedImages s ->
  captions s' = captions s ->
  workflow_inv s'.
Proof.
  intros (Hnd & Horph & Hearly & Hid & Hpast) Hstep Hstep' Hnd' Hsel Hr Hg Hc.
  destruct (Hearly Hstep) as (Hsel0 & Hr0 & Hg0 & Hc0).
  assert (idea_maps_empty s') as Hempty.
  { unfold idea_maps_empty. by rewrite Hr, Hg, Hc. }
  unfold workflow_inv. split; [done|]. split.
  { apply no_orphans_empty; [congruence|done]. }
  split; [intros _; split; [congruence|done]|]. split; [done|].
  intros Hp. congruence.
Qed.

Lemma workflow_inv_ideation (s s' : WorkflowState) :
  workflow_inv s ->
  step s = Step.ideation ->
  step s' = Step.ideation ->
  selectedPersonaIds s' = selectedPersonaIds s ->
  (forall k, is_Some (selectedIdeaIds s' !! k) -> k ∈ selectedPersonaIds s) ->
  refinementData s' = refinementData s ->
  generatedImages s' = generatedImages s ->
  captions s' = captions s ->
  workflow_inv s'.
Proof.
  intros (Hnd & Horph & Hearly & Hid & Hpast) Hstep Hstep' Hsel Hkeys Hr Hg Hc.
  destruct (Hid Hstep) as (Hr0 & Hg0 & Hc0).
  assert (idea_maps_empty s') as Hempty.
  { unfold idea_maps_empty. by rewrite Hr, Hg, Hc. }
  unfold workflow_inv. rewrite Hsel, Hstep'. split; [done|]. split.
  { apply no_orphans_ideation; [by rewrite Hsel|done]. }
  split; [intros [?|?]; discriminate|]. split; [done|]. discriminate.
Qed.

Lemma workflow_inv_advance (s : WorkflowState) (m : gmap string (list RefinementRequirement.t)) :
  workflow_inv s ->
  step s = Step.ideation ->
  every_persona_has_idea s ->
  (forall k, is_Some (m !! k) -> idea_reachable s k) ->
  workflow_inv (set_step Step.refinement (set_refinementData m s)).
Proof.
  intros (Hnd & (Ho1 & Ho2 & Ho3 & Ho4) & Hearly & Hid & Hpast) Hstep Hall Hkeys.
  destruct (Hid Hstep) as (Hr0 & Hg0 & Hc0).
  unfold workflow_inv, no_orphans. cbn. split; [done|]. split.
  { split; [done|]. split; [|split].
    - intros k Hk. eapply idea_reachable_ext; [..|by apply Hkeys]; done.
    - intros k [v Hk]. rewrite Hg0, lookup_empty in Hk. done.
    - intros k [v Hk]. rewrite Hc0, lookup_empty in Hk. done. }
  split; [intros [?|?]; discriminate|]. split; [discriminate|]. done.
Qed.

Lemma workflow_inv_late (s s' : WorkflowState) :
  workflow_inv s ->
  past_ideation (step s) = true ->
  past_ideation (step s') = true ->
  selectedPersonaIds s' = selectedPersonaIds s ->
  selectedIdeaIds s' = selectedIdeaIds s ->
  generatedIdeas s' = generatedIdeas s ->
  (forall k, is_Some (refinementData s' !! k) -> idea_reachable s k) ->
  (forall k, is_Some (generatedImages s' !! k) -> idea_reachable s k) ->
  (forall k, is_Some (captions s' !! k) -> idea_reachable s k) ->
  workflow_inv s'.
Proof.
  intros (Hnd & (Ho1 & Ho2 & Ho3 & Ho4) & Hearly & Hid & Hpast) Hstep Hstep' Hsel Hids Hgi Hr Hg Hc.
  unfold workflow_inv, no_orphans, every_persona_has_idea in *. rewrite Hsel, Hids.
  split; [done|]. split.
  { split; [done|].
    repeat split; intros k Hk; eapply idea_reachable_ext; eauto. }
  split; [intros [E|E]; rewrite E in Hstep'; discriminate|].
  split; [intros E; rewrite E in Hstep'; discriminate|].
  intros _. by apply Hpast.
Qed.

Lemma is_Some_insert_existing {V} (m : gmap string V) (k k' : string) (v : V) :
  is_Some (m !! k) -> is_Some (<[k := v]> m !! k') -> is_Some (m !! k').
Proof.
  intros Hk. destruct (decide (k = k')) as [->|Hne]; [done|]. by rewrite lookup_insert_ne.
Qed.

Lemma handleSavePersona_state (env : Env) editingPersona a w a' w' :
  handleSavePersona env editingPersona a w = (Ok a', w') -> state a' = state a.
Proof.
  unfold handleSavePersona. destruct editingPersona as [editing|]; [|unfold ret; by intros [= <- _]].
  destruct (negb (nonempty (Persona.name editing))); [unfold ret; by intros [= <- _]|].
  cbv zeta. intros H. apply bind_ok in H as (id & w1 & _ & H).
  unfold ret in H. by simplify_eq.
Qed.

Lemma handleEnhancePersona_state (env : Env) editingPersona a w a' w' :
  handleEnhancePersona env editingPersona a w = (Ok a', w') -> a' = a.
Proof.
  unfold handleEnhancePersona. destruct editingPersona as [editing|]; [|unfold ret; by intros [= <- _]].
  cbv zeta. destruct (_ && _); [unfold ret; by intros [= <- _]|].
  unfold try_catch, bind, console_log, ret.
  destruct (enhancePersonaProfile _ _ w) as [[r|e] w1]; by intros [= <- _].
Qed.

Ltac split_enabled :=
  repeat match goal with
         | H : _ && _ = true |- _ => apply andb_prop in H as [? ?]
         end;
  repeat match goal with
         | H : bool_decide _ = true |- _ => apply bool_decide_eq_true in H
         end.

(** A handler that the page offers keeps the invariant. *)
Lemma handle_keeps_inv (env : Env) (e : Event) (a a' : App) (w w' : World) :
  enabled a e = true ->
  handle env e a w = (Ok a', w') ->
  workflow_inv (state a) ->
  workflow_inv (state a').
Proof.
  intros Hen Hrun Hinv.
  pose proof Hinv as (Hnd & (Ho1 & Ho2 & Ho3 & Ho4) & Hearly & Hid & Hpast).
  destruct e; cbn [handle] in Hrun; cbn [enabled] in Hen; cbv zeta in Hen;
    try (destruct m); split_enabled;
    try (unfold ret in Hrun; injection Hrun as <- <-).
  - (* EvSavePersona *)
    apply handleSavePersona_state in Hrun. by rewrite Hrun.
  - (* EvEnhancePersona *)
    apply handleEnhancePersona_state in Hrun. by subst.
  - (* EvDeletePersona *)
    unfold handleDeletePersona. destruct confirmed; [|done]. cbn.
    eapply workflow_inv_early; eauto; cbn; [by rewrite H|by apply NoDup_remove_id].
  - (* EvStartCreating *)
    eapply workflow_inv_early; eauto.
  - (* EvBackToDashboard *)
    eapply workflow_inv_early; eauto.
  - (* EvTogglePersona *)
    eapply workflow_inv_early; eauto; cbn; [by rewrite H|by apply NoDup_toggle].
  - (* EvProceedToIdeation *)
    unfold proceedToIdeation. destruct (Nat.eqb _ 0); [done|].
    eapply workflow_inv_early; eauto.
  - (* EvChooseManual *)
    eapply workflow_inv_ideation; eauto.
  - (* EvLeaveManual *)
    eapply workflow_inv_ideation; eauto.
  - (* EvActivityInput *)
    eapply workflow_inv_ideation; eauto.
  - (* EvGenerateIdeas manual *)
    apply generateIdeas_state in Hrun as [->|(ideasMap & ->)]; [done|].
    eapply workflow_inv_ideation; eauto.
  - (* EvGenerateIdeas auto *)
    apply generateIdeas_state in Hrun as [->|(ideasMap & ->)]; [done|].
    eapply workflow_inv_ideation; eauto.
  - (* EvRegenerateIdea *)
    apply regenerateIdea_state in Hrun as [->|(newIdeas & ->)]; [done|].
    eapply workflow_inv_ideation; eauto.
  - (* EvSelectIdea *)
    eapply workflow_inv_ideation; eauto. cbn. intros k Hk.
    destruct (decide (pid = k)) as [<-|Hne]; [done|].
    rewrite lookup_insert_ne in Hk by done. by apply Ho1.
  - (* EvProceedToRefinement *)
    apply proceedToRefinement_state in Hrun as [->|(refinementMap & -> & Hkeys)]; [done|].
    apply workflow_inv_advance; try done.
    apply counts_equal_every_persona_has_idea; try done.
    by apply negb_true_iff.
  - (* EvRefinementInput *)
    unfold handleRefinementInput in Hrun.
    apply update_requirement_state in Hrun as (reqs & reqs' & Hr & ->).
    eapply workflow_inv_late; eauto; cbn; [by rewrite H|by rewrite H|].
    intros k Hk. apply Ho2. eapply is_Some_insert_existing; eauto.
  - (* EvUseSuggestion *)
    unfold useSuggestion in Hrun.
    apply bind_ok in Hrun as (reqs & w1 & Hr & Hrun). apply nonnull_ok in Hr as [Hr ->].
    destruct (List.find _ reqs) as [req|].
    + unfold handleRefinementInput in Hrun.
      apply update_requirement_state in Hrun as (reqs0 & reqs' & Hr0 & ->).
      eapply workflow_inv_late; eauto; cbn; [by rewrite H|by rewrite H|].
      intros k Hk. apply Ho2. eapply is_Some_insert_existing; eauto.
    + unfold ret in Hrun. by simplify_eq.
  - (* EvRefinementImage *)
    unfold handleRefinementImage in Hrun. cbv zeta in Hrun.
    apply update_requirement_state in Hrun as (reqs & reqs' & Hr & ->).
    eapply workflow_inv_late; eauto; cbn; [by rewrite H|by rewrite H|].
    intros k Hk. apply Ho2. eapply is_Some_insert_existing; eauto.
  - (* EvSetGenCount *) done.
  - (* EvSetGenQuality *) done.
  - (* EvProceedToGeneration *)
    apply proceedToGeneration_state in Hrun as [->|(imagesMap & -> & Hkeys)].
    + eapply workflow_inv_late; eauto; cbn; by rewrite ?Hen.
    + eapply workflow_inv_late; eauto; cbn; by rewrite ?Hen.
  - (* EvEditInput *) done.
  - (* EvEditImage *)
    apply handleEditImage_state in Hrun as [->|(images & images' & Hi & ->)]; [done|].
    eapply workflow_inv_late; eauto; cbn; [by rewrite H|by rewrite H|].
    intros k Hk. apply Ho3. eapply is_Some_insert_existing; eauto.
  - (* EvProceedToCaptions *)
    apply proceedToCaptions_state in Hrun as [->|(captionsMap & -> & Hkeys)].
    + eapply workflow_inv_late; eauto; cbn; by rewrite ?Hen.
    + eapply workflow_inv_late; eauto; cbn; by rewrite ?Hen.
Qed.

Lemma run_keeps_inv (env : Env) (es : list Event) (a a' : App) (w w' : World) :
  run env es a w = Some (a', w') -> workflow_inv (state a) -> workflow_inv (state a').
Proof.
  revert a w. induction es as [|e es IH]; intros a w Hrun Hinv; cbn in Hrun.
  - by simplify_eq.
  - destruct (enabled a e) eqn:Hen; [|discriminate].
    destruct (handle env e a w) as [[a1|ex] w1] eqn:Hh; [|discriminate].
    eapply IH; [exact Hrun|]. by eapply handle_keeps_inv.
Qed.

Lemma reachable_inv (env : Env) (a : App) : reachable env a -> workflow_inv (state a).
Proof.
  intros (ps & connected & es & w & Hrun).
  eapply run_keeps_inv; [exact Hrun|]. apply workflow_inv_initial.
Qed.

(** From the ideation page, only the Next Step button moves the step past
    [ideation]. *)
Lemma only_next_step_leaves_ideation (env : Env) (e : Event) (a a' : App) (w w' : World) :
  enabled a e = true ->
  handle env e a w = (Ok a', w') ->
  step (state a) = Step.ideation ->
  past_ideation (step (state a')) = true ->
  e = EvProceedToRefinement /\ next_step_disabled (state a) = false.
Proof.
  intros Hen Hrun Hstep Hpast.
  destruct e; cbn [handle] in Hrun; cbn [enabled] in Hen; cbv zeta in Hen;
    try (destruct m); split_enabled; try congruence;
    try (unfold ret in Hrun; injection Hrun as <- <-; cbn in Hpast; rewrite Hstep in Hpast;
         discriminate).
  - apply generateIdeas_state in Hrun as [E|(ideasMap & E)]; rewrite E in Hpast; cbn in Hpast;
      [rewrite Hstep in Hpast|]; discriminate.
  - apply generateIdeas_state in Hrun as [E|(ideasMap & E)]; rewrite E in Hpast; cbn in Hpast;
      [rewrite Hstep in Hpast|]; discriminate.
  - apply regenerateIdea_state in Hrun as [E|(newIdeas & E)]; rewrite E in Hpast; cbn in Hpast;
      rewrite Hstep in Hpast; discriminate.
  - split; [done|]. by apply negb_true_iff.
Qed.

(** C1, as the code has it. In every state that a session reaches, a step
    past [ideation] comes with an entry of [selectedIdeaIds] for every
    selected persona; and on the ideation page only the Next Step button
    moves the step past [ideation], which the page enables only when the
    two counts are equal, that is when every selected persona has an idea.
    The guard is the page's: [proceedToRefinement] has none. *)
Theorem step_past_ideation_has_every_idea (env : Env) (a : App) :
  reachable env a ->
  (past_ideation (step (state a)) = true -> every_persona_has_idea (state a))
  /\ (forall e w a' w',
        enabled a e = true ->
        handle env e a w = (Ok a', w') ->
        step (state a) = Step.ideation ->
        past_ideation (step (state a')) = true ->
        e = EvProceedToRefinement
        /\ next_step_disabled (state a) = false
        /\ every_persona_has_idea (state a)).
Proof.
  intros Hreach. apply reachable_inv in Hreach as Hinv.
  pose proof Hinv as (Hnd & (Ho1 & _) & _ & _ & Hpast). split; [done|].
  intros e w a' w' Hen Hrun Hstep Hpast'.
  destruct (only_next_step_leaves_ideation env e a a' w w' Hen Hrun Hstep Hpast') as [-> Hcount].
  split; [done|]. split; [done|]. by apply counts_equal_every_persona_has_idea.
Qed.

(** C4, as the code has it. Every state that a session reaches has no
    orphaned entry. The handlers remove no entry themselves: the page offers
    the deletion and the selection of personas only before any idea is
    selected, and the regeneration of ideas only before any dictionary keyed
    by an idea is filled. *)
Theorem reachable_no_orphans (env : Env) (a : App) :
  reachable env a -> no_orphans (state a).
Proof. intros Hreach. by apply reachable_inv in Hreach as (_ & Ho & _). Qed.

(** A session through to the refinement page: the step is past [ideation],
    and the one selected persona has its idea. *)
Lemma step_past_ideation_session :
  step (state refinement_app) = Step.refinement
  /\ every_persona_has_idea (state refinement_app).
Proof.
  split; [vm_compute; reflexivity|].
  apply (step_past_ideation_has_every_idea studio refinement_app).
  - exists SEED_PERSONAS, true, to_refinement, (snd (after studio to_refinement)).
    vm_compute. reflexivity.
  - vm_compute. reflexivity.
Defined.

(** C1 as stated fails on its second half. In the state that a session
    reaches with two personas selected and an idea selected for the first
    only, the page disables the Next Step button; [proceedToRefinement]
    itself, run on that state, skips the second persona and moves the step
    to [refinement] without an error. *)
Lemma proceedToRefinement_does_not_refuse :
  run studio half_selected (initial_app SEED_PERSONAS true) world0
    = Some (after studio half_selected)
  /\ selectedPersonaIds (state half_selected_app) = ["p1"; "p2"]
  /\ selectedIdeaIds (state half_selected_app) !! "p2" = None
  /\ enabled half_selected_app EvProceedToRefinement = false
  /\ refinement_outcome
       (proceedToRefinement studio half_selected_app (snd (after studio half_selected))) "p2"
     = Some (Step.refinement, None, None).
Proof.
  split; [vm_compute; reflexivity|]. split; [vm_compute; reflexivity|].
  split; [vm_compute; reflexivity|]. split; vm_compute; reflexivity.
Qed.

(** A session through to the captions: no orphaned entry. *)
Lemma no_orphans_session :
  step (state captions_app) = Step.captions /\ no_orphans (state captions_app).
Proof.
  split; [vm_compute; reflexivity|].
  apply (reachable_no_orphans studio captions_app).
  exists SEED_PERSONAS, true, to_captions, (snd (after studio to_captions)).
  vm_compute. reflexivity.
Defined.

(** C4 as stated fails: the handlers remove no entry. [handleDeletePersona]
    on a state without orphans leaves the selected idea of the deleted
    persona in [selectedIdeaIds]; [regenerateIdea] on a state without orphans
    leaves the requirements of an idea that is no longer among the generated
    ones. *)
Lemma handlers_leave_orphans :
  (no_orphans (state half_selected_app)
   /\ selectedPersonaIds (state deleted_app) = ["p2"]
   /\ selectedIdeaIds (state deleted_app) !! "p1" = Some "p1-idea-1700000000000-0"
   /\ ~ no_orphans (state deleted_app))
  /\ (no_orphans (state refinement_app)
      /\ GeneratedIdea.id <$> default [] (generatedIdeas (state regenerated_app) !! "p1")
         = ["p1-idea-1700000000003-0"; "p1-idea-1700000000004-1"; "p1-idea-1700000000005-2"]
      /\ is_Some (refinementData (state regenerated_app) !! "p1-idea-1700000000000-0")
      /\ ~ no_orphans (state regenerated_app)).
Proof.
  assert (selectedPersonaIds (state deleted_app) = ["p2"]) as Hsel by (vm_compute; reflexivity).
  assert (selectedIdeaIds (state deleted_app) !! "p1" = Some "p1-idea-1700000000000-0") as Hidea
    by (vm_compute; reflexivity).
  assert (is_Some (refinementData (state regenerated_app) !! "p1-idea-1700000000000-0")) as Hreq.
  { eexists. vm_compute. reflexivity. }
  split; [split; [|split; [done|split; [done|]]] | split; [|split; [|split; [done|]]]].
  - assert (workflow_inv (state half_selected_app)) as (_ & Ho & _); [|done].
    apply (reachable_inv studio).
    exists SEED_PERSONAS, true, half_selected, (snd (after studio half_selected)).
    vm_compute. reflexivity.
  - intros (H1 & _). specialize (H1 "p1" (mk_is_Some _ _ Hidea)).
    rewrite Hsel in H1. apply list_elem_of_singleton in H1. discriminate.
  - assert (workflow_inv (state refinement_app)) as (_ & Ho & _); [|done].
    apply (reachable_inv studio).
    exists SEED_PERSONAS, true, to_refinement, (snd (after studio to_refinement)).
    vm_compute. reflexivity.
  - vm_compute. reflexivity.
  - intros (_ & H2 & _).
    destruct (H2 _ Hreq) as (pid & ideas & idea & Hin & _ & Hg & Hi & Hid).
    assert (selectedPersonaIds (state regenerated_app) = ["p1"]) as E by (vm_compute; reflexivity).
    rewrite E in Hin. apply list_elem_of_singleton in Hin. subst pid.
    assert (Forall (fun i => String.eqb (GeneratedIdea.id i) "p1-idea-1700000000000-0" = false)
              ideas) as Hall.
    { vm_compute in Hg. injection Hg as <-. repeat constructor. }
    rewrite Forall_forall in Hall. specialize (Hall idea Hi).
    rewrite Hid in Hall. discriminate.
Qed.

(** * Further properties of the code *)

(** ** Selecting ideas and personas *)

(** X1. [selectIdea] records the idea under the persona, and only that: the
    selection made last for a persona is the one that counts, so that
    selecting the same idea twice is selecting it once; selections for
    different personas do not depend on their order; and nothing but
    [selectedIdeaIds] changes. *)
Theorem selectIdea_last_selection_counts :
  (forall pid i j a, selectIdea pid j (selectIdea pid i a) = selectIdea pid j a)
  /\ (forall p q i j a, p <> q ->
        selectIdea p i (selectIdea q j a) = selectIdea q j (selectIdea p i a))
  /\ (forall pid i a,
        selectedIdeaIds (state (selectIdea pid i a)) !! pid = Some i
        /\ (forall q, q <> pid ->
              selectedIdeaIds (state (selectIdea pid i a)) !! q
              = selectedIdeaIds (state a) !! q)
        /\ state (selectIdea pid i a)
           = set_selectedIdeaIds (selectedIdeaIds (state (selectIdea pid i a))) (state a)).
Proof.
  split; [|split].
  - intros pid i j a. unfold selectIdea, setState, set_selectedIdeaIds. cbn.
    by rewrite insert_insert_eq.
  - intros p q i j a Hne. unfold selectIdea, setState, set_selectedIdeaIds. cbn.
    by rewrite insert_insert_ne.
  - intros pid i a. cbn. split; [by rewrite lookup_insert_eq|]. split; [|done].
    intros q Hq. by rewrite lookup_insert_ne.
Qed.

Lemma filter_ne_elem (id x : string) (l : list string) :
  x ∈ List.filter (fun pid => negb (String.eqb pid id)) l <-> x ∈ l /\ x <> id.
Proof.
  rewrite !list_elem_of_In, List.filter_In, negb_true_iff, String.eqb_neq. done.
Qed.

Lemma filter_ne_absent (id : string) (l : list string) :
  id ∉ l -> List.filter (fun pid => negb (String.eqb pid id)) l = l.
Proof.
  induction l as [|x l IH]; intros Hin; cbn; [done|].
  apply not_elem_of_cons in Hin as [Hne Hin].
  destruct (String.eqb x id) eqn:E; cbn.
  - apply String.eqb_eq in E. congruence.
  - by rewrite IH.
Qed.

(** X2. [togglePersonaSelection] flips the membership of the persona in the
    selection and of no other; it keeps a selection without duplicates
    without duplicates; it changes nothing but [selectedPersonaIds]; and on
    a persona that is not selected, toggling twice gives the selection
    back. *)
Theorem togglePersonaSelection_flips_membership (id : string) (a : App) :
  let before := selectedPersonaIds (state a) in
  let after := selectedPersonaIds (state (togglePersonaSelection id a)) in
  (id ∈ after <-> id ∉ before)
  /\ (forall x, x <> id -> (x ∈ after <-> x ∈ before))
  /\ (NoDup before -> NoDup after)
  /\ state (togglePersonaSelection id a) = set_selectedPersonaIds after (state a)
  /\ (id ∉ before ->
      selectedPersonaIds (state (togglePersonaSelection id (togglePersonaSelection id a)))
      = before).
Proof.
  cbn. split; [|split; [|split; [|split]]].
  - case_bool_decide as Hin.
    + rewrite filter_ne_elem. naive_solver.
    + rewrite elem_of_app, list_elem_of_singleton. naive_solver.
  - intros x Hx. case_bool_decide as Hin.
    + rewrite filter_ne_elem. naive_solver.
    + rewrite elem_of_app, list_elem_of_singleton. naive_solver.
  - apply NoDup_toggle.
  - done.
  - intros Hin. rewrite (bool_decide_eq_false_2 _ Hin).
    rewrite bool_decide_eq_true_2 by (apply elem_of_app; right; by apply list_elem_of_singleton).
    rewrite List.filter_app. cbn. rewrite String.eqb_refl. cbn.
    by rewrite app_nil_r, filter_ne_absent.
Qed.

(** ** Deleting and saving personas *)

Lemma find_persona_filter_ne (id pid : string) (ps : list Persona.t) :
  pid <> id ->
  find_persona pid (List.filter (fun p => negb (String.eqb (Persona.id p) id)) ps)
  = find_persona pid ps.
Proof.
  intros Hne. unfold find_persona. induction ps as [|p ps IH]; cbn; [done|].
  destruct (String.eqb (Persona.id p) id) eqn:E; cbn.
  - apply String.eqb_eq in E.
    destruct (String.eqb (Persona.id p) pid) eqn:E'; [|done].
    apply String.eqb_eq in E'. congruence.
  - by destruct (String.eqb (Persona.id p) pid).
Qed.

Lemma find_persona_filter_eq (id : string) (ps : list Persona.t) :
  find_persona id (List.filter (fun p => negb (String.eqb (Persona.id p) id)) ps) = None.
Proof.
  unfold find_persona. induction ps as [|p ps IH]; cbn; [done|].
  destruct (String.eqb (Persona.id p) id) eqn:E; cbn; [done|]. by rewrite E.
Qed.

(** X3. A confirmed [handleDeletePersona] removes the persona from the
    personas and from the selection, and leaves the others in place: the
    personas are those of before without the ones of that id, in the order
    of before, and so are the selected ids. So the persona can no longer be
    found nor is it selected, and every other persona is found as before and
    selected as before. The dictionaries of the workflow are left as they
    are, entries of the deleted persona included. A deletion that is not
    confirmed changes nothing. *)
Theorem handleDeletePersona_removes_the_persona (id : string) (a : App) :
  let a' := handleDeletePersona true id a in
  personas a' = List.filter (fun p => negb (String.eqb (Persona.id p) id)) (personas a)
  /\ selectedPersonaIds (state a')
     = List.filter (fun pid => negb (String.eqb pid id)) (selectedPersonaIds (state a))
  /\ find_persona id (personas a') = None
  /\ id ∉ selectedPersonaIds (state a')
  /\ (forall pid, pid <> id ->
        (find_persona pid (personas a') = find_persona pid (personas a))
        /\ (pid ∈ selectedPersonaIds (state a') <-> pid ∈ selectedPersonaIds (state a)))
  /\ (id ∉ selectedPersonaIds (state a) ->
      selectedPersonaIds (state a') = selectedPersonaIds (state a))
  /\ state a' = set_selectedPersonaIds (selectedPersonaIds (state a')) (state a)
  /\ selectedIdeaIds (state a') = selectedIdeaIds (state a)
  /\ generatedIdeas (state a') = generatedIdeas (state a)
  /\ handleDeletePersona false id a = a.
Proof.
  cbn. split; [done|]. split; [done|]. split; [apply find_persona_filter_eq|]. split.
  { rewrite filter_ne_elem. naive_solver. }
  split; [|split; [apply filter_ne_absent|done]].
  intros pid Hne. split; [by apply find_persona_filter_ne|].
  rewrite filter_ne_elem. naive_solver.
Qed.

Lemma find_persona_replace (p : Persona.t) (ps : list Persona.t) :
  is_Some (find_persona (Persona.id p) ps) ->
  find_persona (Persona.id p)
    (List.map (fun q => if String.eqb (Persona.id q) (Persona.id p) then p else q) ps)
  = Some p.
Proof.
  unfold find_persona. induction ps as [|q ps IH]; cbn; [by intros [? ?]|].
  destruct (String.eqb (Persona.id q) (Persona.id p)) eqn:E; cbn.
  - by rewrite String.eqb_refl.
  - rewrite E. apply IH.
Qed.

Lemma map_replace_absent (p : Persona.t) (ps : list Persona.t) :
  find_persona (Persona.id p) ps = None ->
  List.map (fun q => if String.eqb (Persona.id q) (Persona.id p) then p else q) ps = ps.
Proof.
  unfold find_persona. induction ps as [|q ps IH]; cbn; [done|].
  destruct (String.eqb (Persona.id q) (Persona.id p)) eqn:E; [done|].
  intros H. by rewrite IH.
Qed.

(** X4. [handleSavePersona] with a named persona in the editor. A persona
    without id is new: it gets the id [p-<time>] and is put in front of the
    personas, which follow as they were. A persona with an id takes the
    place of the personas of that id and of no other: position by position
    the list is as before, except that where a persona has that id the
    saved one stands. So the list keeps its length, the saved persona is
    then the one found under that id, and when no persona has that id the
    list is left as it is and the edit is lost. The workflow state is not
    touched. *)
Theorem handleSavePersona_upserts (env : Env) (editing : Persona.t) (a : App) (w : World) :
  nonempty (Persona.name editing) = true ->
  exists a',
    fst (handleSavePersona env (Some editing) a w) = Ok a'
    /\ state a' = state a
    /\ (Persona.id editing = "" ->
        personas a'
        = persona_to_save ("p-" +:+ pretty (Date_now env (clock w))) editing :: personas a)
    /\ (Persona.id editing <> "" ->
        length (personas a') = length (personas a)
        /\ (forall i,
              personas a' !! i
              = (fun p => if String.eqb (Persona.id p) (Persona.id editing) then editing else p)
                  <$> personas a !! i)
        /\ (is_Some (find_persona (Persona.id editing) (personas a)) ->
            find_persona (Persona.id editing) (personas a') = Some editing)
        /\ (find_persona (Persona.id editing) (personas a) = None ->
            personas a' = personas a)).
Proof.
  intros Hname. unfold handleSavePersona. rewrite Hname. cbn [negb]. cbv zeta.
  destruct (nonempty (Persona.id editing)) eqn:Hid.
  - unfold bind, ret. cbn. eexists. split; [reflexivity|]. split; [done|]. cbn.
    assert (persona_to_save (Persona.id editing) editing = editing) as Heta by (by destruct editing).
    unfold persona_to_save in Heta. rewrite Heta.
    split.
    { intros E. rewrite E in Hid. discriminate. }
    intros _. split; [by rewrite length_map|]. split; [|split].
    + intros i.
      change (List.map ?f (personas a)) with (f <$> personas a).
      by rewrite list_lookup_fmap.
    + apply find_persona_replace.
    + apply map_replace_absent.
  - unfold bind, now, ret. cbn. eexists. split; [reflexivity|]. split; [done|]. cbn.
    split; [done|]. intros Hne. exfalso. apply Hne.
    unfold nonempty in Hid. apply negb_false_iff in Hid. by apply String.eqb_eq in Hid.
Qed.

(** A new creator saved when the clock reads 1700000000000. *)
Lemma handleSavePersona_new_creator :
  exists a',
    fst (handleSavePersona studio (Some new_creator) (initial_app SEED_PERSONAS true) world0)
      = Ok a'
    /\ Persona.id <$> personas a' = ["p-1700000000000"; "p1"; "p2"].
Proof.
  destruct (handleSavePersona_upserts studio new_creator (initial_app SEED_PERSONAS true) world0)
    as (a' & Hrun & _ & Hnew & _); [reflexivity|].
  exists a'. split; [exact Hrun|]. rewrite (Hnew eq_refl). vm_compute. reflexivity.
Defined.

(** A save without a name in the editor does nothing. *)
Lemma handleSavePersona_without_name (env : Env) (editing : Persona.t) (a : App) (w : World) :
  Persona.name editing = "" ->
  handleSavePersona env (Some editing) a w = (Ok a, w)
  /\ handleSavePersona env None a w = (Ok a, w).
Proof. intros E. unfold handleSavePersona. by rewrite E. Qed.

(** ** The storage mapping *)

(** X5. The round trip through the storage mapping normalises: applied to a
    persona that went through it once it changes nothing, and the row of a
    persona that went through it is the row of the persona. On a persona of
    [types.ts] with an avatar, the round trip is the identity. *)
Theorem persona_round_trip_normalises :
  (forall p, persona_round_trip (persona_round_trip p) = persona_round_trip p)
  /\ (forall p, mapPersonaToDb (persona_round_trip p) = mapPersonaToDb p)
  /\ (forall q : Persona.t,
        Persona.avatarUrl q <> "" ->
        persona_round_trip (persona_to_any q) = persona_to_any q).
Proof.
  assert (forall v d, js_or (js_or v d) d = js_or v d) as Habs.
  { intros v d. unfold js_or. destruct (truthy v) eqn:E; [by rewrite E|].
    by destruct (truthy d). }
  split; [|split].
  - intros [i n l c ni b av rf]. unfold persona_round_trip, mapPersonaFromDb, mapPersonaToDb.
    cbn. by rewrite !Habs.
  - intros [i n l c ni b av rf]. unfold persona_round_trip, mapPersonaFromDb, mapPersonaToDb.
    cbn. by rewrite !Habs.
  - intros [i n l c ni b av rf] Hav. cbn in Hav.
    unfold persona_round_trip, mapPersonaFromDb, mapPersonaToDb, persona_to_any. cbn.
    unfold js_or. cbn.
    destruct (String.eqb av "") eqn:E; [by apply String.eqb_eq in E|done].
Qed.

(** ** The parts and the images of the generation stage *)

Lemma for_range_ok_ind {St} (I : St -> World -> Prop) (body : nat -> St -> M St)
    (count : nat) :
  forall start,
    (forall i s w s' w', start <= i < start + count -> I s w ->
       body i s w = (Ok s', w') -> I s' w') ->
    forall s w s' w', I s w -> for_range start count body s w = (Ok s', w') -> I s' w'.
Proof.
  induction count as [|count IH]; intros start Hbody s w s' w' HI Hrun; cbn in Hrun.
  - unfold ret in Hrun. by simplify_eq.
  - apply bind_ok in Hrun as (s1 & w1 & H1 & H2).
    eapply (IH (S start)); [| |exact H2].
    + intros i s0 w0 s0' w0' Hi. apply Hbody. lia.
    + eapply Hbody; [|exact HI|exact H1]. lia.
Qed.

Lemma bind_run {A B} (m : M A) (k : A -> M B) (w : World) (a : A) (w' : World) :
  m w = (Ok a, w') -> bind m k w = k a w'.
Proof. unfold bind. by intros ->. Qed.

Section Parts.
Context (env : Env).

Lemma push_inline_jpeg b64 fullPrompt rest :
  Forall is_jpeg rest ->
  exists rest', push_inline "image/jpeg" b64 (PText fullPrompt :: rest) = PText fullPrompt :: rest'
                /\ Forall is_jpeg rest' /\ length rest' <= S (length rest).
Proof.
  intros Hrest. unfold push_inline. destruct (truthy_str b64).
  - exists (rest ++ [PInline "image/jpeg" (default "" b64)]). split; [done|]. split.
    + apply Forall_app. split; [done|]. repeat constructor. by eexists.
    + rewrite length_app. cbn. lia.
  - exists rest. split; [done|]. split; [done|lia].
Qed.

Lemma push_inline_some (mime b : string) (parts : list Part) :
  nonempty b = true -> push_inline mime (Some b) parts = parts ++ [PInline mime b].
Proof. intros Hb. unfold push_inline, truthy_str. by rewrite Hb. Qed.

Lemma push_inline_empty (mime b : string) (parts : list Part) :
  nonempty b = false -> push_inline mime (Some b) parts = parts.
Proof. intros Hb. unfold push_inline, truthy_str. by rewrite Hb. Qed.

Lemma push_inline_none (mime : string) (parts : list Part) :
  push_inline mime None parts = parts.
Proof. done. Qed.

Lemma urlToBase64_run (url : string) (w : World) :
  exists w',
    urlToBase64 env url w
    = (Ok (match fetch_dataUrl env (fetches w) url with
           | Some base64String => split_comma_1 base64String
           | None => None
           end), w')
    /\ calls w' = calls w
    /\ fetches w' = S (fetches w).
Proof.
  unfold urlToBase64. destruct (fetch_dataUrl env (fetches w) url); cbn; eauto.
Qed.

Lemma reference_parts_jpeg (n : nat) (refImages : list string) :
  Forall is_jpeg (reference_parts env n refImages)
  /\ length (reference_parts env n refImages) <= length refImages.
Proof.
  revert n. induction refImages as [|url l IH]; intros n; cbn [reference_parts length].
  - split; [constructor|lia].
  - destruct (startsWith "http" url).
    + destruct (IH (S n)) as [Hj Hlen].
      destruct (fetch_dataUrl env n url) as [s|]; [destruct (split_comma_1 s) as [b|];
        [destruct (nonempty b)|]|]; cbn [app length].
      * split; [constructor; [by (unfold is_jpeg; eexists)|done]|cbn [length]; lia].
      * split; [done|lia].
      * split; [done|lia].
      * split; [done|lia].
    + destruct (IH n) as [Hj Hlen]. split; [constructor; [by (unfold is_jpeg; eexists)|done]|cbn [length]; lia].
Qed.

Lemma requirement_parts_jpeg (requirements : list RefinementRequirement.t) :
  Forall is_jpeg (requirement_parts requirements)
  /\ length (requirement_parts requirements) <= length requirements.
Proof.
  unfold requirement_parts.
  induction requirements as [|req l [Hj Hlen]]; cbn [flat_map length].
  - split; [constructor|lia].
  - destruct (RefinementRequirement.referenceImage req) as [b|]; [destruct (nonempty b)|];
      cbn [app length].
    + split; [constructor; [by (unfold is_jpeg; eexists)|done]|cbn [length]; lia].
    + split; [done|lia].
    + split; [done|lia].
Qed.

Lemma requirement_parts_fold (requirements : list RefinementRequirement.t)
    (parts : list Part) :
  fold_left (fun parts req =>
               push_inline "image/jpeg" (RefinementRequirement.referenceImage req) parts)
    requirements parts
  = parts ++ requirement_parts requirements.
Proof.
  unfold requirement_parts. revert parts.
  induction requirements as [|req l IH]; intros parts; cbn [fold_left flat_map].
  - by rewrite app_nil_r.
  - rewrite IH. unfold push_inline, truthy_str.
    destruct (RefinementRequirement.referenceImage req) as [b|]; [destruct (nonempty b)|];
      cbn [default app].
    + by rewrite <- app_assoc.
    + done.
    + done.
Qed.

(** The loops of [image_parts] as one list: the stateful loop, which counts
    its fetches in the world, adds exactly [reference_parts], and the fold
    exactly [requirement_parts]. *)
Lemma image_parts_exact persona fullPrompt requirements (w : World) :
  exists w',
    image_parts env persona fullPrompt requirements w
    = (Ok (PText fullPrompt
             :: reference_parts env (fetches w) (Persona.refImages persona)
             ++ requirement_parts requirements), w')
    /\ calls w' = calls w.
Proof.
  unfold image_parts.
  assert (forall l rest0 w0,
            exists w',
              for_of l (fun imgUrl parts =>
                 if startsWith "http" imgUrl
                 then base64 <- urlToBase64 env imgUrl ;;
                      ret (push_inline "image/jpeg" base64 parts)
                 else ret (parts ++ [PInline "image/jpeg" imgUrl]))
                (PText fullPrompt :: rest0) w0
              = (Ok (PText fullPrompt :: rest0 ++ reference_parts env (fetches w0) l), w')
              /\ calls w' = calls w0) as Hloop.
  { induction l as [|url l IH]; intros rest0 w0; cbn [for_of reference_parts].
    - exists w0. unfold ret. by rewrite app_nil_r.
    - destruct (startsWith "http" url).
      + destruct (urlToBase64_run url w0) as (w1 & Hu & Hc1 & Hf1).
        erewrite bind_run; [|erewrite bind_run; [reflexivity|exact Hu]].
        destruct (fetch_dataUrl env (fetches w0) url) as [s|];
          [destruct (split_comma_1 s) as [b|]; [destruct (nonempty b) eqn:Hb|]|].
        * rewrite (push_inline_some _ _ _ Hb).
          change ((PText fullPrompt :: rest0) ++ [PInline "image/jpeg" b])
            with (PText fullPrompt :: (rest0 ++ [PInline "image/jpeg" b])).
          destruct (IH (rest0 ++ [PInline "image/jpeg" b]) w1) as (w' & Hl & Hc).
          rewrite Hl, Hf1. exists w'. split; [|congruence].
          by rewrite <- app_assoc.
        * rewrite (push_inline_empty _ _ _ Hb).
          destruct (IH rest0 w1) as (w' & Hl & Hc).
          rewrite Hl, Hf1. exists w'. split; [done|congruence].
        * rewrite push_inline_none.
          destruct (IH rest0 w1) as (w' & Hl & Hc).
          rewrite Hl, Hf1. exists w'. split; [done|congruence].
        * rewrite push_inline_none.
          destruct (IH rest0 w1) as (w' & Hl & Hc).
          rewrite Hl, Hf1. exists w'. split; [done|congruence].
      + erewrite bind_run; [|reflexivity].
        change ((PText fullPrompt :: rest0) ++ [PInline "image/jpeg" url])
          with (PText fullPrompt :: (rest0 ++ [PInline "image/jpeg" url])).
        destruct (IH (rest0 ++ [PInline "image/jpeg" url]) w0) as (w' & Hl & Hc).
        rewrite Hl. exists w'. split; [|done].
        by rewrite <- app_assoc. }
  destruct (Hloop (Persona.refImages persona) [] w) as (w' & Hl & Hc).
  unfold bind at 1. rewrite Hl. unfold ret. exists w'. split; [|done].
  rewrite requirement_parts_fold. reflexivity.
Qed.

(** X6. The parts of an image request are put together on a best effort:
    [image_parts] always returns, without a call to the capability. The
    first part is the text of the prompt. Then come the reference images of
    the persona, in order: one stored as data goes in as it is, one behind a
    URL goes in with the content that its fetch gave, and is left out when
    the fetch fails or gives no content. Then come the reference images of
    the requirements that have one. Every part after the prompt is a JPEG
    image, and there is at most one for each reference image of the persona
    and of the requirements. *)
Theorem image_parts_best_effort persona fullPrompt requirements (w : World) :
  exists rest w',
    image_parts env persona fullPrompt requirements w = (Ok (PText fullPrompt :: rest), w')
    /\ rest = reference_parts env (fetches w) (Persona.refImages persona)
              ++ requirement_parts requirements
    /\ calls w' = calls w
    /\ Forall is_jpeg rest
    /\ length rest <= length (Persona.refImages persona) + length requirements.
Proof.
  destruct (image_parts_exact persona fullPrompt requirements w) as (w' & Hrun & Hc).
  eexists _, w'. split; [exact Hrun|]. split; [done|]. split; [done|].
  destruct (reference_parts_jpeg (fetches w) (Persona.refImages persona)) as [Hj1 Hlen1].
  destruct (requirement_parts_jpeg requirements) as [Hj2 Hlen2].
  split; [by apply Forall_app|]. rewrite length_app. lia.
Qed.

(** When no fetch succeeds, the images behind a URL are all left out and
    those stored as data all go in. *)
Lemma reference_parts_unreachable (n : nat) (refImages : list string) :
  (forall k url, fetch_dataUrl env k url = None) ->
  reference_parts env n refImages
  = PInline "image/jpeg" <$> List.filter (fun url => negb (startsWith "http" url)) refImages.
Proof.
  intros Hnone. revert n. induction refImages as [|url l IH]; intros n;
    cbn [reference_parts List.filter]; [done|].
  destruct (startsWith "http" url); cbn [negb].
  - rewrite Hnone. cbn [app]. apply IH.
  - rewrite fmap_cons. f_equal. apply IH.
Qed.

(** With an image host that cannot be reached, the image behind a URL is
    left out and the one stored as data is sent. *)
Lemma image_parts_unreachable_host :
  fst (image_parts studio persona_with_refs "a prompt" [] world0)
  = Ok [PText "a prompt"; PInline "image/jpeg" "QUJD"].
Proof. vm_compute. reflexivity. Qed.

Lemma collect_images_forall (P : GeneratedImage.t -> Prop) idea fullPrompt i response
    results (w : World) results' w' :
  collect_images env idea fullPrompt i response results w = (Ok results', w') ->
  Forall P results ->
  (forall t data, P (image_of idea fullPrompt i t data)) ->
  Forall P results'.
Proof.
  intros Hrun Hres HP. unfold collect_images in Hrun.
  eapply (for_of_ok_ind (fun s _ => Forall P s)); [|exact Hres|exact Hrun].
  intros part s w0 s' w0' _ Hs Hbody. cbv beta in Hbody.
  destruct (inlineData part) as [data|].
  - apply bind_ok in Hbody as (t & w1 & _ & Hret). unfold ret in Hret. simplify_eq.
    apply Forall_app. split; [done|]. repeat constructor. apply HP.
  - unfold ret in Hbody. by simplify_eq.
Qed.

(** X7. [generateUGCImages] never throws, whatever the capability does: it
    makes exactly [count] calls, all with the same request, whose first part
    is the prompt; and every image it returns belongs to the idea, carries
    the prompt, has an id [<idea>-img-<time>-<i>] with [i] the number of the
    call that returned it, and has a data URL for its content. With a count
    of zero it returns no image and makes no call. *)
Theorem generateUGCImages_never_throws persona idea requirements count quality (w : World) :
  exists images rest w',
    generateUGCImages env persona idea requirements count quality w = (Ok images, w')
    /\ calls w'
       = calls w ++ replicate count
           (image_request (PText (image_prompt env persona idea requirements) :: rest) quality)
    /\ Forall (fun img =>
         exists i t data,
           i < count
           /\ img = image_of idea (image_prompt env persona idea requirements) i t data) images
    /\ (count = 0 -> images = []).
Proof.
  unfold generateUGCImages. cbv zeta.
  set (fullPrompt := image_prompt env persona idea requirements).
  destruct (image_parts_exact persona fullPrompt requirements w) as (w1 & Hp & Hc).
  set (rest := reference_parts env (fetches w) (Persona.refImages persona)
               ++ requirement_parts requirements) in *.
  unfold bind at 1. rewrite Hp.
  destruct (image_loop_returns env idea fullPrompt (PText fullPrompt :: rest) quality count 0 []
              w1) as (images & w' & Hl & Hcalls & _ & Hnone & _).
  cbn [app] in Hl. rewrite Hl. exists images, rest, w'.
  split; [done|]. split; [by rewrite Hcalls, Hc|]. split.
  - eapply (for_range_ok_ind
              (fun s _ => Forall (fun img => exists i t data,
                                    i < count /\ img = image_of idea fullPrompt i t data) s));
      [| |exact Hl]; [|constructor].
    intros i s w0 s' w0' Hi Hs Hbody. unfold try_catch in Hbody.
    match type of Hbody with
    | match ?m ?w0 with _ => _ end = _ => destruct (m w0) as [[r|e] w2] eqn:Hm
    end.
    + simplify_eq. apply bind_ok in Hm as (response & w3 & _ & Hcol).
      eapply collect_images_forall; [exact Hcol|exact Hs|].
      intros t data. exists i, t, data. split; [lia|done].
    + unfold bind, console_log, ret in Hbody. by simplify_eq.
  - intros ->. apply Hnone. intros k Hk. lia.
Qed.

End Parts.

(** ** The content of an image, from its data URL *)

Lemma split_on_absent (c : ascii) (s : string) :
  occurs c s = false -> split_on c s = [s].
Proof.
  induction s as [|a s IH]; cbn; [done|].
  intros [Hac Hs]%orb_false_elim. by rewrite Hac, (IH Hs).
Qed.

Lemma split_on_append (c : ascii) (pre rest : string) :
  occurs c pre = false ->
  split_on c (pre +:+ String c rest) = pre :: split_on c rest.
Proof.
  induction pre as [|a pre IH]; intros Hpre.
  - change (EmptyString +:+ String c rest) with (String c rest).
    cbn. by rewrite Ascii.eqb_refl.
  - change (String a pre +:+ String c rest) with (String a (pre +:+ String c rest)).
    cbn in *. apply orb_false_elim in Hpre as [Hac Hpre]. by rewrite Hac, (IH Hpre).
Qed.

Lemma split_comma_1_data_url (d : string) :
  occurs ","%char d = false ->
  split_comma_1 ("data:image/png;base64," +:+ d) = Some d.
Proof.
  intros Hd. unfold split_comma_1.
  change ("data:image/png;base64," +:+ d)
    with ("data:image/png;base64" +:+ String ","%char d).
  rewrite split_on_append by (vm_compute; reflexivity).
  by rewrite (split_on_absent _ _ Hd).
Qed.

(** X8. The data URL that [generateUGCImages] gives an image is read back by
    [editImageWithChat]: for an image made of the content [data] (without a
    comma, as base64 is), the one request of the edit carries exactly [data]
    as its first part, in the PNG format, then the instruction, then the
    reference image if there is one. When the content was the empty string
    the edit is refused with [Invalid image data] before any call. *)
Theorem editImageWithChat_reads_generated_image (env : Env) idea fullPrompt i t data
    instruction referenceImage (w : World) :
  occurs ","%char (data_string data) = false ->
  let out := editImageWithChat env (image_of idea fullPrompt i t data) instruction
               referenceImage w in
  (data_string data <> "" ->
     calls (snd out)
     = calls w ++ [edit_request (PInline "image/png" (data_string data)
                                 :: PText ("Edit this image. Instruction: " +:+ instruction)
                                 :: match referenceImage with
                                    | Some r => if nonempty r then [PInline "image/png" r]
                                                else []
                                    | None => []
                                    end)])
  /\ (data_string data = "" -> out = (Throw (Error "Invalid image data"), w)).
Proof.
  intros Hd out. subst out. rewrite editImageWithChat_unfold.
  cbn [image_of GeneratedImage.imageUrl]. rewrite (split_comma_1_data_url _ Hd).
  split.
  - intros Hne. assert (nonempty (data_string data) = true) as ->.
    { unfold nonempty. apply negb_true_iff, String.eqb_neq. done. }
    assert (edit_parts (data_string data) instruction referenceImage
            = PInline "image/png" (data_string data)
              :: PText ("Edit this image. Instruction: " +:+ instruction)
              :: match referenceImage with
                 | Some r => if nonempty r then [PInline "image/png" r] else []
                 | None => []
                 end) as <-.
    { unfold edit_parts, push_inline. destruct referenceImage as [r|]; cbn; [|done].
      by destruct (nonempty r). }
    cbv zeta. destruct (invoke env _ _) as [response|]; [|done].
    by destruct (first_inline _).
  - intros ->. done.
Qed.

Lemma editImageWithChat_reads_QUJD :
  occurs ","%char (data_string (Some "QUJD")) = false
  /\ calls (snd (editImageWithChat painting
                   (image_of coffee_idea "a prompt" 0 0 (Some "QUJD")) "warmer light" None
                   world0))
     = calls world0 ++ [edit_request [PInline "image/png" "QUJD";
                                      PText "Edit this image. Instruction: warmer light"]].
Proof.
  split; [vm_compute; reflexivity|].
  apply (editImageWithChat_reads_generated_image painting coffee_idea "a prompt" 0 0
           (Some "QUJD") "warmer light" None world0); [vm_compute; reflexivity|].
  cbn. discriminate.
Defined.

(** X9. An image whose URL has no comma, so is no data URL, cannot be
    edited: [editImageWithChat] throws [Invalid image data], and the
    capability is not called. *)
Theorem editImageWithChat_needs_data_url (env : Env) image instruction referenceImage
    (w : World) :
  occurs ","%char (GeneratedImage.imageUrl image) = false ->
  editImageWithChat env image instruction referenceImage w
  = (Throw (Error "Invalid image data"), w).
Proof.
  intros Hurl. rewrite editImageWithChat_unfold.
  unfold split_comma_1. by rewrite (split_on_absent _ _ Hurl).
Qed.

Lemma editImageWithChat_refuses_web_url :
  occurs ","%char (GeneratedImage.imageUrl
                     {| GeneratedImage.id := "i1"; GeneratedImage.ideaId := "idea1";
                        GeneratedImage.imageUrl := "https://example.org/a.png";
                        GeneratedImage.prompt := "a prompt" |}) = false
  /\ editImageWithChat painting
       {| GeneratedImage.id := "i1"; GeneratedImage.ideaId := "idea1";
          GeneratedImage.imageUrl := "https://example.org/a.png";
          GeneratedImage.prompt := "a prompt" |} "warmer light" None world0
     = (Throw (Error "Invalid image data"), world0).
Proof.
  split; [vm_compute; reflexivity|].
  apply editImageWithChat_needs_data_url. vm_compute. reflexivity.
Defined.

(** ** The requirements of an idea *)

Lemma requirements_callback (idea : GeneratedIdea.t) (l : list Value) (i0 : nat)
    (w w' : World) (reqs : list RefinementRequirement.t) :
  map_indexed i0 (fun r i =>
    question <- get_prop r "question" ;;
    suggestion <- get_prop r "suggestion" ;;
    ret {| RefinementRequirement.id := GeneratedIdea.id idea +:+ "-req-" +:+ pretty i;
           RefinementRequirement.question := question;
           RefinementRequirement.suggestion := suggestion;
           RefinementRequirement.userResponse := VStr "";
           RefinementRequirement.referenceImage := None |}) l w = (Ok reqs, w') ->
  reqs = imap (fun j r => requirement_of idea (i0 + j) r) l /\ w' = w.
Proof.
  revert i0 w w' reqs. induction l as [|r l IH]; intros i0 w w' reqs H; cbn [map_indexed] in H.
  - unfold ret in H. by simplify_eq.
  - apply bind_ok in H as (y & w1 & H1 & H2).
    apply bind_ok in H2 as (ys & w2 & H2 & Hret). unfold ret in Hret. simplify_eq.
    apply IH in H2 as [-> ->].
    destruct (is_nullish r) eqn:Hr.
    + unfold bind in H1. rewrite get_prop_nullish in H1 by done. discriminate.
    + unfold bind in H1. rewrite !get_prop_defined in H1 by done.
      unfold ret in H1. simplify_eq. split; [|done]. cbn [imap]. f_equal.
      * unfold requirement_of. by rewrite Nat.add_0_r.
      * apply imap_ext. intros j x _. cbn. f_equal. lia.
Qed.

(** X10. What [analyzeIdeaRequirements] returns when it returns: one call was
    made and answered, the text of the response parsed to an array, and
    there is one requirement for each element of that array, in order, the
    one at index [i] with the id [<idea>-req-<i>], the question and the
    suggestion of the element, no answer and no reference image yet. So the
    ids of the requirements of an idea are pairwise distinct, which is what
    the handlers of the refinement page find a requirement by. *)
Theorem analyzeIdeaRequirements_requirements (env : Env) idea persona (w : World) reqs :
  fst (analyzeIdeaRequirements env idea persona w) = Ok reqs ->
  calls (snd (analyzeIdeaRequirements env idea persona w))
  = calls w ++ [requirements_request env idea persona]
  /\ (exists response l,
        invoke env (length (calls w)) (requirements_request env idea persona) = Some response
        /\ JSON_parse env (text_or response "[]") = Some (VArr l)
        /\ reqs = imap (requirement_of idea) l
        /\ length reqs = length l
        /\ forall i r, l !! i = Some r ->
             reqs !! i
             = Some {| RefinementRequirement.id := GeneratedIdea.id idea +:+ "-req-" +:+ pretty i;
                       RefinementRequirement.question := prop_of r "question";
                       RefinementRequirement.suggestion := prop_of r "suggestion";
                       RefinementRequirement.userResponse := VStr "";
                       RefinementRequirement.referenceImage := None |})
  /\ NoDup (RefinementRequirement.id <$> reqs)
  /\ Forall (fun r => RefinementRequirement.userResponse r = VStr ""
                      /\ RefinementRequirement.referenceImage r = None) reqs.
Proof.
  destruct (analyzeIdeaRequirements env idea persona w) as [res w'] eqn:Hrun.
  cbn [fst snd]. intros ->. unfold analyzeIdeaRequirements in Hrun.
  apply bind_ok in Hrun as (response & w1 & Hc & H).
  apply bind_ok in H as (raw & w2 & Hp & H).
  unfold generateContent in Hc.
  destruct (invoke env (length (calls w)) _) as [response'|] eqn:Hinv; [|discriminate].
  simplify_eq. unfold parse in Hp.
  destruct (JSON_parse env _) as [raw'|] eqn:Hparse; [|discriminate].
  unfold ret in Hp. simplify_eq.
  destruct raw; try discriminate. cbn [array_map] in H.
  apply requirements_callback in H as [-> ->]. cbn [calls].
  split; [done|]. split.
  { exists response, l. split; [done|]. split; [done|]. split; [done|].
    split; [apply length_imap|].
    intros i r Hi. by rewrite list_lookup_imap, Hi. }
  split.
  - apply NoDup_alt. intros i j x Hi Hj.
    rewrite list_lookup_fmap, list_lookup_imap in Hi, Hj.
    destruct (l !! i) as [ri|]; [|done]. destruct (l !! j) as [rj|]; [|done].
    cbn in Hi, Hj. by simplify_eq.
  - apply Forall_forall. intros r Hr. apply list_elem_of_lookup in Hr as [i Hi].
    rewrite list_lookup_imap in Hi. destruct (l !! i); [|done]. cbn in Hi. by simplify_eq.
Qed.

Lemma analyzeIdeaRequirements_coffee :
  fst (analyzeIdeaRequirements studio coffee_idea jakob world0) = Ok [coffee_requirement]
  /\ calls (snd (analyzeIdeaRequirements studio coffee_idea jakob world0))
     = calls world0 ++ [requirements_request studio coffee_idea jakob]
  /\ NoDup (RefinementRequirement.id <$> [coffee_requirement])
  /\ Forall (fun r => RefinementRequirement.userResponse r = VStr ""
                      /\ RefinementRequirement.referenceImage r = None) [coffee_requirement].
Proof.
  split; [vm_compute; reflexivity|].
  destruct (analyzeIdeaRequirements_requirements studio coffee_idea jakob world0
              [coffee_requirement]) as (Hcalls & _ & Hnd & Hall); [vm_compute; reflexivity|].
  done.
Defined.

Lemma NoDup_fmap_eq {A B} (f : A -> B) (l : list A) (x y : A) :
  NoDup (f <$> l) -> x ∈ l -> y ∈ l -> f x = f y -> x = y.
Proof.
  intros Hnd Hx Hy Hf.
  apply list_elem_of_lookup in Hx as [i Hi]. apply list_elem_of_lookup in Hy as [j Hj].
  assert (i = j) as ->; [|congruence].
  eapply NoDup_lookup; [exact Hnd| |].
  - rewrite list_lookup_fmap, Hi. reflexivity.
  - rewrite list_lookup_fmap, Hj. cbn. by rewrite Hf.
Qed.

Lemma image_prompt_map (env : Env) persona idea
    (g : RefinementRequirement.t -> RefinementRequirement.t) reqs :
  (forall r, r ∈ reqs ->
     js_or (RefinementRequirement.userResponse (g r)) (RefinementRequirement.suggestion (g r))
     = js_or (RefinementRequirement.userResponse r) (RefinementRequirement.suggestion r)) ->
  image_prompt env persona idea (List.map g reqs) = image_prompt env persona idea reqs.
Proof.
  unfold image_prompt. generalize (lines [
       "Photorealistic Instagram photo of " +:+ Persona.name persona +:+ ", a " +:+ Persona.bio persona +:+ ". ";
       "  Location: " +:+ Persona.location persona +:+ ", " +:+ Persona.country persona +:+ ".";
       "  Action: " +:+ js_toString env (GeneratedIdea.description idea) +:+ ".";
       "  " ]) as init.
  induction reqs as [|r reqs IH]; intros init Hg; cbn [List.map fold_left]; [done|].
  rewrite Hg by left. apply IH. intros r' Hr'. apply Hg. by right.
Qed.

(** X11. Auto-Fill does not change the image that is asked for. When the
    answer of a requirement is still empty, [useSuggestion] copies the
    suggestion into it: the requirements of the idea are then those of
    before, the one with the id [reqId] having its suggestion for an answer;
    and the prompt that [generateUGCImages] builds from the requirements is
    the same as before, since an empty answer falls back to the suggestion
    there. The ids of the requirements are distinct, as
    [analyzeIdeaRequirements] makes them. *)
Theorem useSuggestion_keeps_the_prompt (a : App) ideaId reqId reqs (w : World) :
  refinementData (state a) !! ideaId = Some reqs ->
  NoDup (RefinementRequirement.id <$> reqs) ->
  (forall r, r ∈ reqs -> RefinementRequirement.id r = reqId ->
             truthy (RefinementRequirement.userResponse r) = false) ->
  exists a' reqs',
    useSuggestion ideaId reqId a w = (Ok a', w)
    /\ refinementData (state a') !! ideaId = Some reqs'
    /\ reqs' = List.map (fun r => if String.eqb (RefinementRequirement.id r) reqId
                                  then with_userResponse (RefinementRequirement.suggestion r) r
                                  else r) reqs
    /\ (forall k, k <> ideaId ->
          refinementData (state a') !! k = refinementData (state a) !! k)
    /\ forall env persona idea,
         image_prompt env persona idea reqs' = image_prompt env persona idea reqs.
Proof.
  intros Hreqs Hnd Hempty.
  assert (forall env persona idea,
            image_prompt env persona idea
              (List.map (fun r => if String.eqb (RefinementRequirement.id r) reqId
                                  then with_userResponse (RefinementRequirement.suggestion r) r
                                  else r) reqs)
            = image_prompt env persona idea reqs) as Hprompt.
  { intros env persona idea. apply image_prompt_map. intros r Hr.
    destruct (String.eqb (RefinementRequirement.id r) reqId) eqn:Hr_id; [|done].
    apply String.eqb_eq in Hr_id.
    cbn. unfold js_or. rewrite (Hempty r Hr Hr_id).
    by destruct (truthy (RefinementRequirement.suggestion r)). }
  unfold useSuggestion, bind. rewrite Hreqs. cbn [nonnull].
  unfold ret at 1.
  destruct (List.find _ reqs) as [req|] eqn:Hfind.
  - apply List.find_some in Hfind as [Hin Hid]. apply String.eqb_eq in Hid.
    apply list_elem_of_In in Hin.
    unfold handleRefinementInput, update_requirement, bind. rewrite Hreqs. cbn [nonnull].
    assert (List.map (fun r => if String.eqb (RefinementRequirement.id r) reqId
                               then RefinementRequirement.mk (RefinementRequirement.id r)
                                      (RefinementRequirement.question r)
                                      (RefinementRequirement.suggestion r)
                                      (RefinementRequirement.suggestion req)
                                      (RefinementRequirement.referenceImage r)
                               else r) reqs
            = List.map (fun r => if String.eqb (RefinementRequirement.id r) reqId
                                 then with_userResponse (RefinementRequirement.suggestion r) r
                                 else r) reqs) as Hmap.
    { apply List.map_ext_in. intros r Hr. apply list_elem_of_In in Hr.
      destruct (String.eqb (RefinementRequirement.id r) reqId) eqn:Hr_id; [|done].
      apply String.eqb_eq in Hr_id.
      assert (req = r) as -> by (eapply NoDup_fmap_eq; [exact Hnd| | |]; congruence).
      reflexivity. }
    unfold ret. rewrite Hmap. eexists _, _. split; [reflexivity|]. split.
    { destruct a. cbn. apply lookup_insert_eq. }
    split; [reflexivity|].
    split; [intros k Hk; destruct a; cbn; by apply lookup_insert_ne|].
    exact Hprompt.
  - assert (List.map (fun r => if String.eqb (RefinementRequirement.id r) reqId
                               then with_userResponse (RefinementRequirement.suggestion r) r
                               else r) reqs = reqs) as Hnone.
    { transitivity (List.map (fun r : RefinementRequirement.t => r) reqs);
        [|apply List.map_id].
      apply List.map_ext_in. intros r Hr.
      pose proof (List.find_none _ _ Hfind r Hr) as Hf. cbv beta in Hf. by rewrite Hf. }
    exists a, reqs. unfold ret. split; [done|]. split; [done|]. split; [by rewrite Hnone|].
    split; [done|]. done.
Qed.

Lemma useSuggestion_keeps_the_prompt_of_refinement_app :
  exists a' reqs',
    useSuggestion "p1-idea-1700000000000-0" "p1-idea-1700000000000-0-req-0" refinement_app
      world0 = (Ok a', world0)
    /\ refinementData (state a') !! "p1-idea-1700000000000-0" = Some reqs'
    /\ reqs' = [with_userResponse (VStr "A flower stall at Dolac") coffee_requirement]
    /\ forall env persona idea,
         image_prompt env persona idea reqs'
         = image_prompt env persona idea [coffee_requirement].
Proof.
  destruct (useSuggestion_keeps_the_prompt refinement_app "p1-idea-1700000000000-0"
              "p1-idea-1700000000000-0-req-0" [coffee_requirement] world0)
    as (a' & reqs' & Hrun & Hlook & Hreqs' & _ & Hprompt).
  - vm_compute. reflexivity.
  - cbn. apply NoDup_singleton.
  - intros r Hr _. apply list_elem_of_singleton in Hr as ->. reflexivity.
  - exists a', reqs'. split; [exact Hrun|]. split; [exact Hlook|]. split; [|exact Hprompt].
    rewrite Hreqs'. reflexivity.
Defined.

(** ** The ideas of the search call *)

(** X12. The ideas that [generateAutoTrends] returns are never blank: each
    has a title and a description that are truthy, the placeholders
    [Trending Idea] and [Description unavailable] standing in for what the
    response left out or left empty; each belongs to the persona and is not
    selected. *)
Theorem generateAutoTrends_fills_placeholders (env : Env) persona (w : World) ideas :
  fst (generateAutoTrends env persona w) = Ok ideas ->
  Forall (fun idea =>
            truthy (GeneratedIdea.title idea) = true
            /\ truthy (GeneratedIdea.description idea) = true
            /\ GeneratedIdea.personaId idea = Persona.id persona
            /\ GeneratedIdea.selected idea = false) ideas.
Proof.
  destruct (generateAutoTrends env persona w) as [res w'] eqn:Hrun. cbn [fst]. intros ->.
  apply generateAutoTrends_ok in Hrun as (response & l & _ & _ & _ & ->).
  apply Forall_forall. intros idea Hidea. apply list_elem_of_lookup in Hidea as [i Hi].
  rewrite list_lookup_imap in Hi. destruct (l !! i) as [r|]; [|done]. cbn in Hi.
  simplify_eq. unfold trend_idea, js_or. cbn.
  destruct (truthy (prop_of r "title")) eqn:Ht, (truthy (prop_of r "description")) eqn:Hd;
    by rewrite ?Ht, ?Hd.
Qed.

Lemma generateAutoTrends_untitled :
  fst (generateAutoTrends (answering untitled_trend_json) jakob world0)
  = Ok [ {| GeneratedIdea.id := "p1-trend-1700000000000-0";
            GeneratedIdea.personaId := "p1";
            GeneratedIdea.title := VStr "Trending Idea";
            GeneratedIdea.description := VStr "Description unavailable";
            GeneratedIdea.selected := false |} ]
  /\ Forall (fun idea =>
               truthy (GeneratedIdea.title idea) = true
               /\ truthy (GeneratedIdea.description idea) = true
               /\ GeneratedIdea.personaId idea = Persona.id jakob
               /\ GeneratedIdea.selected idea = false)
       [ {| GeneratedIdea.id := "p1-trend-1700000000000-0";
            GeneratedIdea.personaId := "p1";
            GeneratedIdea.title := VStr "Trending Idea";
            GeneratedIdea.description := VStr "Description unavailable";
            GeneratedIdea.selected := false |} ].
Proof.
  split; [vm_compute; reflexivity|].
  apply (generateAutoTrends_fills_placeholders (answering untitled_trend_json) jakob world0).
  vm_compute. reflexivity.
Defined.

(** ** The handlers of the later pages, when a call is rejected *)

Section Rejected.
Context (env : Env).

Lemma accepting_analyzeIdeaRequirements idea persona :
  accepting env (analyzeIdeaRequirements env idea persona).
Proof.
  unfold analyzeIdeaRequirements.
  repeat first [ apply accepting_bind | apply accepting_generateContent | apply accepting_parse
               | apply accepting_array_map | apply accepting_get_prop
               | apply accepting_ret | intro ].
Qed.

Lemma accepting_generateCaptionStrategy persona idea :
  accepting env (generateCaptionStrategy env persona idea).
Proof.
  unfold generateCaptionStrategy.
  apply accepting_bind; [apply accepting_generateContent|]. intros r. apply accepting_parse.
Qed.

(** X13. [proceedToRefinement] is all or nothing as well: when the capability
    rejects one of its calls, the handler returns with the workflow state as
    it was, so still on the ideation page and without the requirements that
    the calls before the rejected one returned; the error hook holds
    [Analysis failed.] and the busy flag is down. *)
Theorem proceedToRefinement_all_or_nothing (a : App) (w : World) :
  (exists n req,
     length (calls w) <= n
     /\ calls (snd (proceedToRefinement env a w)) !! n = Some req
     /\ invoke env n req = None) ->
  exists a',
    fst (proceedToRefinement env a w) = Ok a'
    /\ state a' = state a
    /\ error a' = Some "Analysis failed."
    /\ loading a' = false.
Proof.
  intros (n & req & Hn & Hlook & Hrej).
  unfold proceedToRefinement in *. cbv zeta in *.
  unfold bind at 1 in Hlook. unfold bind at 1. unfold try_catch in *.
  match goal with
  | |- context [match ?loop w with _ => _ end] =>
      destruct (loop w) as [[a2|e] w2] eqn:Hloop
  end.
  - exfalso. cbn in Hlook.
    apply bind_ok in Hloop as (refinementMap & w3 & Hloop & Hret).
    unfold ret in Hret. simplify_eq.
    assert (accepted_from env (length (calls w)) w2) as Hacc.
    { eapply (accepting_for_of env); [| |exact Hloop].
      - intros pid mp. cbv beta.
        destruct (selected_idea_of (state a) pid) as [ideaId|]; [|apply accepting_ret].
        apply accepting_bind; [apply accepting_nonnull|]. intros ideas.
        destruct (find_idea ideaId ideas); [|apply accepting_ret].
        apply accepting_bind; [apply accepting_nonnull|]. intros p.
        apply accepting_bind; [apply accepting_analyzeIdeaRequirements|].
        intros; apply accepting_ret.
      - intros k r Hk Hr. apply lookup_lt_Some in Hr. lia. }
    destruct (Hacc n req Hn Hlook) as [r Hr]. congruence.
  - eexists. cbn. repeat split; reflexivity.
Qed.

(** X14. [proceedToCaptions] is not: it moves to the captions page before it
    calls. When the capability rejects one of its calls, the handler
    returns on the captions page with the captions as they were, the error
    hook holding [Caption generation failed.]; and that page has no control
    left, so the captions cannot be asked for again. *)
Theorem proceedToCaptions_rejected_call (a : App) (w : World) :
  (exists n req,
     length (calls w) <= n
     /\ calls (snd (proceedToCaptions env a w)) !! n = Some req
     /\ invoke env n req = None) ->
  exists a',
    fst (proceedToCaptions env a w) = Ok a'
    /\ state a' = set_step Step.captions (state a)
    /\ captions (state a') = captions (state a)
    /\ error a' = Some "Caption generation failed."
    /\ loading a' = false
    /\ forall e, enabled a' e = false.
Proof.
  intros (n & req & Hn & Hlook & Hrej).
  unfold proceedToCaptions in *. cbv zeta in *.
  unfold bind at 1 in Hlook. unfold bind at 1. unfold try_catch in *.
  match goal with
  | |- context [match ?loop w with _ => _ end] =>
      destruct (loop w) as [[a2|e] w2] eqn:Hloop
  end.
  - exfalso. cbn in Hlook.
    apply bind_ok in Hloop as (captionsMap & w3 & Hloop & Hret).
    unfold ret in Hret. simplify_eq.
    assert (accepted_from env (length (calls w)) w2) as Hacc.
    { eapply (accepting_for_of env); [| |exact Hloop].
      - intros pid mp.
        repeat (apply accepting_bind; [apply accepting_nonnull|]; intro).
        apply accepting_bind; [apply accepting_generateCaptionStrategy|].
        intros; apply accepting_ret.
      - intros k r Hk Hr. apply lookup_lt_Some in Hr. lia. }
    destruct (Hacc n req Hn Hlook) as [r Hr]. congruence.
  - eexists. cbn. split; [reflexivity|]. split; [reflexivity|]. split; [reflexivity|].
    split; [reflexivity|]. split; [reflexivity|].
    intros ev. destruct ev; try reflexivity. by destruct m.
Qed.

End Rejected.

Lemma proceedToRefinement_all_or_nothing_rejected :
  exists a',
    fst (proceedToRefinement first_call_only (fst (after first_call_only to_selected_idea))
           (snd (after first_call_only to_selected_idea))) = Ok a'
    /\ state a' = state (fst (after first_call_only to_selected_idea))
    /\ error a' = Some "Analysis failed."
    /\ loading a' = false.
Proof.
  apply (proceedToRefinement_all_or_nothing first_call_only).
  exists 1, (requirements_request first_call_only espresso_idea jakob).
  split; [vm_compute; lia|]. split; vm_compute; reflexivity.
Defined.

Lemma proceedToCaptions_rejected_call_after_editing :
  exists a',
    fst (proceedToCaptions no_captions (fst (after no_captions to_editing))
           (snd (after no_captions to_editing))) = Ok a'
    /\ state a' = set_step Step.captions (state (fst (after no_captions to_editing)))
    /\ captions (state a') = captions (state (fst (after no_captions to_editing)))
    /\ error a' = Some "Caption generation failed."
    /\ loading a' = false
    /\ forall e, enabled a' e = false.
Proof.
  apply (proceedToCaptions_rejected_call no_captions).
  exists 3, (caption_request no_captions jakob espresso_idea).
  split; [vm_compute; lia|]. split; vm_compute; reflexivity.
Defined.

(** ** New ideas for one persona *)

(** X15. [regenerateIdea] touches the ideas of the one persona only, and
    has no catch. When the call for the persona returns, its ideas take the
    place of the persona's ideas. When the persona is not found or the call
    throws, whatever it throws, the state is as it was and no error is set:
    the rejection is left to the runtime, which reports it on the console,
    and nothing on the page shows the failure. Either way the busy flag is
    down after it, and the ideas of the other personas, the selected ideas
    (also the one of this persona, whose idea may be gone with the old
    ideas), the selected personas, the step and the error hook are as they
    were. *)
Theorem regenerateIdea_touches_one_persona (env : Env) (pid : string) (a : App) (w : World) :
  exists a',
    fst (regenerateIdea env pid a w) = Ok a'
    /\ error a' = error a
    /\ loading a' = false
    /\ personas a' = personas a
    /\ step (state a') = step (state a)
    /\ selectedPersonaIds (state a') = selectedPersonaIds (state a)
    /\ selectedIdeaIds (state a') = selectedIdeaIds (state a)
    /\ (forall pid', pid' <> pid ->
          generatedIdeas (state a') !! pid' = generatedIdeas (state a) !! pid')
    /\ match find_persona pid (personas a) with
       | None =>
           state a' = state a
           /\ console (snd (regenerateIdea env pid a w))
              = console w ++ ["Uncaught (in promise) " +:+ exn_message TypeError]
       | Some persona =>
           match (match mode (state a) with
                  | Some manual =>
                      generateManualVariants env persona (manualActivityInput (state a))
                        (Some "Try different angles or locations.")
                  | _ => generateAutoTrends env persona
                  end) w with
           | (Ok newIdeas, w') =>
               state a' = set_generatedIdeas (<[pid := newIdeas]> (generatedIdeas (state a)))
                            (state a)
               /\ snd (regenerateIdea env pid a w) = w'
           | (Throw e, w') =>
               state a' = state a
               /\ console (snd (regenerateIdea env pid a w))
                  = console w' ++ ["Uncaught (in promise) " +:+ exn_message e]
           end
       end.
Proof.
  unfold regenerateIdea. cbv zeta. cbn [personas state setLoading].
  destruct (find_persona pid (personas a)) as [persona|].
  - unfold bind, try_catch, nonnull, ret. cbv beta iota.
    destruct ((match mode (state a) with
               | Some manual =>
                   generateManualVariants env persona (manualActivityInput (state a))
                     (Some "Try different angles or locations.")
               | _ => generateAutoTrends env persona
               end) w) as [[newIdeas|e] w'].
    + unfold ret. eexists. cbn.
      split; [reflexivity|]. split; [reflexivity|]. split; [reflexivity|].
      split; [reflexivity|]. split; [reflexivity|]. split; [reflexivity|].
      split; [reflexivity|]. split; [|done].
      intros pid' Hne. by apply lookup_insert_ne.
    + unfold console_log, ret. eexists. cbn.
      split; [reflexivity|]. split; [reflexivity|]. split; [reflexivity|].
      split; [reflexivity|]. split; [reflexivity|]. split; [reflexivity|].
      split; [reflexivity|]. split; [done|done].
  - unfold bind, try_catch, console_log, ret. cbn. eexists.
    split; [reflexivity|]. split; [reflexivity|]. split; [reflexivity|].
    split; [reflexivity|]. split; [reflexivity|]. split; [reflexivity|].
    split; [reflexivity|]. split; [done|done].
Qed.

(** The call of the regeneration rejected, on the ideation page of the
    scenario: the ideas are those of before, no error is set, and the
    console has the unhandled rejection. *)
Lemma regenerateIdea_rejected_call :
  (fun r => ((fun a' => (generatedIdeas (state a') !! "p1", error a', loading a'))
               <$> returned r,
             last (console (snd r))))
    (regenerateIdea first_call_only "p1" (fst (after first_call_only to_selected_idea))
       (snd (after first_call_only to_selected_idea)))
  = (Some (generatedIdeas (state (fst (after first_call_only to_selected_idea))) !! "p1",
           None, false),
     Some "Uncaught (in promise) Error: generateContent failed").
Proof. vm_compute. reflexivity. Qed.

(** ** The step of the workflow *)

Lemma no_control_on (a : App) (e : Event) :
  step (state a) = Step.generation \/ step (state a) = Step.captions
  \/ step (state a) = Step.complete ->
  enabled a e = false.
Proof.
  intros Hstep. destruct e; cbn [enabled]; cbv zeta; try (destruct m);
    destruct Hstep as [Hs | [Hs | Hs]]; rewrite Hs; reflexivity.
Qed.

(** X16. [proceedToGeneration] always returns, with the busy flag down, in
    one of two ways. Either the images are there and the step is [editing],
    the error hook as it was; or the step is left at [generation], the images
    as they were and the error hook at [Image Generation Failed.], and then
    the page shows no control at all: the session cannot go on, nor
    back. *)
Theorem proceedToGeneration_outcomes (env : Env) (a : App) (w : World) :
  exists a',
    fst (proceedToGeneration env a w) = Ok a'
    /\ loading a' = false
    /\ ((exists imagesMap,
           state a' = set_step Step.editing
                        (set_generatedImages imagesMap (set_step Step.generation (state a)))
           /\ error a' = error a)
        \/ (state a' = set_step Step.generation (state a)
            /\ error a' = Some "Image Generation Failed."
            /\ forall e, enabled a' e = false)).
Proof.
  unfold proceedToGeneration. cbv zeta. unfold bind at 1, try_catch.
  match goal with
  | |- context [match ?loop w with _ => _ end] =>
      destruct (loop w) as [[a2|e] w2] eqn:Hloop
  end.
  - apply bind_ok in Hloop as (imagesMap & w3 & _ & Hret). unfold ret in Hret. simplify_eq.
    eexists. cbn. split; [reflexivity|]. split; [reflexivity|]. left.
    exists imagesMap. by split.
  - unfold bind, console_log, ret. eexists. cbn. split; [reflexivity|]. split; [reflexivity|].
    right. split; [reflexivity|]. split; [reflexivity|].
    intros ev. apply no_control_on. by left.
Qed.

(** X17. The dead end is within reach of the controls of the page. With a
    capability that answers every call: select an idea, ask for new ideas
    for that persona, press Next Step, then start the generation. The
    selected idea went with the old ideas, the Next Step button does not
    look, and the generation fails on it: the session ends at the step
    [generation] with [Image Generation Failed.], no image, and no control
    enabled. *)
Theorem stale_selection_strands_session :
  exists a,
    reachable studio a
    /\ step (state a) = Step.generation
    /\ error a = Some "Image Generation Failed."
    /\ generatedImages (state a) = ∅
    /\ forall e, enabled a e = false.
Proof.
  exists (fst (after studio to_stale_selection)). split.
  - exists SEED_PERSONAS, true, to_stale_selection, (snd (after studio to_stale_selection)).
    vm_compute. reflexivity.
  - split; [vm_compute; reflexivity|]. split; [vm_compute; reflexivity|].
    split; [vm_compute; reflexivity|].
    intros e. apply no_control_on. left. vm_compute. reflexivity.
Qed.

Ltac forward_done :=
  cbn;
  repeat match goal with
         | Hs : step (state _) = _ |- _ => rewrite Hs; clear Hs
         end;
  cbn;
  split; [first [left; lia | by right]
         |split; [done | first [done | intros; lia]]].

(** X18. The workflow goes forward only. A control of the page, when its
    handler returns, leaves the step where it is or moves it later in the
    order of [WorkflowState], the one way back being the one from the
    selection to the dashboard; the step [complete] is never set; and from
    the ideation page on the selected personas are as they were when the
    selection page was left. *)
Theorem handle_goes_forward (env : Env) (e : Event) (a a' : App) (w w' : World) :
  enabled a e = true ->
  handle env e a w = (Ok a', w') ->
  (step_index (step (state a)) <= step_index (step (state a'))
   \/ (step (state a) = Step.selection /\ step (state a') = Step.dashboard))
  /\ step (state a') <> Step.complete
  /\ (2 <= step_index (step (state a)) ->
      selectedPersonaIds (state a') = selectedPersonaIds (state a)).
Proof.
  intros Hen Hrun.
  destruct e; cbn [handle] in Hrun; cbn [enabled] in Hen; cbv zeta in Hen;
    try (destruct m); split_enabled;
    try (unfold ret in Hrun; injection Hrun as <- <-).
  - apply handleSavePersona_state in Hrun. rewrite Hrun. forward_done.
  - apply handleEnhancePersona_state in Hrun. subst. forward_done.
  - unfold handleDeletePersona. destruct confirmed; forward_done.
  - forward_done.
  - forward_done.
  - forward_done.
  - unfold proceedToIdeation. destruct (Nat.eqb _ 0); forward_done.
  - forward_done.
  - forward_done.
  - forward_done.
  - apply generateIdeas_state in Hrun as [->|(ideasMap & ->)]; forward_done.
  - apply generateIdeas_state in Hrun as [->|(ideasMap & ->)]; forward_done.
  - apply regenerateIdea_state in Hrun as [->|(newIdeas & ->)]; forward_done.
  - forward_done.
  - apply proceedToRefinement_state in Hrun as [->|(refinementMap & -> & _)]; forward_done.
  - unfold handleRefinementInput in Hrun.
    apply update_requirement_state in Hrun as (reqs & reqs' & _ & ->). forward_done.
  - unfold useSuggestion in Hrun.
    apply bind_ok in Hrun as (reqs & w1 & Hr & Hrun). apply nonnull_ok in Hr as [Hr ->].
    destruct (List.find _ reqs) as [req|].
    + unfold handleRefinementInput in Hrun.
      apply update_requirement_state in Hrun as (reqs0 & reqs' & _ & ->). forward_done.
    + unfold ret in Hrun. simplify_eq. forward_done.
  - unfold handleRefinementImage in Hrun. cbv zeta in Hrun.
    apply update_requirement_state in Hrun as (reqs & reqs' & _ & ->). forward_done.
  - forward_done.
  - forward_done.
  - apply proceedToGeneration_state in Hrun as [->|(imagesMap & -> & _)]; forward_done.
  - forward_done.
  - apply handleEditImage_state in Hrun as [->|(images & images' & _ & ->)]; forward_done.
  - apply proceedToCaptions_state in Hrun as [->|(captionsMap & -> & _)]; forward_done.
Qed.

Lemma handle_goes_forward_to_refinement :
  enabled (fst (after studio to_selected_idea)) EvProceedToRefinement = true
  /\ handle studio EvProceedToRefinement (fst (after studio to_selected_idea))
       (snd (after studio to_selected_idea))
     = (Ok refinement_app, snd (after studio to_refinement))
  /\ (step_index (step (state (fst (after studio to_selected_idea))))
      <= step_index (step (state refinement_app))
      \/ (step (state (fst (after studio to_selected_idea))) = Step.selection
          /\ step (state refinement_app) = Step.dashboard))
  /\ step (state refinement_app) <> Step.complete
  /\ (2 <= step_index (step (state (fst (after studio to_selected_idea)))) ->
      selectedPersonaIds (state refinement_app)
      = selectedPersonaIds (state (fst (after studio to_selected_idea)))).
Proof.
  assert (enabled (fst (after studio to_selected_idea)) EvProceedToRefinement = true) as Hen
    by (vm_compute; reflexivity).
  assert (handle studio EvProceedToRefinement (fst (after studio to_selected_idea))
            (snd (after studio to_selected_idea))
          = (Ok refinement_app, snd (after studio to_refinement))) as Hrun
    by (vm_compute; reflexivity).
  split; [exact Hen|]. split; [exact Hrun|].
  exact (handle_goes_forward studio EvProceedToRefinement _ _ _ _ Hen Hrun).
Defined.

(** ** The answers and the reference images of the refinement page *)

(** X19. Typing an answer changes that answer and nothing else. With
    requirements for the idea, [handleRefinementInput] returns, and the
    requirements of the idea are the same in number and order, each with its
    id, question, suggestion and reference image, the answer being the typed
    value on those with the id [reqId] and as before on the others; the
    requirements of the other ideas are untouched. Without requirements for
    the idea the updater throws a TypeError. *)
Theorem handleRefinementInput_answers_one (ideaId reqId : string) (val : Value) (a : App)
    (w : World) :
  match refinementData (state a) !! ideaId with
  | None => handleRefinementInput ideaId reqId val a w = (Throw TypeError, w)
  | Some reqs =>
      exists a' reqs',
        handleRefinementInput ideaId reqId val a w = (Ok a', w)
        /\ refinementData (state a') !! ideaId = Some reqs'
        /\ (forall k, k <> ideaId ->
              refinementData (state a') !! k = refinementData (state a) !! k)
        /\ length reqs' = length reqs
        /\ forall i r, reqs !! i = Some r ->
             exists r',
               reqs' !! i = Some r'
               /\ RefinementRequirement.id r' = RefinementRequirement.id r
               /\ RefinementRequirement.question r' = RefinementRequirement.question r
               /\ RefinementRequirement.suggestion r' = RefinementRequirement.suggestion r
               /\ RefinementRequirement.referenceImage r'
                  = RefinementRequirement.referenceImage r
               /\ RefinementRequirement.userResponse r'
                  = if String.eqb (RefinementRequirement.id r) reqId then val
                    else RefinementRequirement.userResponse r
  end.
Proof.
  unfold handleRefinementInput, update_requirement, bind.
  destruct (refinementData (state a) !! ideaId) as [reqs|] eqn:Hreqs; cbn [nonnull]; [|done].
  unfold ret. eexists _, _. split; [reflexivity|]. split; [apply lookup_insert_eq|].
  split; [intros k Hk; by apply lookup_insert_ne|].
  split; [apply length_map|].
  intros i r Hi. eexists. split.
  - change (List.map ?f reqs) with (f <$> reqs). rewrite list_lookup_fmap, Hi. reflexivity.
  - cbv beta. by destruct (String.eqb (RefinementRequirement.id r) reqId).
Qed.

Lemma push_inline_fold_head (x : Part) (reqs : list RefinementRequirement.t) :
  forall rest, exists rest',
    fold_left (fun parts req =>
                 push_inline "image/jpeg" (RefinementRequirement.referenceImage req) parts)
      reqs (x :: rest) = x :: rest'
    /\ (forall p, p ∈ rest -> p ∈ rest')
    /\ (forall r d, r ∈ reqs -> RefinementRequirement.referenceImage r = Some d ->
                    nonempty d = true -> PInline "image/jpeg" d ∈ rest').
Proof.
  induction reqs as [|req reqs IH]; intros rest; cbn [fold_left].
  - exists rest. split; [done|]. split; [done|]. intros r d Hr. by apply elem_of_nil in Hr.
  - unfold push_inline at 2.
    destruct (truthy_str (RefinementRequirement.referenceImage req)) eqn:Ht.
    + change ((x :: rest) ++ ?l) with (x :: (rest ++ l)).
      destruct (IH (rest ++ [PInline "image/jpeg"
                               (default "" (RefinementRequirement.referenceImage req))]))
        as (rest' & -> & Hmono & Hreqs).
      exists rest'. split; [done|]. split.
      * intros p Hp. apply Hmono. apply elem_of_app. by left.
      * intros r d Hr Hd Hne. apply elem_of_cons in Hr as [->|Hr]; [|by eapply Hreqs].
        apply Hmono. rewrite Hd. cbn. apply elem_of_app. right. by left.
    + destruct (IH rest) as (rest' & -> & Hmono & Hreqs).
      exists rest'. split; [done|]. split; [done|].
      intros r d Hr Hd Hne. apply elem_of_cons in Hr as [->|Hr]; [|by eapply Hreqs].
      rewrite Hd in Ht. cbn in Ht. congruence.
Qed.

Lemma image_parts_shape (env : Env) persona fullPrompt requirements (w : World) :
  exists rest0 w',
    image_parts env persona fullPrompt requirements w
    = (Ok (fold_left (fun parts req =>
                        push_inline "image/jpeg" (RefinementRequirement.referenceImage req)
                          parts)
             requirements (PText fullPrompt :: rest0)), w').
Proof.
  unfold image_parts.
  assert (forall l rest0 w0,
            exists rest w',
              for_of l (fun imgUrl parts =>
                 if startsWith "http" imgUrl
                 then base64 <- urlToBase64 env imgUrl ;;
                      ret (push_inline "image/jpeg" base64 parts)
                 else ret (parts ++ [PInline "image/jpeg" imgUrl]))
                (PText fullPrompt :: rest0) w0 = (Ok (PText fullPrompt :: rest), w')) as Hloop.
  { induction l as [|url l IH]; intros rest0 w0; cbn [for_of].
    - exists rest0, w0. done.
    - unfold bind at 1. destruct (startsWith "http" url).
      + destruct (urlToBase64_returns env url w0) as (b & w1 & Hu & _).
        unfold bind at 1. rewrite Hu. unfold ret at 1. unfold push_inline.
        destruct (truthy_str b); apply IH.
      + unfold ret at 1. apply IH. }
  destruct (Hloop (Persona.refImages persona) [] w) as (rest0 & w' & Hl).
  unfold bind at 1. rewrite Hl. unfold ret. by exists rest0, w'.
Qed.

(** X20. A reference image uploaded for a requirement goes out with the
    image request, labelled as a JPEG whatever the file was. When
    [fileToBase64] resolved to a data URL, [handleRefinementImage] keeps the
    content after the first comma and drops the MIME type before it; and
    the parts that [generateUGCImages] builds from the requirements have a
    part with that content and the type [image/jpeg]. *)
Theorem uploaded_reference_is_sent_as_jpeg (env : Env) (ideaId reqId pre d : string)
    (a : App) (w w0 : World) reqs persona fullPrompt :
  refinementData (state a) !! ideaId = Some reqs ->
  (exists r, r ∈ reqs /\ RefinementRequirement.id r = reqId) ->
  occurs ","%char pre = false -> occurs ","%char d = false -> nonempty d = true ->
  exists a' reqs' rest w',
    handleRefinementImage ideaId reqId (pre +:+ String ","%char d) a w = (Ok a', w)
    /\ refinementData (state a') !! ideaId = Some reqs'
    /\ image_parts env persona fullPrompt reqs' w0 = (Ok (PText fullPrompt :: rest), w')
    /\ PInline "image/jpeg" d ∈ rest.
Proof.
  intros Hreqs (r & Hr & Hid) Hpre Hd Hne.
  unfold handleRefinementImage, update_requirement, bind. cbv zeta.
  rewrite Hreqs. cbn [nonnull]. unfold ret.
  assert (split_comma_1 (pre +:+ String ","%char d) = Some d) as ->.
  { unfold split_comma_1. rewrite split_on_append by done.
    by rewrite (split_on_absent _ _ Hd). }
  match goal with
  | |- context [List.map ?f reqs] => set (g := f)
  end.
  destruct (image_parts_shape env persona fullPrompt (List.map g reqs) w0)
    as (rest0 & w' & Hparts).
  destruct (push_inline_fold_head (PText fullPrompt) (List.map g reqs) rest0)
    as (rest & Hfold & _ & Hsent).
  rewrite Hfold in Hparts.
  eexists _, (List.map g reqs), rest, w'. split; [reflexivity|].
  split; [apply lookup_insert_eq|]. split; [exact Hparts|].
  apply (Hsent (g r) d); [| |done].
  - apply list_elem_of_In, List.in_map, list_elem_of_In, Hr.
  - subst g. cbv beta. apply String.eqb_eq in Hid. by rewrite Hid.
Qed.

Lemma uploaded_reference_is_sent_as_jpeg_png :
  exists a' reqs' rest w',
    handleRefinementImage "p1-idea-1700000000000-0" "p1-idea-1700000000000-0-req-0"
      ("data:image/png;base64" +:+ String ","%char "QUJD") refinement_app world0
    = (Ok a', world0)
    /\ refinementData (state a') !! "p1-idea-1700000000000-0" = Some reqs'
    /\ image_parts studio jakob "a prompt" reqs' world0 = (Ok (PText "a prompt" :: rest), w')
    /\ PInline "image/jpeg" "QUJD" ∈ rest.
Proof.
  apply (uploaded_reference_is_sent_as_jpeg studio "p1-idea-1700000000000-0"
           "p1-idea-1700000000000-0-req-0" "data:image/png;base64" "QUJD" refinement_app
           world0 world0 [coffee_requirement] jakob "a prompt").
  - vm_compute. reflexivity.
  - exists coffee_requirement. split; [by left|reflexivity].
  - vm_compute. reflexivity.
  - vm_compute. reflexivity.
  - vm_compute. reflexivity.
Defined.

(** ** The persona editor *)

(** X21. [enhancePersonaProfile] makes one call, whose first part is the
    prompt and whose other parts are JPEG images; no fetch that fails stops
    it. When the call is answered it does not throw: a text that parses is
    returned as parsed, and on a text that does not parse the profile comes
    back as it was given. Only a rejected call makes it throw. *)
Theorem enhancePersonaProfile_falls_back (env : Env) (currentProfile : PartialPersona.t)
    (w : World) :
  exists rest,
    Forall is_jpeg rest
    /\ calls (snd (enhancePersonaProfile env currentProfile w))
       = calls w ++ [enhance_request (PText (enhance_prompt currentProfile) :: rest)]
    /\ fst (enhancePersonaProfile env currentProfile w)
       = match invoke env (length (calls w))
                 (enhance_request (PText (enhance_prompt currentProfile) :: rest)) with
         | None => Throw CapabilityError
         | Some response =>
             match JSON_parse env (text_or response "{}") with
             | Some v => Ok (Parsed v)
             | None => Ok (Unchanged currentProfile)
             end
         end.
Proof.
  unfold enhancePersonaProfile. cbv zeta.
  set (prompt := enhance_prompt currentProfile).
  assert (exists rest1 w1,
            (match PartialPersona.avatarUrl currentProfile with
             | Some url =>
                 if nonempty url
                 then b64 <- urlToBase64 env url ;;
                      ret (push_inline "image/jpeg" b64 [PText prompt])
                 else ret [PText prompt]
             | None => ret [PText prompt]
             end) w = (Ok (PText prompt :: rest1), w1)
            /\ calls w1 = calls w /\ Forall is_jpeg rest1) as (rest1 & w1 & Havatar & Hc1 & Hj1).
  { destruct (PartialPersona.avatarUrl currentProfile) as [url|];
      [destruct (nonempty url)|]; try (exists [], w; by repeat split).
    destruct (urlToBase64_returns env url w) as (b & w1 & Hu & Hc).
    unfold bind. rewrite Hu. unfold ret.
    destruct (push_inline_jpeg b prompt [] ltac:(constructor)) as (rest1 & -> & Hj & _).
    by exists rest1, w1. }
  assert (forall l rest0 w0, Forall is_jpeg rest0 ->
            exists rest w',
              for_of l (fun imgUrl parts =>
                 b64 <- urlToBase64 env imgUrl ;; ret (push_inline "image/jpeg" b64 parts))
                (PText prompt :: rest0) w0 = (Ok (PText prompt :: rest), w')
              /\ calls w' = calls w0 /\ Forall is_jpeg rest) as Hloop.
  { induction l as [|url l IH]; intros rest0 w0 Hrest0; cbn [for_of].
    - by exists rest0, w0.
    - destruct (urlToBase64_returns env url w0) as (b & w1' & Hu & Hc).
      unfold bind at 1. unfold bind at 1. rewrite Hu. unfold ret at 1.
      destruct (push_inline_jpeg b prompt rest0 Hrest0) as (rest1' & -> & Hj & _).
      destruct (IH rest1' w1' Hj) as (rest & w' & Hl & Hc' & Hj').
      exists rest, w'. split; [done|]. split; [congruence|done]. }
  assert (exists rest w2,
            (match PartialPersona.refImages currentProfile with
             | Some imgs =>
                 for_of imgs (fun imgUrl parts =>
                   b64 <- urlToBase64 env imgUrl ;; ret (push_inline "image/jpeg" b64 parts))
                   (PText prompt :: rest1)
             | None => ret (PText prompt :: rest1)
             end) w1 = (Ok (PText prompt :: rest), w2)
            /\ calls w2 = calls w /\ Forall is_jpeg rest) as (rest & w2 & Hrefs & Hc2 & Hj2).
  { destruct (PartialPersona.refImages currentProfile) as [imgs|].
    - destruct (Hloop imgs rest1 w1 Hj1) as (rest & w2 & Hl & Hc & Hj).
      exists rest, w2. split; [done|]. split; [congruence|done].
    - by exists rest1, w1. }
  exists rest. split; [done|].
  rewrite !(bind_run _ _ _ _ _ Havatar), !(bind_run _ _ _ _ _ Hrefs).
  unfold enhance_request, bind, generateContent. rewrite Hc2.
  destruct (invoke env (length (calls w)) _) as [response|]; [|done].
  unfold try_catch, bind, parse, console_log, ret, throw.
  by destruct (JSON_parse env (text_or response "{}")).
Qed.

(** X22. The editor holds at most three reference images. With fewer than
    three, an upload that succeeds adds its URL at the end, the images of
    before staying in place, and nothing else of the persona changes; with
    three already, or when the upload fails, the persona is as it was. A
    removal takes out the image at its index and keeps the others in
    order. So neither takes the number of images above three. *)
Theorem editor_reference_images_capped (editing : Persona.t) :
  length (Persona.refImages editing) <= 3 ->
  (forall publicUrl,
     length (Persona.refImages editing) < 3 ->
     handleRefImageUpload (Some publicUrl) (Some editing)
     = Some (set_refImages (Persona.refImages editing ++ [publicUrl]) editing))
  /\ (forall uploaded,
        length (Persona.refImages editing) = 3 ->
        handleRefImageUpload uploaded (Some editing) = Some editing)
  /\ handleRefImageUpload None (Some editing) = Some editing
  /\ (forall uploaded, exists editing',
        handleRefImageUpload uploaded (Some editing) = Some editing'
        /\ length (Persona.refImages editing') <= 3
        /\ (Persona.refImages editing' = Persona.refImages editing
            \/ exists publicUrl,
                 uploaded = Some publicUrl
                 /\ Persona.refImages editing' = Persona.refImages editing ++ [publicUrl]))
  /\ (forall index, exists editing',
        removeRefImage index (Some editing) = Some editing'
        /\ length (Persona.refImages editing') <= 3
        /\ Persona.refImages editing'
           = take index (Persona.refImages editing)
             ++ drop (S index) (Persona.refImages editing)).
Proof.
  intros Hcap. split; [|split; [|split; [|split]]].
  - intros publicUrl Hlt. unfold handleRefImageUpload.
    by rewrite (proj2 (Nat.leb_gt _ _) Hlt).
  - intros uploaded Hfull. unfold handleRefImageUpload. by rewrite Hfull.
  - unfold handleRefImageUpload. by destruct (Nat.leb 3 (length (Persona.refImages editing))).
  - intros uploaded. unfold handleRefImageUpload.
    destruct (Nat.leb 3 (length (Persona.refImages editing))) eqn:Hfull.
    + exists editing. split; [done|]. split; [done|by left].
    + apply Nat.leb_gt in Hfull. destruct uploaded as [publicUrl|].
      * eexists. split; [reflexivity|]. cbn. rewrite length_app. cbn.
        split; [lia|]. right. by exists publicUrl.
      * exists editing. split; [done|]. split; [done|by left].
  - intros index. unfold removeRefImage. eexists. split; [reflexivity|]. cbn.
    split.
    + rewrite delete_take_drop, length_app, length_take, length_drop. lia.
    + by rewrite delete_take_drop.
Qed.

Lemma editor_reference_images_capped_with_refs :
  length (Persona.refImages persona_with_refs) <= 3
  /\ handleRefImageUpload (Some "https://example.org/new.jpg") (Some persona_with_refs)
     = Some (set_refImages ["https://example.org/iva.jpg"; "QUJD"; "https://example.org/new.jpg"]
               persona_with_refs)
  /\ handleRefImageUpload None (Some persona_with_refs) = Some persona_with_refs.
Proof.
  assert (length (Persona.refImages persona_with_refs) <= 3) as Hcap by (cbn; lia).
  split; [exact Hcap|].
  destruct (editor_reference_images_capped persona_with_refs Hcap)
    as (Hadd & _ & Hfail & _ & _).
  split; [|exact Hfail]. apply (Hadd "https://example.org/new.jpg"). cbn. lia.
Defined.

(** ** An edit that fails *)

Lemma accepting_editImageWithChat (env : Env) image instruction referenceImage :
  accepting env (editImageWithChat env image instruction referenceImage).
Proof.
  unfold editImageWithChat. cbv zeta.
  destruct (negb (truthy_str (split_comma_1 (GeneratedImage.imageUrl image))));
    [apply accepting_throw|].
  apply accepting_bind; [apply accepting_generateContent|]. intros response.
  destruct (first_inline (candidateParts response)); [apply accepting_ret|apply accepting_throw].
Qed.

(** X23. [handleEditImage] always returns and never leaves the editing
    page. Without an instruction typed for the image it does nothing, and
    makes no call. When the capability rejects its call, the images and the
    instruction typed are as they were, the error hook holds [Editing
    failed.] and the busy flag is down, so the edit can be asked for
    again. *)
Theorem handleEditImage_rejected_call (env : Env) (ideaId imageId : string) (a : App)
    (w : World) :
  exists a',
    fst (handleEditImage env ideaId imageId a w) = Ok a'
    /\ step (state a') = step (state a)
    /\ (truthy_str (editInputs a !! imageId) = false ->
        a' = a /\ snd (handleEditImage env ideaId imageId a w) = w)
    /\ ((exists n req,
           length (calls w) <= n
           /\ calls (snd (handleEditImage env ideaId imageId a w)) !! n = Some req
           /\ invoke env n req = None) ->
        state a' = state a
        /\ editInputs a' = editInputs a
        /\ error a' = Some "Editing failed."
        /\ loading a' = false).
Proof.
  destruct (handleEditImage env ideaId imageId a w) as [res wf] eqn:Hrun. cbn [fst snd].
  assert (forall n req, length (calls w) <= n -> calls w !! n = Some req -> False) as Hnone.
  { intros n req Hn Hlook. apply lookup_lt_Some in Hlook. lia. }
  unfold handleEditImage in Hrun.
  destruct (editInputs a !! imageId) as [input|] eqn:Hinput.
  - destruct (nonempty input) eqn:Hne; cbn [negb] in Hrun.
    + cbv zeta in Hrun. unfold bind at 1 in Hrun. unfold try_catch in Hrun.
      match type of Hrun with
      | match (match ?body w with _ => _ end) with _ => _ end = _ =>
          destruct (body w) as [[a2|e] w2] eqn:Hbody
      end.
      * unfold ret in Hrun. simplify_eq. eexists. split; [reflexivity|].
        assert (accepted_from env (length (calls w)) wf) as Hacc.
        { eapply (accepting_bind env); [| | |exact Hbody].
          - apply accepting_nonnull.
          - intros images. apply accepting_bind; [apply accepting_nonnull|]. intros img.
            apply accepting_bind; [apply accepting_editImageWithChat|]. intros newImage.
            apply accepting_bind; [apply accepting_nonnull|]. intros current.
            apply accepting_ret.
          - intros n req Hn Hlook. exfalso. by eapply Hnone. }
        apply bind_ok in Hbody as (images & w3 & _ & Hbody).
        apply bind_ok in Hbody as (img & w4 & _ & Hbody).
        apply bind_ok in Hbody as (newImage & w5 & _ & Hbody).
        apply bind_ok in Hbody as (current & w6 & _ & Hret).
        unfold ret in Hret. simplify_eq. cbn.
        split; [reflexivity|]. split; [cbn; congruence|].
        intros (n & req & Hn & Hlook & Hrej).
        destruct (Hacc n req Hn Hlook) as [r Hr]. congruence.
      * unfold ret in Hrun. simplify_eq. eexists. split; [reflexivity|]. cbn.
        split; [reflexivity|]. split; [cbn; congruence|]. intros _. by repeat split.
    + unfold ret in Hrun. simplify_eq. exists a. split; [done|]. split; [done|].
      split; [done|]. intros (n & req & Hn & Hlook & _). exfalso. by eapply Hnone.
  - unfold ret in Hrun. simplify_eq. exists a. split; [done|]. split; [done|].
    split; [done|]. intros (n & req & Hn & Hlook & _). exfalso. by eapply Hnone.
Qed.

(** On the editing page of the scenario, with a capability that rejects
    every call. *)
Lemma handleEditImage_rejected_on_editing_app :
  (fun a' => (generatedImages (state a'), editInputs a' !! "idea1-img-123-0", error a'))
    <$> returned (handleEditImage (runtime (fun _ _ => None)) "idea1" "idea1-img-123-0"
                    editing_app world0)
  = Some (generatedImages (state editing_app), Some "make it sunnier",
          Some "Editing failed.").
Proof. vm_compute. reflexivity. Qed.

(** ** A response without text *)

Lemma text_or_falsy (response : Response) (fallback : string) :
  truthy_str (text response) = false -> text_or response fallback = fallback.
Proof.
  unfold text_or, truthy_str. destruct (text response) as [s|]; [|done]. by intros ->.
Qed.

(** X24. An answer without text is no error. With the runtime's parser, when
    the call is answered by a response whose text is missing or empty, the
    fallback text of each function parses: [generateManualVariants],
    [generateAutoTrends] and [analyzeIdeaRequirements] return the empty
    list, and [generateCaptionStrategy] returns an empty caption without
    hashtags. *)
Theorem empty_text_falls_back (responses : nat -> Request -> option Response)
    persona idea activity feedback (w : World) :
  (forall req, exists response,
     responses (length (calls w)) req = Some response
     /\ truthy_str (text response) = false) ->
  fst (generateManualVariants (runtime responses) persona activity feedback w) = Ok []
  /\ fst (generateAutoTrends (runtime responses) persona w) = Ok []
  /\ fst (analyzeIdeaRequirements (runtime responses) idea persona w) = Ok []
  /\ fst (generateCaptionStrategy (runtime responses) persona idea w)
     = Ok (VObj [("caption", VStr ""); ("hashtags", VArr [])]).
Proof.
  intros Hresp. split; [|split; [|split]].
  - destruct (Hresp (manual_request persona activity feedback)) as (response & Hr & Ht).
    unfold generateManualVariants, bind, generateContent. cbn [invoke runtime].
    rewrite Hr. rewrite (text_or_falsy _ _ Ht). reflexivity.
  - destruct (Hresp (auto_request persona)) as (response & Hr & Ht).
    unfold generateAutoTrends, bind, generateContent. cbn [invoke runtime].
    rewrite Hr. unfold extract_trends, try_catch. cbv zeta.
    rewrite (text_or_falsy _ _ Ht). reflexivity.
  - destruct (Hresp (requirements_request (runtime responses) idea persona))
      as (response & Hr & Ht).
    unfold analyzeIdeaRequirements, bind, generateContent. cbn [invoke runtime].
    rewrite Hr. rewrite (text_or_falsy _ _ Ht). reflexivity.
  - destruct (Hresp (caption_request (runtime responses) persona idea))
      as (response & Hr & Ht).
    unfold generateCaptionStrategy, bind, generateContent. cbn [invoke runtime].
    rewrite Hr. rewrite (text_or_falsy _ _ Ht). vm_compute. reflexivity.
Qed.

Lemma empty_text_falls_back_speechless :
  fst (generateManualVariants speechless jakob "drinking coffee" None world0) = Ok []
  /\ fst (generateAutoTrends speechless jakob world0) = Ok []
  /\ fst (analyzeIdeaRequirements speechless coffee_idea jakob world0) = Ok []
  /\ fst (generateCaptionStrategy speechless jakob coffee_idea world0)
     = Ok (VObj [("caption", VStr ""); ("hashtags", VArr [])]).
Proof.
  apply (empty_text_falls_back (fun _ _ => Some {| text := None; candidateParts := [] |})
           jakob coffee_idea "drinking coffee" None world0).
  intros req. eexists. split; reflexivity.
Defined.

(** ** The ids of the ideas *)

Section Segments.
#[local] Arguments String.append !_ _ / : simpl nomatch.

Lemma append_assoc (a b c : string) : a +:+ (b +:+ c) = (a +:+ b) +:+ c.
Proof. induction a as [|x a IH]; cbn; [done|]. by rewrite IH. Qed.

Lemma occurs_append (c : ascii) (a b : string) :
  occurs c (a +:+ b) = occurs c a || occurs c b.
Proof. induction a as [|x a IH]; cbn; [done|]. by rewrite IH, orb_assoc. Qed.

Lemma last_segment (s1 s2 a b : string) :
  occurs "-"%char a = false -> occurs "-"%char b = false ->
  s1 +:+ String "-"%char a = s2 +:+ String "-"%char b -> a = b.
Proof.
  intros Ha Hb. revert s2. induction s1 as [|x s1 IH]; intros [|y s2] E; cbn in E.
  - by simplify_eq.
  - injection E as _ E. rewrite E, occurs_append in Ha. cbn in Ha.
    by rewrite orb_true_r in Ha.
  - injection E as _ E. rewrite <- E, occurs_append in Hb. cbn in Hb.
    by rewrite orb_true_r in Hb.
  - injection E as _ E. by apply (IH s2).
Qed.

End Segments.

Lemma pretty_N_go_no_dash (x : N) (s : string) :
  occurs "-"%char s = false -> occurs "-"%char (pretty_N_go x s) = false.
Proof.
  revert s. induction (N.lt_wf_0 x) as [x _ IH]; intros s Hs.
  assert (x = 0 \/ 0 < x)%N as [->|Hx] by lia.
  - by rewrite pretty_N_go_0.
  - rewrite pretty_N_go_step by done. apply IH; [by apply N.div_lt|].
    cbn. rewrite Hs. unfold pretty_N_char. by repeat case_match.
Qed.

Lemma pretty_nat_no_dash (i : nat) : occurs "-"%char (pretty i) = false.
Proof.
  unfold pretty, pretty_nat, pretty, pretty_N.
  destruct (decide (N.of_nat i = 0%N)); [done|]. by apply pretty_N_go_no_dash.
Qed.

Lemma derived_id_index (parent parent' tag tag' : string) (t t' : Z) (i j : nat) :
  derived_id parent tag t i = derived_id parent' tag' t' j -> i = j.
Proof.
  unfold derived_id. intros E.
  change ("-" +:+ pretty i) with (String "-"%char (pretty i)) in E.
  change ("-" +:+ pretty j) with (String "-"%char (pretty j)) in E.
  rewrite !(append_assoc _ _ (String "-"%char (pretty i))),
          !(append_assoc _ _ (String "-"%char (pretty j))) in E.
  apply last_segment in E; [|apply pretty_nat_no_dash..].
  by apply (inj pretty).
Qed.

(** X25. The ideas of one call have pairwise distinct ids, whatever the clock
    reads: the id ends in the index of the idea in the response, after the
    last dash. So on the ideation page [selectIdea] picks out one idea of
    the persona. *)
Theorem ideas_of_a_call_have_distinct_ids (env : Env) persona activity feedback
    (w : World) ideas :
  fst (generateManualVariants env persona activity feedback w) = Ok ideas
  \/ fst (generateAutoTrends env persona w) = Ok ideas ->
  NoDup (GeneratedIdea.id <$> ideas).
Proof.
  intros Hrun.
  assert (exists (build : nat -> Value -> GeneratedIdea.t) (l : list Value),
            ideas = imap build l
            /\ forall i r, exists tag t,
                 GeneratedIdea.id (build i r) = derived_id (Persona.id persona) tag t i)
    as (build & l & -> & Hid).
  { destruct Hrun as [Hrun|Hrun].
    - destruct (generateManualVariants env persona activity feedback w) as [res w'] eqn:Hm.
      cbn in Hrun. subst res.
      apply generateManualVariants_ok in Hm as (response & l & _ & _ & _ & ->).
      eexists _, l. split; [reflexivity|]. intros i r. by eexists _, _.
    - destruct (generateAutoTrends env persona w) as [res w'] eqn:Hm.
      cbn in Hrun. subst res.
      apply generateAutoTrends_ok in Hm as (response & l & _ & _ & _ & ->).
      eexists _, l. split; [reflexivity|]. intros i r. by eexists _, _. }
  apply NoDup_alt. intros i j x Hi Hj.
  rewrite list_lookup_fmap, list_lookup_imap in Hi, Hj.
  destruct (l !! i) as [ri|]; [|done]. destruct (l !! j) as [rj|]; [|done].
  cbn in Hi, Hj.
  destruct (Hid i ri) as (tag & t & Ei). destruct (Hid j rj) as (tag' & t' & Ej).
  rewrite Ei in Hi. rewrite Ej in Hj. simplify_eq.
  match goal with
  | E : derived_id _ _ _ _ = derived_id _ _ _ _ |- _ => by apply derived_id_index in E
  end.
Qed.

Lemma ideas_of_a_call_have_distinct_ids_coffee :
  (fst (generateManualVariants coffee_env jakob "drinking coffee" None world0)
   = Ok (default [] (returned (generateManualVariants coffee_env jakob "drinking coffee" None
                                 world0)))
   \/ fst (generateAutoTrends coffee_env jakob world0)
      = Ok (default [] (returned (generateManualVariants coffee_env jakob "drinking coffee"
                                    None world0))))
  /\ NoDup (GeneratedIdea.id
              <$> default [] (returned (generateManualVariants coffee_env jakob
                                          "drinking coffee" None world0))).
Proof.
  assert (fst (generateManualVariants coffee_env jakob "drinking coffee" None world0)
          = Ok (default [] (returned (generateManualVariants coffee_env jakob
                                        "drinking coffee" None world0)))) as Hrun
    by (vm_compute; reflexivity).
  split; [by left|].
  apply (ideas_of_a_call_have_distinct_ids coffee_env jakob "drinking coffee" None world0).
  by left.
Defined.

(** ** The ids of the images *)

(** X26. The id of an image tells the images of one response apart by the
    clock only. When the clock reads the same time at every image, each
    image that [generateUGCImages] returns has the id [<idea>-img-<time>-<i>]
    of the call [i] that returned it; so with one call, all the images of
    its response carry one id, and [handleEditImage], which finds an image
    by its id, cannot tell them apart. *)
Theorem images_of_a_response_share_an_id (env : Env) persona idea requirements count quality
    (w : World) (t0 : Z) images :
  (forall n, Date_now env n = t0) ->
  fst (generateUGCImages env persona idea requirements count quality w) = Ok images ->
  Forall (fun img => exists i,
            i < count
            /\ GeneratedImage.id img = derived_id (GeneratedIdea.id idea) "img" t0 i) images
  /\ (count = 1 ->
      forall x y, x ∈ images -> y ∈ images -> GeneratedImage.id x = GeneratedImage.id y).
Proof.
  intros Hclock Hrun.
  assert (Forall (fun img => exists i,
                    i < count
                    /\ GeneratedImage.id img = derived_id (GeneratedIdea.id idea) "img" t0 i)
            images) as Hids.
  { destruct (generateUGCImages env persona idea requirements count quality w)
      as [res w'] eqn:Hgen. cbn in Hrun. subst res.
    unfold generateUGCImages in Hgen. cbv zeta in Hgen.
    apply bind_ok in Hgen as (parts & w1 & _ & Hloop).
    eapply (for_range_ok_ind
              (fun s _ => Forall (fun img => exists i,
                  i < count
                  /\ GeneratedImage.id img = derived_id (GeneratedIdea.id idea) "img" t0 i) s));
      [| |exact Hloop]; [|constructor].
    intros i s w0 s' w0' Hi Hs Hbody. unfold try_catch in Hbody.
    match type of Hbody with
    | match ?m ?w0 with _ => _ end = _ => destruct (m w0) as [[r|e] w2] eqn:Hm
    end.
    - simplify_eq. apply bind_ok in Hm as (response & w3 & _ & Hcol).
      unfold collect_images in Hcol.
      eapply (for_of_ok_ind
                (fun s _ => Forall (fun img => exists i,
                    i < count
                    /\ GeneratedImage.id img
                       = derived_id (GeneratedIdea.id idea) "img" t0 i) s));
        [|exact Hs|exact Hcol].
      intros part s1 w4 s1' w4' _ Hs1 Hpart. cbv beta in Hpart.
      destruct (inlineData part) as [data|].
      + apply bind_ok in Hpart as (t & w5 & Hnow & Hret). unfold ret in Hret.
        unfold now in Hnow. rewrite Hclock in Hnow. simplify_eq.
        apply Forall_app. split; [done|]. repeat constructor. exists i. split; [lia|done].
      + unfold ret in Hpart. by simplify_eq.
    - unfold bind, console_log, ret in Hbody. by simplify_eq. }
  split; [exact Hids|].
  intros -> x y Hx Hy. rewrite Forall_forall in Hids.
  destruct (Hids x Hx) as (i & Hi & ->). destruct (Hids y Hy) as (j & Hj & ->).
  by replace i with j by lia.
Qed.

Lemma images_of_a_response_share_an_id_twice :
  (forall n, Date_now within_a_millisecond n = 1700000000000%Z)
  /\ fst (generateUGCImages within_a_millisecond jakob coffee_idea [] 1 Q2K world0)
     = Ok [ image_of coffee_idea (image_prompt within_a_millisecond jakob coffee_idea [])
              0 1700000000000 (Some "AAAA");
            image_of coffee_idea (image_prompt within_a_millisecond jakob coffee_idea [])
              0 1700000000000 (Some "BBBB") ]
  /\ Forall (fun img => exists i,
               i < 1
               /\ GeneratedImage.id img
                  = derived_id (GeneratedIdea.id coffee_idea) "img" 1700000000000 i)
       [ image_of coffee_idea (image_prompt within_a_millisecond jakob coffee_idea [])
           0 1700000000000 (Some "AAAA");
         image_of coffee_idea (image_prompt within_a_millisecond jakob coffee_idea [])
           0 1700000000000 (Some "BBBB") ]
  /\ (1 = 1 ->
      forall x y,
        x ∈ [ image_of coffee_idea (image_prompt within_a_millisecond jakob coffee_idea [])
                0 1700000000000 (Some "AAAA");
              image_of coffee_idea (image_prompt within_a_millisecond jakob coffee_idea [])
                0 1700000000000 (Some "BBBB") ] ->
        y ∈ [ image_of coffee_idea (image_prompt within_a_millisecond jakob coffee_idea [])
                0 1700000000000 (Some "AAAA");
              image_of coffee_idea (image_prompt within_a_millisecond jakob coffee_idea [])
                0 1700000000000 (Some "BBBB") ] ->
        GeneratedImage.id x = GeneratedImage.id y).
Proof.
  assert (forall n, Date_now within_a_millisecond n = 1700000000000%Z) as Hclock
    by (intros n; reflexivity).
  assert (fst (generateUGCImages within_a_millisecond jakob coffee_idea [] 1 Q2K world0)
          = Ok [ image_of coffee_idea (image_prompt within_a_millisecond jakob coffee_idea [])
                   0 1700000000000 (Some "AAAA");
                 image_of coffee_idea (image_prompt within_a_millisecond jakob coffee_idea [])
                   0 1700000000000 (Some "BBBB") ]) as Hrun
    by (vm_compute; reflexivity).
  split; [exact Hclock|]. split; [exact Hrun|].
  exact (images_of_a_response_share_an_id within_a_millisecond jakob coffee_idea [] 1 Q2K
           world0 1700000000000 _ Hclock Hrun).
Defined.
